(** * The HUB75 matrix bindings: a shallow embedding of [matrix_wrapper.c]
      and of the [MatrixController] class of [matrix_bindings.cpp].

    The C wrapper works on a heap of [malloc]ed blocks through raw
    pointers, so the embedding threads an explicit store: a finite map
    from addresses to blocks, an allocation counter and a trace of the
    calls that leave the wrapper (threads, the external renderer, sleeps).
    A computation ends in one of four ways: it returns, it throws a C++
    exception, it runs into undefined behaviour ([Fault]: a read or a
    [free] through a dangling pointer, an access outside a block, a signed
    overflow, a join of something that is not a joinable thread), or it
    never returns ([Hang]: it waits for a thread that does not end, or it
    is inside the renderer's endless loop).

    The embedding is sequential.  What a background thread does is put at
    the join that waits for it: the thread runs to its end there, and the
    join returns when it has ended.  A turn the update loop makes between
    two calls of the main thread is written where it happens, as
    [update_loop_step].  The properties speak of the calls of a thread
    through what does not depend on when the thread ran. *)

From stdpp Require Import base numbers option list gmap strings pretty.

Local Open Scope Z_scope.

(** ** Machine integers *)

Definition INT_MIN : Z := -2147483648.
Definition INT_MAX : Z := 2147483647.

(** Conversion of an integer to [uint8_t]: the low eight bits. *)
Definition to_uint8 (z : Z) : Z := z `mod` 256.

(** Narrowing of a [ssize_t] to [int] (two's complement, 32 bits). *)
Definition to_int (z : Z) : Z := (z + 2147483648) `mod` 4294967296 - 2147483648.

(** ** The store *)

Definition addr : Type := positive.

(** A pointer is [NULL] or the address of a block. *)
Definition ptr : Type := option addr.
Definition NULL : ptr := None.

(** [scene_info], as far as the wrapper reads and writes it.  The type is
    declared in the external header [rpihub75.h]; the wrapper uses the
    fields [image], [width], [height] and [stride] (and passes [bcm_mapper]
    and [fps] back to the library). *)
Record scene_info : Type := mk_scene_info {
  image : ptr;
  scene_width : Z;
  scene_height : Z;
  stride : Z
}.

(** [matrix_wrapper_t]; [render_thread] is a [pthread_t], with [0] for
    "no thread". *)
Record matrix_wrapper_t : Type := mk_matrix_wrapper {
  scene : ptr;
  pixel_buffer : ptr;
  width : Z;
  height : Z;
  running : bool;
  render_thread : Z
}.

Inductive block : Type :=
| BWrapper (w : matrix_wrapper_t)
| BScene (s : scene_info)
| BBytes (bs : list Z).

(** What a thread started by the bindings runs. *)
Inductive thread_body : Type :=
| render_thread_func (arg : ptr)   (* the pthread of [matrix_wrapper_start] *)
| update_loop (wrapper : ptr).     (* the lambda of [MatrixController::start] *)

(** Calls that leave the wrapper, in the order they are made.  The
    per-frame mapper is recorded with the image bytes it is handed. *)
Inductive event : Type :=
| EvSpawn (tid : Z) (body : thread_body)
| EvJoin (tid : Z)
| EvBcmMapper (scene : addr) (img : option (list Z))
| EvCalculateFps
| EvRenderForever (scene : addr)
| EvSleepMs (ms : Z)
| EvSleepUs (us : Z).

Record world : Type := mk_world {
  heap : gmap addr block;
  next : addr;            (* the next address [malloc] hands out *)
  trace : list event
}.

Definition empty_world : world := mk_world ∅ 1%positive [].

(** A scene as [default_scene] returns it: its geometry, and the bytes of
    its image when the library allocated one ([None]: left unset). *)
Record scene_init : Type := mk_scene_init {
  init_width : Z;
  init_height : Z;
  init_stride : Z;
  init_image : option (list Z)
}.

(** Everything the wrapper cannot decide by itself. *)
Record env : Type := mk_env {
  malloc_ok : addr → bool;          (* does the allocation at this address succeed *)
  garbage : addr → nat → Z;         (* the bytes found in a fresh block *)
  default_scene : option scene_init;(* the answer of the external initializer *)
  pthread_create_ok : bool;         (* does [pthread_create] return 0 *)
  pthread_create_leaves : Z → Z;    (* what a failing [pthread_create] leaves in
                                       [*thread], given what was there: POSIX
                                       leaves the contents undefined *)
  render_forever_returns : bool;    (* does the renderer's [render_forever]
                                       ever return *)
  update_turns : nat → nat          (* how many turns the update loop still
                                       makes before it sees its flag down, at
                                       a join made after that many calls *)
}.

(** C++ exceptions: every [throw] of the bindings is a
    [std::runtime_error] with a message. *)
Inductive exn : Type := runtime_error (msg : string).

Definition InitError : exn := runtime_error "Failed to initialize matrix wrapper".
Definition StartError : exn := runtime_error "Failed to start matrix wrapper".
Definition ShapeError : exn :=
  runtime_error "Expected 3D array with shape (height, width, 3)".
Definition DimensionMismatchError : exn :=
  runtime_error "Pixel array dimensions don't match scene dimensions".

(** ** The monad of wrapper code *)

Inductive outcome (A : Type) : Type :=
| Done (a : A) (σ : world)
| Raise (e : exn) (σ : world)
| Fault
| Hang (σ : world).
Arguments Done {A} a σ.
Arguments Raise {A} e σ.
Arguments Fault {A}.
Arguments Hang {A} σ.

Definition M (A : Type) : Type := world → outcome A.

#[global] Instance M_ret : MRet M := λ A a σ, Done a σ.

#[global] Instance M_bind : MBind M := λ A B k m σ,
  match m σ with
  | Done a σ' => k a σ'
  | Raise e σ' => Raise e σ'
  | Fault => Fault
  | Hang σ' => Hang σ'
  end.

Definition fault {A} : M A := λ _, Fault.
Definition hang {A} : M A := λ σ, Hang σ.
Definition throw {A} (e : exn) : M A := λ σ, Raise e σ.

Definition emit (e : event) : M unit :=
  λ σ, Done tt (mk_world (heap σ) (next σ) (trace σ ++ [e])).

(** [for (int i = lo; i < lo + n; i++) body(i)] *)
Fixpoint for_ (n : nat) (i : Z) (body : Z → M unit) : M unit :=
  match n with
  | O => mret tt
  | S n' => body i ;; for_ n' (i + 1) body
  end.

(** An arithmetic result of type [int]; signed overflow is undefined. *)
Definition int_op (z : Z) : M Z :=
  if decide (INT_MIN ≤ z ≤ INT_MAX) then mret z else fault.

(** *** Blocks *)

Definition load (a : addr) : M block :=
  λ σ, match heap σ !! a with
       | Some b => Done b σ
       | None => Fault
       end.

Definition store (a : addr) (b : block) : M unit :=
  λ σ, match heap σ !! a with
       | Some _ => Done tt (mk_world (<[a:=b]> (heap σ)) (next σ) (trace σ))
       | None => Fault
       end.

Definition load_wrapper (a : addr) : M matrix_wrapper_t :=
  b ← load a; match b with BWrapper w => mret w | _ => fault end.

Definition load_scene (a : addr) : M scene_info :=
  b ← load a; match b with BScene s => mret s | _ => fault end.

Definition load_bytes (a : addr) : M (list Z) :=
  b ← load a; match b with BBytes bs => mret bs | _ => fault end.

(** The library's own allocations: a block at the next address. *)
Definition alloc (b : block) : M addr :=
  λ σ, Done (next σ) (mk_world (<[next σ:=b]> (heap σ)) (Pos.succ (next σ)) (trace σ)).

(** [malloc(n)] with [n] an [int] converted to [size_t]: a negative [n]
    becomes a size no allocator grants, so the call returns [NULL]; any
    other request succeeds or not as the environment says.  The address
    counter advances in both cases. *)
Definition malloc (E : env) (n : Z) (init : addr → block) : M ptr :=
  λ σ, let a := next σ in
       if bool_decide (0 ≤ n) && malloc_ok E a
       then Done (Some a) (mk_world (<[a:=init a]> (heap σ)) (Pos.succ a) (trace σ))
       else Done NULL (mk_world (heap σ) (Pos.succ a) (trace σ)).

(** The bytes of a fresh block of [n] bytes at [a]: whatever was there. *)
Definition fresh_bytes (E : env) (n : Z) (a : addr) : block :=
  BBytes ((λ i, to_uint8 (garbage E a i)) <$> seq 0 (Z.to_nat n)).

(** [free(p)]: nothing for [NULL], undefined for a block that is not live. *)
Definition free (p : ptr) : M unit :=
  match p with
  | None => mret tt
  | Some a => λ σ,
      match heap σ !! a with
      | Some _ => Done tt (mk_world (delete a (heap σ)) (next σ) (trace σ))
      | None => Fault
      end
  end.

(** [p[i] = v] on a [uint8_t*]. *)
Definition write_byte (p : addr) (i : Z) (v : Z) : M unit :=
  bs ← load_bytes p;
  if decide (0 ≤ i < Z.of_nat (length bs))
  then store p (BBytes (<[Z.to_nat i := to_uint8 v]> bs))
  else fault.

(** [p[i]] on a [uint8_t*]. *)
Definition read_byte (bs : list Z) (i : Z) : M Z :=
  if decide (0 ≤ i)
  then match bs !! Z.to_nat i with Some v => mret v | None => fault end
  else fault.

(** [memset(p, 0, n)] *)
Definition memset0 (p : addr) (n : Z) : M unit :=
  bs ← load_bytes p;
  if decide (0 ≤ n ≤ Z.of_nat (length bs))
  then store p (BBytes (replicate (Z.to_nat n) 0 ++ drop (Z.to_nat n) bs))
  else fault.

(** [memcpy(dst, src, n)] *)
Definition memcpy (dst src : addr) (n : Z) : M unit :=
  sb ← load_bytes src;
  db ← load_bytes dst;
  if decide (0 ≤ n ≤ Z.of_nat (length sb) ∧ n ≤ Z.of_nat (length db))
  then store dst (BBytes (take (Z.to_nat n) sb ++ drop (Z.to_nat n) db))
  else fault.

(** ** [matrix_wrapper.c] *)

Definition set_scene (p : ptr) (w : matrix_wrapper_t) : matrix_wrapper_t :=
  mk_matrix_wrapper p (pixel_buffer w) (width w) (height w) (running w) (render_thread w).
Definition set_pixel_buffer (p : ptr) (w : matrix_wrapper_t) : matrix_wrapper_t :=
  mk_matrix_wrapper (scene w) p (width w) (height w) (running w) (render_thread w).
Definition set_running (b : bool) (w : matrix_wrapper_t) : matrix_wrapper_t :=
  mk_matrix_wrapper (scene w) (pixel_buffer w) (width w) (height w) b (render_thread w).
Definition set_render_thread (t : Z) (w : matrix_wrapper_t) : matrix_wrapper_t :=
  mk_matrix_wrapper (scene w) (pixel_buffer w) (width w) (height w) (running w) t.
Definition set_image (p : ptr) (s : scene_info) : scene_info :=
  mk_scene_info p (scene_width s) (scene_height s) (stride s).

(** [wrapper->field = ...] *)
Definition update_wrapper (a : addr) (f : matrix_wrapper_t → matrix_wrapper_t) : M unit :=
  w ← load_wrapper a; store a (BWrapper (f w)).

(** The block [malloc(sizeof(matrix_wrapper_t))] returns.  Its fields are
    indeterminate; each one is assigned before the wrapper reads it. *)
Definition sizeof_matrix_wrapper_t : Z := 40.
Definition uninit_wrapper : matrix_wrapper_t := mk_matrix_wrapper NULL NULL 0 0 false 0.

(** The entries of [args] that are [malloc(32)] buffers. *)
Definition arg_slots : list Z := [2; 4; 6; 8; 12; 14; 16; 18; 20; 22; 24; 26; 30].
Definition arg_count : Z := 31.

(** A [double], as far as the wrapper uses one: [gamma] is only printed
    with ["%.2f"], and the conversion is libc's, so a double is given by
    the text that format prints for it. *)
Record double : Type := mk_double { printf_2f : string }.

(** The parameters of [matrix_wrapper_create] after [width] and [height].
    A [const char*] is a string, [shader_file] may be [NULL]. *)
Record options : Type := mk_options {
  brightness : Z;
  fps : Z;
  bit_depth : Z;
  gamma : double;
  tone_mapper : string;
  panel_width : Z;
  panel_height : Z;
  pixel_order : string;
  num_ports : Z;
  num_chains : Z;
  dither_level : Z;
  motion_blur_frames : Z;
  image_mapper : string;
  shader_file : option string
}.

(** The bytes of a text, and of a C string: the bytes before the first
    NUL. *)
Definition chars (s : string) : list Z :=
  (λ c, Z.of_N (Ascii.N_of_ascii c)) <$> String.list_ascii_of_string s.

Fixpoint c_str (bs : list Z) : list Z :=
  match bs with
  | [] => []
  | b :: bs' => if decide (b = 0) then [] else b :: c_str bs'
  end.

(** What ["%d"], ["%.2f"] and ["%s"] print. *)
Definition fmt_d (z : Z) : list Z := chars (pretty z).
Definition fmt_2f (d : double) : list Z := chars (printf_2f d).
Definition fmt_s (s : string) : list Z := c_str (chars s).

(** What [snprintf(p, size, ...)] leaves in a buffer that held [bs] when
    the formatted text is [text]: at most [size - 1] bytes of the text, a
    NUL, and behind them what was there; nothing is written when [size]
    is 0. *)
Definition printed (size : nat) (text bs : list Z) : list Z :=
  match size with
  | O => bs
  | S n => let out := take n text ++ [0] in out ++ drop (length out) bs
  end.

(** [snprintf(p, size, format, ...)], with the formatted text given;
    writing behind the end of the buffer is undefined. *)
Definition snprintf (p : ptr) (size : nat) (text : list Z) : M unit :=
  match p with
  | None => if decide (size = O) then mret tt else fault
  | Some a =>
      bs ← load_bytes a;
      if decide (length (printed size text bs) = length bs)
      then store a (BBytes (printed size text bs))
      else fault
  end.

(** The thirteen texts [matrix_wrapper_create] formats, in the order of
    the slots they go to. *)
Definition arg_texts (width height : Z) (o : options) : list (list Z) :=
  [ fmt_d width;                  (* args[2],  -x *)
    fmt_d height;                 (* args[4],  -y *)
    fmt_d (panel_width o);        (* args[6],  -w *)
    fmt_d (panel_height o);       (* args[8],  -h *)
    fmt_d (fps o);                (* args[12], -f *)
    fmt_d (num_ports o);          (* args[14], -p *)
    fmt_d (num_chains o);         (* args[16], -c *)
    fmt_d (bit_depth o);          (* args[18], -d *)
    fmt_2f (gamma o);             (* args[20], -g *)
    fmt_d (brightness o);         (* args[22], -b *)
    fmt_d (dither_level o);       (* args[24], -l *)
    fmt_d (motion_blur_frames o); (* args[26], -m *)
    fmt_s (tone_mapper o) ].      (* args[30], -t *)

Fixpoint each {A} (f : A → M unit) (l : list A) : M unit :=
  match l with
  | [] => mret tt
  | x :: l' => f x ;; each f l'
  end.

Fixpoint collect {A B} (f : A → M B) (l : list A) : M (list B) :=
  match l with
  | [] => mret []
  | x :: l' => y ← f x; ys ← collect f l'; mret (y :: ys)
  end.

(** [default_scene(arg_count, args)]: the library builds the scene, and
    the image when it chooses to, in blocks of its own. *)
Definition call_default_scene (E : env) : M ptr :=
  match default_scene E with
  | None => mret NULL
  | Some i =>
      img ← match init_image i with
            | None => mret NULL
            | Some bs => a ← alloc (BBytes bs); mret (Some a)
            end;
      sa ← alloc (BScene (mk_scene_info img (init_width i) (init_height i) (init_stride i)));
      mret (Some sa)
  end.

(** The loop that frees the argument strings at the end of
    [matrix_wrapper_create]. *)
Definition free_args (args : list (Z * ptr)) : M unit :=
  for_ (Z.to_nat arg_count) 0 (λ i,
    if bool_decide (i ∈ arg_slots)
    then match snd <$> list_find (λ e, fst e = i) args with
         | Some (_, p) => free p       (* [if (args[i]) free(args[i])] *)
         | None => mret tt
         end
    else mret tt).

(** [matrix_wrapper_create].  Of its sixteen parameters only [width] and
    [height] are used by the wrapper itself; the others are formatted
    into [args], or passed in [args] as they are, for the external
    initializer, whose answer is the environment's. *)
Definition matrix_wrapper_create (E : env) (width height : Z) (o : options) : M ptr :=
  wrapper ← malloc E sizeof_matrix_wrapper_t (λ _, BWrapper uninit_wrapper);
  match wrapper with
  | None => mret NULL
  | Some wa =>
      wh ← int_op (width * height);
      n ← int_op (wh * 3);
      pb ← malloc E n (fresh_bytes E n);
      update_wrapper wa (set_pixel_buffer pb);;
      match pb with
      | None => free (Some wa);; mret NULL
      | Some _ =>
          update_wrapper wa (λ w,
            mk_matrix_wrapper (scene w) (pixel_buffer w) width height false 0);;
          bufs ← collect (λ _, malloc E 32 (fresh_bytes E 32)) arg_slots;
          each (λ '(p, text), snprintf p 32 text)
               (zip bufs (arg_texts width height o));;
          sc ← call_default_scene E;
          update_wrapper wa (set_scene sc);;
          match sc with
          | None =>
              w ← load_wrapper wa;
              free (pixel_buffer w);; free (Some wa);; mret NULL
          | Some sa =>
              s ← load_scene sa;
              ok ← match image s with
                   | Some _ => mret true
                   | None =>
                       m0 ← int_op (scene_width s * scene_height s);
                       m ← int_op (m0 * stride s);
                       img ← malloc E m (fresh_bytes E m);
                       store sa (BScene (set_image img s));;
                       match img with
                       | None =>
                           w ← load_wrapper wa;
                           free (pixel_buffer w);; free (scene w);;
                           free (Some wa);; mret false
                       | Some _ => mret true
                       end
                   end;
              if ok : bool
              then free_args (zip arg_slots bufs);; mret (Some wa)
              else mret NULL
          end
      end
  end.

(** [matrix_wrapper_destroy] *)
Definition matrix_wrapper_destroy (wrapper : ptr) : M unit :=
  match wrapper with
  | None => mret tt
  | Some wa =>
      w ← load_wrapper wa;
      free (scene w);;          (* [if (wrapper->scene) free(...)] *)
      free (pixel_buffer w);;   (* [if (wrapper->pixel_buffer) free(...)] *)
      free (Some wa)
  end.

(** The threads started so far, and the identifier of the next one
    (never [0]). *)
Definition spawned (t : list event) : list thread_body :=
  omap (λ e, match e with EvSpawn _ b => Some b | _ => None end) t.

Definition spawn (b : thread_body) : M Z :=
  λ σ, let tid := 1 + Z.of_nat (length (spawned (trace σ))) in
       Done tid (mk_world (heap σ) (next σ) (trace σ ++ [EvSpawn tid b])).

(** The threads joined so far, in the order of the joins. *)
Definition joined (t : list event) : list Z :=
  omap (λ e, match e with EvJoin tid => Some tid | _ => None end) t.

(** What the thread with a given identifier runs, when one was started. *)
Definition started (t : list event) (tid : Z) : option thread_body :=
  head (omap (λ e, match e with
                   | EvSpawn i b => if decide (i = tid) then Some b else None
                   | _ => None
                   end) t).

(** A joinable thread: started, and not joined yet. *)
Definition joinable (t : list event) (tid : Z) : option thread_body :=
  if decide (tid ∈ joined t) then None else started t tid.

(** The renderer's [render_forever(scene)]: an external loop, which the
    wrapper has no means to end. *)
Definition render_forever (E : env) (sa : addr) : M unit :=
  emit (EvRenderForever sa);;
  if render_forever_returns E then mret tt else hang.

(** [render_thread_func]: what the pthread runs. *)
Definition run_render_thread_func (E : env) (arg : ptr) : M unit :=
  match arg with
  | None => mret tt
  | Some wa =>
      w ← load_wrapper wa;
      match scene w with
      | None => mret tt
      | Some sa => emit (EvSleepUs 50000);; render_forever E sa
      end
  end.

(** [pthread_join(tid, NULL)]: waits until the thread has ended, so the
    thread runs to its end here.  Joining what is not a joinable pthread
    is undefined; the only pthreads of the program are those of
    [matrix_wrapper_start], which run [render_thread_func]. *)
Definition pthread_join (E : env) (tid : Z) : M unit :=
  λ σ, match joinable (trace σ) tid with
       | Some (render_thread_func arg) =>
           (run_render_thread_func E arg;; emit (EvJoin tid)) σ
       | _ => Fault
       end.

(** [matrix_wrapper_start] *)
Definition matrix_wrapper_start (E : env) (wrapper : ptr) : M bool :=
  match wrapper with
  | None => mret false
  | Some wa =>
      w ← load_wrapper wa;
      if running w then mret false
      else match scene w with
           | None => mret false
           | Some _ =>
               update_wrapper wa (set_running true);;
               if pthread_create_ok E
               then tid ← spawn (render_thread_func wrapper);
                    update_wrapper wa (set_render_thread tid);;
                    mret true
               else (* [pthread_create] was given [&wrapper->render_thread] *)
                    update_wrapper wa (λ w,
                      set_render_thread (pthread_create_leaves E (render_thread w)) w);;
                    update_wrapper wa (set_running false);;
                    mret false
           end
  end.

(** [matrix_wrapper_stop] *)
Definition matrix_wrapper_stop (E : env) (wrapper : ptr) : M unit :=
  match wrapper with
  | None => mret tt
  | Some wa =>
      update_wrapper wa (set_running false);;
      w ← load_wrapper wa;
      if decide (render_thread w ≠ 0)
      then pthread_join E (render_thread w);;
           update_wrapper wa (set_render_thread 0)
      else mret tt
  end.

(** [matrix_wrapper_set_pixel] *)
Definition matrix_wrapper_set_pixel (wrapper : ptr) (x y r g b : Z) : M unit :=
  match wrapper with
  | None => mret tt
  | Some wa =>
      w ← load_wrapper wa;
      match pixel_buffer w with
      | None => mret tt
      | Some pb =>
          if decide (0 ≤ x ∧ x < width w ∧ 0 ≤ y ∧ y < height w)
          then yw ← int_op (y * width w);
               i ← int_op (yw + x);
               index ← int_op (i * 3);
               write_byte pb index r;;
               i1 ← int_op (index + 1);
               write_byte pb i1 g;;
               i2 ← int_op (index + 2);
               write_byte pb i2 b
          else mret tt
      end
  end.

(** [matrix_wrapper_clear] *)
Definition matrix_wrapper_clear (wrapper : ptr) : M unit :=
  match wrapper with
  | None => mret tt
  | Some wa =>
      w ← load_wrapper wa;
      match pixel_buffer w with
      | None => mret tt
      | Some pb =>
          wh ← int_op (width w * height w);
          n ← int_op (wh * 3);
          memset0 pb n;;
          match scene w with
          | None => mret tt
          | Some sa =>
              s ← load_scene sa;
              match image s with
              | None => mret tt
              | Some im => memset0 im n
              end
          end
      end
  end.

(** [wrapper->scene->bcm_mapper(wrapper->scene, NULL)]: the renderer
    consumes the image as it is at the call. *)
Definition bcm_mapper (sa : addr) : M unit :=
  s ← load_scene sa;
  img ← match image s with
        | None => mret None
        | Some im => bs ← load_bytes im; mret (Some bs)
        end;
  emit (EvBcmMapper sa img).

(** [matrix_wrapper_update] *)
Definition matrix_wrapper_update (wrapper : ptr) : M unit :=
  match wrapper with
  | None => mret tt
  | Some wa =>
      w ← load_wrapper wa;
      if negb (running w) then mret tt
      else match scene w, pixel_buffer w with
           | Some sa, Some pb =>
               s ← load_scene sa;
               match image s with
               | None => mret tt
               | Some im =>
                   wh ← int_op (width w * height w);
                   n ← int_op (wh * 3);
                   memcpy im pb n
               end;;
               bcm_mapper sa;;
               emit EvCalculateFps
           | _, _ => mret tt
           end
  end.

(** [matrix_wrapper_render_forever] *)
Definition matrix_wrapper_render_forever (E : env) (wrapper : ptr) : M unit :=
  match wrapper with
  | None => mret tt
  | Some wa =>
      w ← load_wrapper wa;
      match scene w with
      | None => mret tt
      | Some sa => render_forever E sa
      end
  end.

Definition matrix_wrapper_get_width (wrapper : ptr) : M Z :=
  match wrapper with
  | None => mret 0
  | Some wa => w ← load_wrapper wa; mret (width w)
  end.

Definition matrix_wrapper_get_height (wrapper : ptr) : M Z :=
  match wrapper with
  | None => mret 0
  | Some wa => w ← load_wrapper wa; mret (height w)
  end.

Definition matrix_wrapper_is_running (wrapper : ptr) : M bool :=
  match wrapper with
  | None => mret false
  | Some wa => w ← load_wrapper wa; mret (running w)
  end.

(** ** [matrix_bindings.cpp] *)

(** What [set_pixels] sees of the NumPy array it is given: the shape
    ([ssize_t] entries) and the bytes behind [buf.ptr], read as a dense
    row-major array. *)
Record py_array : Type := mk_py_array {
  shape : list Z;
  data : list Z
}.

Module MatrixController.

(** The members of the class; [render_thread] is the [std::thread],
    [Some tid] while it is joinable. *)
Record t : Type := mk {
  wrapper : ptr;
  render_thread : option Z;
  running : bool
}.

(** The constructor.  A panel size of [-1] stands for the size of the
    matrix, and an empty [shader_file] is passed as [NULL]; a C++ string is
    never [NULL] itself. *)
Definition MatrixController (E : env) (width height : Z) (o : options) : M t :=
  let actual_panel_width :=
    if decide (panel_width o = -1) then width else panel_width o in
  let actual_panel_height :=
    if decide (panel_height o = -1) then height else panel_height o in
  wrapper ← matrix_wrapper_create E width height
              (mk_options (brightness o) (fps o) (bit_depth o) (gamma o)
                 (tone_mapper o) actual_panel_width actual_panel_height
                 (pixel_order o) (num_ports o) (num_chains o) (dither_level o)
                 (motion_blur_frames o) (image_mapper o)
                 (match shader_file o with
                  | Some s => if decide (s = EmptyString) then None else Some s
                  | None => None
                  end));
  match wrapper with
  | None => throw InitError
  | Some _ => mret (mk wrapper None false)
  end.

(** The defaults of the constructor's declaration. *)
Definition defaults : options :=
  mk_options 50 60 8 (mk_double "2.20") "aces" (-1) (-1) "RGB" 1 1 0 0 "u"
             (Some EmptyString).

Definition get_width (c : t) : M Z := matrix_wrapper_get_width (wrapper c).
Definition get_height (c : t) : M Z := matrix_wrapper_get_height (wrapper c).

(** [running && matrix_wrapper_is_running(wrapper)] *)
Definition is_running (c : t) : M bool :=
  if running c then matrix_wrapper_is_running (wrapper c) else mret false.

(** One turn of the loop of the thread that [start] creates:
    [while (running) { matrix_wrapper_update(wrapper); sleep_for(16ms); }].
    The result tells whether the loop goes on. *)
Definition update_loop_step (c : t) : M bool :=
  if running c
  then matrix_wrapper_update (wrapper c);;
       emit (EvSleepMs 16);;
       mret true
  else mret false.

(** [start]; assigning to a [std::thread] that is still joinable
    terminates the program. *)
Definition start (E : env) (c : t) : M t :=
  if running c then mret c
  else
    ok ← matrix_wrapper_start E (wrapper c);
    if negb ok then throw StartError
    else match render_thread c with
         | Some _ => fault
         | None =>
             tid ← spawn (update_loop (wrapper c));
             mret (mk (wrapper c) (Some tid) true)
         end.

(** The thread of [start] from some moment to its end: it makes [n] more
    turns of its loop, then finds the flag down. *)
Fixpoint update_loop_turns (c : t) (n : nat) : M unit :=
  match n with
  | O => mret tt
  | S n' =>
      go ← update_loop_step c;
      if go : bool then update_loop_turns c n' else mret tt
  end.

(** [render_thread.join()]: waits until the thread of [start] has ended,
    so the thread runs to its end here.  Its turns are those it began
    while [running] was still up. *)
Definition join (E : env) (c : t) (tid : Z) : M unit :=
  λ σ, (update_loop_turns c (update_turns E (length (trace σ)));;
        emit (EvJoin tid)) σ.

(** [stop]; [c] is the controller as [stop] finds it, with [running] up
    behind the first test. *)
Definition stop (E : env) (c : t) : M t :=
  if negb (running c) then mret c
  else
    rt ← match render_thread c with
         | Some tid => join E c tid;; mret None
         | None => mret None
         end;
    matrix_wrapper_stop E (wrapper c);;
    mret (mk (wrapper c) rt false).

(** The destructor. *)
Definition destroy (E : env) (c : t) : M unit :=
  c' ← stop E c;
  match wrapper c' with
  | None => mret tt
  | Some _ => matrix_wrapper_destroy (wrapper c')
  end.

Definition set_pixel (c : t) (x y r g b : Z) : M unit :=
  matrix_wrapper_set_pixel (wrapper c) x y r g b.

Definition clear (c : t) : M unit := matrix_wrapper_clear (wrapper c).

(** The body of the inner loop of [set_pixels]. *)
Definition copy_pixel (c : t) (ptr : list Z) (width y x : Z) : M unit :=
  yw ← int_op (y * width);
  i ← int_op (yw + x);
  src_index ← int_op (i * 3);
  r ← read_byte ptr src_index;
  i1 ← int_op (src_index + 1);
  g ← read_byte ptr i1;
  i2 ← int_op (src_index + 2);
  b ← read_byte ptr i2;
  set_pixel c x y r g b.

(** [set_pixels] *)
Definition set_pixels (c : t) (pixels : py_array) : M unit :=
  match shape pixels with
  | [s0; s1; s2] =>
      if decide (s2 ≠ 3) then throw ShapeError
      else
        let height := to_int s0 in
        let width := to_int s1 in
        w ← get_width c;
        if decide (width ≠ w) then throw DimensionMismatchError
        else
          h ← get_height c;
          if decide (height ≠ h) then throw DimensionMismatchError
          else
            for_ (Z.to_nat height) 0 (λ y,
              for_ (Z.to_nat width) 0 (λ x,
                copy_pixel c (data pixels) width y x))
  | _ => throw ShapeError
  end.

End MatrixController.

(** ** Observations used by the properties *)

(** The bytes of the block behind a pointer, when there is one. *)
Definition bytes_at (σ : world) (p : ptr) : option (list Z) :=
  a ← p; b ← heap σ !! a;
  match b with BBytes bs => Some bs | _ => None end.

(** The FrameBuffer of a session: the bytes behind [pixel_buffer]. *)
Definition frame_buffer (σ : world) (wrapper : ptr) : option (list Z) :=
  a ← wrapper; b ← heap σ !! a;
  match b with BWrapper w => bytes_at σ (pixel_buffer w) | _ => None end.

(** The HardwareImageBuffer: the bytes behind [scene->image]. *)
Definition image_buffer (σ : world) (wrapper : ptr) : option (list Z) :=
  a ← wrapper; b ← heap σ !! a;
  match b with
  | BWrapper w =>
      sa ← scene w; sb ← heap σ !! sa;
      match sb with BScene s => bytes_at σ (image s) | _ => None end
  | _ => None
  end.

(** A read of the pixel at [(x, y)] of a row-major RGB buffer of the
    given width: the triple at offset [(y * width + x) * 3]. *)
Definition read_pixel (fb : list Z) (width x y : Z) : option (Z * Z * Z) :=
  let index := Z.to_nat ((y * width + x) * 3) in
  r ← fb !! index; g ← fb !! S index; b ← fb !! S (S index);
  Some (r, g, b).

(** The positions of a [width] by [height] frame, row by row. *)
Definition positions (width height : Z) : list (Z * Z) :=
  y ← seqZ 0 height; x ← seqZ 0 width; [(x, y)].


(** ** Sessions *)

(** A live session: the handle [wa] holds the wrapper [w], whose
    FrameBuffer is the block [pb] with bytes [fb], of [width * height * 3]
    bytes, a size that fits an [int].  This is what
    [matrix_wrapper_create] returns on success. *)
Record session (σ : world) (wa : addr) (w : matrix_wrapper_t)
    (pb : addr) (fb : list Z) : Prop := mk_session {
  session_wrapper : heap σ !! wa = Some (BWrapper w);
  session_pixel_buffer : pixel_buffer w = Some pb;
  session_frame : heap σ !! pb = Some (BBytes fb);
  session_size : 0 ≤ width w * height w * 3 ≤ INT_MAX;
  session_length : Z.of_nat (length fb) = width w * height w * 3
}.

(** The session has a scene [sa] whose image is the block [im] with bytes
    [img], large enough for a frame. *)
Record session_image (σ : world) (w : matrix_wrapper_t) (pb sa : addr)
    (s : scene_info) (im : addr) (img : list Z) : Prop := mk_session_image {
  image_scene : scene w = Some sa;
  image_scene_block : heap σ !! sa = Some (BScene s);
  image_pointer : image s = Some im;
  image_block : heap σ !! im = Some (BBytes img);
  image_size : width w * height w * 3 ≤ Z.of_nat (length img);
  image_apart : im ≠ pb
}.

(** The session has no image: no scene at all, or a scene whose image is
    unset. *)
Inductive no_image (σ : world) (w : matrix_wrapper_t) : Prop :=
| no_scene : scene w = None → no_image σ w
| scene_without_image (sa : addr) (s : scene_info) :
    scene w = Some sa → heap σ !! sa = Some (BScene s) → image s = None →
    no_image σ w.

(** A session nobody has started: no thread, both run flags down, and a
    scene to render. *)
Record fresh (σ : world) (c : MatrixController.t) (wa : addr)
    (w : matrix_wrapper_t) (sa : addr) : Prop := mk_fresh {
  fresh_handle : MatrixController.wrapper c = Some wa;
  fresh_wrapper : heap σ !! wa = Some (BWrapper w);
  fresh_idle : MatrixController.running c = false;
  fresh_no_thread : MatrixController.render_thread c = None;
  fresh_wrapper_idle : running w = false;
  fresh_scene : scene w = Some sa
}.

(** The addresses of the live blocks. *)
Definition live (σ : world) : gset addr := dom (heap σ).

(** A bulk array for a [width] by [height] session: three dimensions,
    the last one 3, the others within [int], and [uint8] data for every
    position. *)
Record rgb_array (pixels : py_array) (h w : Z) : Prop := mk_rgb_array {
  array_shape : shape pixels = [h; w; 3];
  array_height : 0 ≤ h ≤ INT_MAX;
  array_width : 0 ≤ w ≤ INT_MAX;
  array_length : Z.of_nat (length (data pixels)) = h * w * 3;
  array_bytes : Forall (λ v, 0 ≤ v < 256) (data pixels)
}.

(** ** Sample environments and sessions *)

(** Every allocation succeeds, the library returns a 2 by 2 scene with
    three bytes per pixel and no image, threads can be created, the
    renderer's loop ends, and the update loop makes two more turns before
    it sees its flag down. *)
Definition E_ok : env :=
  mk_env (λ _, true) (λ _ i, 200 + Z.of_nat i)
         (Some (mk_scene_init 2 2 3 None)) true (λ t, t) true (λ _, 2%nat).

(** As [E_ok], but the external initializer refuses. *)
Definition E_null_scene : env :=
  mk_env (λ _, true) (λ _ i, 200 + Z.of_nat i) None true (λ t, t) true (λ _, 2%nat).

(** As [E_ok], but the allocation of the image fails (address 17: after
    the wrapper, the FrameBuffer, thirteen argument strings and the
    scene). *)
Definition E_no_image : env :=
  mk_env (λ a, negb (bool_decide (a = 17%positive))) (λ _ i, 200 + Z.of_nat i)
         (Some (mk_scene_init 2 2 3 None)) true (λ t, t) true (λ _, 2%nat).

(** As [E_ok], but the allocation of the FrameBuffer (address 2) fails. *)
Definition E_no_frame : env :=
  mk_env (λ a, negb (bool_decide (a = 2%positive))) (λ _ i, 200 + Z.of_nat i)
         (Some (mk_scene_init 2 2 3 None)) true (λ t, t) true (λ _, 2%nat).

(** The session [MatrixController(2, 2)] builds in [E_ok]. *)
Definition sample_controller : MatrixController.t :=
  MatrixController.mk (Some 1%positive) None false.

Definition sample_world : world :=
  Eval vm_compute in
    match MatrixController.MatrixController E_ok 2 2 MatrixController.defaults
            empty_world with
    | Done _ σ => σ
    | _ => empty_world
    end.

(** The same session after [start()]. *)
Definition started_controller : MatrixController.t :=
  MatrixController.mk (Some 1%positive) (Some 2) true.

Definition started_world : world :=
  Eval vm_compute in
    match MatrixController.start E_ok sample_controller sample_world with
    | Done _ σ => σ
    | _ => empty_world
    end.

(** The sample session after [matrix_wrapper_destroy]. *)
Definition destroyed_world : world :=
  Eval vm_compute in
    match matrix_wrapper_destroy (Some 1%positive) sample_world with
    | Done _ σ => σ
    | _ => empty_world
    end.

(** A 2 by 2 frame, and a frame of one row only. *)
Definition sample_pixels : py_array :=
  mk_py_array [2; 2; 3] [1; 2; 3; 4; 5; 6; 7; 8; 9; 10; 11; 12].

Definition short_pixels : py_array :=
  mk_py_array [1; 2; 3] [1; 2; 3; 4; 5; 6].

(** ** Further notions used by the properties *)

(** The store with the bytes of one block replaced. *)
Definition with_bytes (σ : world) (p : addr) (bs : list Z) : world :=
  mk_world (<[p:=BBytes bs]> (heap σ)) (next σ) (trace σ).

(** The allocator has handed out only addresses below [next]. *)
Definition heap_below (σ : world) : Prop :=
  ∀ a, (next σ ≤ a)%positive → heap σ !! a = None.

(** [n] consecutive addresses from [a] on. *)
Fixpoint addr_seq (a : addr) (n : nat) : list addr :=
  match n with
  | O => []
  | S n' => a :: addr_seq (Pos.succ a) n'
  end.

(** A computation keeps [P]: started where [P] holds, it ends (by
    returning or by throwing) where [P] holds, and when it never returns
    it waits where [P] holds. *)
Definition keeps {A} (P : world → Prop) (m : M A) : Prop :=
  ∀ σ, P σ →
       match m σ with
       | Done _ σ' | Raise _ σ' | Hang σ' => P σ'
       | Fault => True
       end.

(** A computation never throws. *)
Definition quiet {A} (m : M A) : Prop := ∀ σ e σ', m σ ≠ Raise e σ'.

(** The handle [wa] holds a session of the given dimensions whose
    FrameBuffer is the block [pb]. *)
Definition well_formed (wa pb : addr) (W H : Z) (σ : world) : Prop :=
  ∃ w fb, session σ wa w pb fb ∧ width w = W ∧ height w = H.

(** [σ] differs from [σ0] at most in the contents of byte blocks: the
    same trace and allocation counter, the same blocks at the same
    addresses, the same wrappers and scenes, byte blocks of the same
    sizes. *)
Definition same_but_bytes (σ0 σ : world) : Prop :=
  trace σ = trace σ0 ∧ next σ = next σ0
  ∧ ∀ a, match heap σ0 !! a, heap σ !! a with
         | Some (BBytes bs0), Some (BBytes bs) => length bs = length bs0
         | b0, b => b = b0
         end.

(** The three bytes of a pixel written at [index], each channel reduced
    to a byte. *)
Definition put_pixel (fb : list Z) (index : nat) (r g b : Z) : list Z :=
  <[S (S index):=to_uint8 b]> (<[S index:=to_uint8 g]> (<[index:=to_uint8 r]> fb)).

(** The offset of the pixel at [(x, y)] in a frame of the given width. *)
Definition pixel_index (width x y : Z) : nat := Z.to_nat ((y * width + x) * 3).

(** A second 2 by 2 frame. *)
Definition second_pixels : py_array :=
  mk_py_array [2; 2; 3] [255; 0; 0; 0; 255; 0; 0; 0; 255; 9; 9; 9].

(** As [E_ok], but no thread can be created, and the failing
    [pthread_create] leaves [-1] where the thread identifier goes. *)
Definition E_no_threads : env :=
  mk_env (λ _, true) (λ _ i, 200 + Z.of_nat i)
         (Some (mk_scene_init 2 2 3 None)) false (λ _, -1) true (λ _, 2%nat).

(** As [E_ok], but the renderer's loop never ends. *)
Definition E_endless : env :=
  mk_env (λ _, true) (λ _ i, 200 + Z.of_nat i)
         (Some (mk_scene_init 2 2 3 None)) true (λ t, t) false (λ _, 2%nat).

(** The store after [malloc(32)] at each of the given addresses, and
    after [free] of each of them. *)
Definition with_buffers (E : env) (addrs : list addr) (h : gmap addr block)
    : gmap addr block :=
  foldl (λ h a, <[a:=fresh_bytes E 32 a]> h) h addrs.

Definition without (addrs : list addr) (h : gmap addr block) : gmap addr block :=
  foldl (λ h a, delete a h) h addrs.

(** The identifiers of the threads in the trace are among those handed
    out so far. *)
Definition threads_known (σ : world) : Prop :=
  ∀ e, e ∈ trace σ →
       match e with
       | EvSpawn i _ | EvJoin i => i ≤ Z.of_nat (length (spawned (trace σ)))
       | _ => True
       end.

(** The calls of the per-frame mapper, each with the scene and the image
    it was handed, in the order of the calls; and the scenes
    [render_forever] was entered with. *)
Definition mapper_calls (t : list event) : list (addr * option (list Z)) :=
  omap (λ e, match e with EvBcmMapper sa img => Some (sa, img) | _ => None end) t.

Definition renderer_calls (t : list event) : list addr :=
  omap (λ e, match e with EvRenderForever sa => Some sa | _ => None end) t.

(** The calls of [n] turns of the update loop whose copy leaves [img] in
    the image, and the store after these turns. *)
Fixpoint turns (sa : addr) (img : list Z) (n : nat) : list event :=
  match n with
  | O => []
  | S n' => [EvBcmMapper sa (Some img); EvCalculateFps; EvSleepMs 16] ++ turns sa img n'
  end.

Definition after_turns (σ : world) (sa im : addr) (img : list Z) (n : nat) : world :=
  mk_world (match n with
            | O => heap σ
            | S _ => <[im:=BBytes img]> (heap σ)
            end)
           (next σ) (trace σ ++ turns sa img n).

(** The sample session after a frame was drawn, before and after
    [start()], and the started sample session after [stop()]. *)
Definition painted_world : world :=
  with_bytes sample_world 2%positive [1; 2; 3; 4; 5; 6; 7; 8; 9; 10; 11; 12].

Definition painted_started_world : world :=
  with_bytes started_world 2%positive [1; 2; 3; 4; 5; 6; 7; 8; 9; 10; 11; 12].

Definition stopped_controller : MatrixController.t :=
  MatrixController.mk (Some 1%positive) None false.

Definition stopped_world : world :=
  Eval vm_compute in
    match MatrixController.stop E_ok started_controller started_world with
    | Done _ σ => σ
    | _ => empty_world
    end.

(** The bytes of a fresh block, and the store after the given texts were
    printed into fresh blocks of 32 bytes at the given addresses. *)
Definition fresh_list (E : env) (n : Z) (a : addr) : list Z :=
  (λ i, to_uint8 (garbage E a i)) <$> seq 0 (Z.to_nat n).

Definition with_texts (E : env) (addrs : list addr) (texts : list (list Z))
    (h : gmap addr block) : gmap addr block :=
  foldl (λ h '(a, text), <[a:=BBytes (printed 32 text (fresh_list E 32 a))]> h)
        h (zip addrs texts).

(** An array that declares 2^32 + 2 rows of two pixels. *)
Definition tall_pixels : py_array :=
  mk_py_array [4294967298; 2; 3] [1; 2; 3; 4; 5; 6; 7; 8; 9; 10; 11; 12].

(** * Properties *)

(** ** Running wrapper code *)

Lemma world_eta σ : mk_world (heap σ) (next σ) (trace σ) = σ.
Proof. by destruct σ. Qed.

Lemma bind_run {A B} (m : M A) (k : A → M B) σ a σ' r :
  m σ = Done a σ' → k a σ' = r → (m ≫= k) σ = r.
Proof. unfold mbind, M_bind. by intros -> ->. Qed.

Lemma bind_unfold {A B} (m : M A) (k : A → M B) σ :
  (m ≫= k) σ = match m σ with
               | Done a σ' => k a σ'
               | Raise e σ' => Raise e σ'
               | Fault => Fault
               | Hang σ' => Hang σ'
               end.
Proof. reflexivity. Qed.

Lemma load_wrapper_run σ a w :
  heap σ !! a = Some (BWrapper w) → load_wrapper a σ = Done w σ.
Proof. intros H. unfold load_wrapper, load, mbind, M_bind. by rewrite H. Qed.

Lemma load_scene_run σ a s :
  heap σ !! a = Some (BScene s) → load_scene a σ = Done s σ.
Proof. intros H. unfold load_scene, load, mbind, M_bind. by rewrite H. Qed.

Lemma load_bytes_run σ a bs :
  heap σ !! a = Some (BBytes bs) → load_bytes a σ = Done bs σ.
Proof. intros H. unfold load_bytes, load, mbind, M_bind. by rewrite H. Qed.

Lemma store_run σ a b b' :
  heap σ !! a = Some b →
  store a b' σ = Done tt (mk_world (<[a:=b']> (heap σ)) (next σ) (trace σ)).
Proof. intros H. unfold store. by rewrite H. Qed.

Lemma update_wrapper_run σ a w f :
  heap σ !! a = Some (BWrapper w) →
  update_wrapper a f σ =
    Done tt (mk_world (<[a:=BWrapper (f w)]> (heap σ)) (next σ) (trace σ)).
Proof.
  intros H. unfold update_wrapper.
  eapply bind_run; [by apply load_wrapper_run|]. by eapply store_run.
Qed.

Lemma int_op_run z σ : INT_MIN ≤ z ≤ INT_MAX → int_op z σ = Done z σ.
Proof. intros H. unfold int_op. by rewrite decide_True. Qed.

Lemma write_byte_run σ p bs i v :
  heap σ !! p = Some (BBytes bs) → 0 ≤ i < Z.of_nat (length bs) →
  write_byte p i v σ =
    Done tt (mk_world (<[p:=BBytes (<[Z.to_nat i:=to_uint8 v]> bs)]> (heap σ))
                      (next σ) (trace σ)).
Proof.
  intros H Hi. unfold write_byte. eapply bind_run; [by apply load_bytes_run|].
  rewrite decide_True by done. by eapply store_run.
Qed.

Lemma read_byte_run bs i v σ :
  0 ≤ i → bs !! Z.to_nat i = Some v → read_byte bs i σ = Done v σ.
Proof. intros Hi H. unfold read_byte. rewrite decide_True by done. by rewrite H. Qed.

Lemma memset0_run σ p bs n :
  heap σ !! p = Some (BBytes bs) → 0 ≤ n ≤ Z.of_nat (length bs) →
  memset0 p n σ =
    Done tt (mk_world
               (<[p:=BBytes (replicate (Z.to_nat n) 0 ++ drop (Z.to_nat n) bs)]> (heap σ))
               (next σ) (trace σ)).
Proof.
  intros H Hn. unfold memset0. eapply bind_run; [by apply load_bytes_run|].
  rewrite decide_True by done. by eapply store_run.
Qed.

Lemma memcpy_run σ dst src db sb n :
  heap σ !! src = Some (BBytes sb) → heap σ !! dst = Some (BBytes db) →
  0 ≤ n ≤ Z.of_nat (length sb) → n ≤ Z.of_nat (length db) →
  memcpy dst src n σ =
    Done tt (mk_world
               (<[dst:=BBytes (take (Z.to_nat n) sb ++ drop (Z.to_nat n) db)]> (heap σ))
               (next σ) (trace σ)).
Proof.
  intros Hs Hd Hn Hn'. unfold memcpy.
  eapply bind_run; [by apply load_bytes_run|].
  eapply bind_run; [by apply load_bytes_run|].
  rewrite decide_True by done. by eapply store_run.
Qed.

(** The frame size of a session, computed as the wrapper does. *)
Lemma frame_size_run σ wa w pb fb (k : Z → M unit) r :
  session σ wa w pb fb →
  k (width w * height w * 3) σ = r →
  (wh ← int_op (width w * height w); n ← int_op (wh * 3); k n) σ = r.
Proof.
  intros [_ _ _ Hsz _] Hk. unfold INT_MAX in Hsz.
  eapply bind_run; [apply int_op_run; unfold INT_MIN, INT_MAX; lia|].
  eapply bind_run; [apply int_op_run; unfold INT_MIN, INT_MAX; lia|]. done.
Qed.

(** The handle, the FrameBuffer, the scene and the image of a session are
    four different blocks. *)
Lemma session_apart σ wa w pb fb : session σ wa w pb fb → wa ≠ pb.
Proof. intros [Hw _ Hf _ _] ->. congruence. Qed.

(** ** Computations that never throw *)

Lemma quiet_ret {A} (a : A) : quiet (mret a : M A).
Proof. by intros σ e σ'. Qed.

Lemma quiet_fault {A} : quiet (fault : M A).
Proof. by intros σ e σ'. Qed.

Lemma quiet_bind {A B} (m : M A) (k : A → M B) :
  quiet m → (∀ a, quiet (k a)) → quiet (m ≫= k).
Proof.
  intros Hm Hk σ e σ'. rewrite bind_unfold.
  destruct (m σ) as [a σ1|e1 σ1| |σ1] eqn:Heq; [apply Hk| |done|done].
  by destruct (Hm σ e1 σ1).
Qed.

Lemma quiet_load a : quiet (load a).
Proof. intros σ e σ'. unfold load. by destruct (heap σ !! a). Qed.

Lemma quiet_store a b : quiet (store a b).
Proof. intros σ e σ'. unfold store. by destruct (heap σ !! a). Qed.

Lemma quiet_int_op z : quiet (int_op z).
Proof. intros σ e σ'. unfold int_op. by case_decide. Qed.

Lemma quiet_read_byte bs i : quiet (read_byte bs i).
Proof.
  intros σ e σ'. unfold read_byte. case_decide; [|done].
  by destruct (bs !! Z.to_nat i).
Qed.

Lemma quiet_load_wrapper a : quiet (load_wrapper a).
Proof.
  apply quiet_bind; [apply quiet_load|].
  intros []; first [apply quiet_ret | apply quiet_fault].
Qed.

Lemma quiet_load_bytes a : quiet (load_bytes a).
Proof.
  apply quiet_bind; [apply quiet_load|].
  intros []; first [apply quiet_ret | apply quiet_fault].
Qed.

Lemma quiet_write_byte p i v : quiet (write_byte p i v).
Proof.
  apply quiet_bind; [apply quiet_load_bytes|]. intros bs.
  case_decide; [apply quiet_store|apply quiet_fault].
Qed.

Ltac quiet_step :=
  first [ apply quiet_ret | apply quiet_fault | apply quiet_int_op
        | apply quiet_read_byte | apply quiet_write_byte
        | apply quiet_load_wrapper | apply quiet_load_bytes
        | apply quiet_bind; [|intros ?] ].

(** [matrix_wrapper_set_pixel] reports nothing, whatever it is given. *)
Lemma quiet_set_pixel p x y r g b : quiet (matrix_wrapper_set_pixel p x y r g b).
Proof.
  unfold matrix_wrapper_set_pixel. destruct p as [wa|]; [|apply quiet_ret].
  quiet_step; [quiet_step|].
  destruct (pixel_buffer _); [|apply quiet_ret].
  case_decide; [|apply quiet_ret]. repeat quiet_step.
Qed.

Lemma quiet_for n i body : (∀ j, quiet (body j)) → quiet (for_ n i body).
Proof.
  intros Hbody. revert i. induction n as [|n IH]; intros i; [apply quiet_ret|].
  cbn [for_]. apply quiet_bind; [apply Hbody|]. intros _. apply IH.
Qed.

Lemma quiet_copy_pixel c ptr W y x : quiet (MatrixController.copy_pixel c ptr W y x).
Proof.
  unfold MatrixController.copy_pixel, MatrixController.set_pixel.
  repeat (apply quiet_bind; [quiet_step|intros ?]). apply quiet_set_pixel.
Qed.

(** ** Single pixels *)

(** The offset of an in-bounds pixel, and the two after it, lie in the
    FrameBuffer. *)
Lemma index_in_frame (W H x y : Z) :
  0 ≤ W * H * 3 ≤ INT_MAX → 0 ≤ x < W → 0 ≤ y < H →
  0 ≤ y * W ≤ INT_MAX ∧ 0 ≤ y * W + x ∧ (y * W + x) * 3 + 2 < W * H * 3.
Proof. unfold INT_MAX. intros. nia. Qed.

(** What [matrix_wrapper_set_pixel] does to a session at an in-bounds
    position: three bytes of the FrameBuffer are overwritten with the low
    eight bits of the channels, and nothing else changes. *)
Lemma set_pixel_in_bounds σ wa w pb fb x y r g b :
  session σ wa w pb fb → 0 ≤ x < width w → 0 ≤ y < height w →
  let index := Z.to_nat ((y * width w + x) * 3) in
  matrix_wrapper_set_pixel (Some wa) x y r g b σ =
    Done tt (mk_world
               (<[pb:=BBytes (<[S (S index):=to_uint8 b]>
                                (<[S index:=to_uint8 g]>
                                   (<[index:=to_uint8 r]> fb)))]> (heap σ))
               (next σ) (trace σ)).
Proof.
  intros Hs Hx Hy index. pose proof Hs as [Hw Hpb Hfb Hsz Hlen].
  pose proof (index_in_frame _ _ _ _ Hsz Hx Hy) as (Hyw & Hi & Hi2).
  unfold matrix_wrapper_set_pixel.
  eapply bind_run; [by apply load_wrapper_run|]. rewrite Hpb.
  rewrite decide_True by lia.
  assert (Hint : ∀ z, 0 ≤ z ≤ (y * width w + x) * 3 + 2 → INT_MIN ≤ z ≤ INT_MAX)
    by (unfold INT_MIN, INT_MAX in *; lia).
  eapply bind_run; [apply int_op_run, Hint; lia|].
  eapply bind_run; [apply int_op_run, Hint; lia|].
  eapply bind_run; [apply int_op_run, Hint; lia|].
  eapply bind_run; [apply write_byte_run; [exact Hfb|lia]|].
  eapply bind_run; [apply int_op_run, Hint; lia|].
  eapply bind_run;
    [apply write_byte_run; [apply lookup_insert_eq|rewrite length_insert; lia]|].
  eapply bind_run; [apply int_op_run, Hint; lia|].
  erewrite write_byte_run;
    [|apply lookup_insert_eq|rewrite !length_insert; lia].
  cbn [heap next trace]. rewrite !insert_insert_eq.
  replace (Z.to_nat ((y * width w + x) * 3 + 1)) with (S index) by (subst index; lia).
  replace (Z.to_nat ((y * width w + x) * 3 + 2)) with (S (S index)) by (subst index; lia).
  done.
Qed.

(** The three bytes read back after in-bounds writes at [index]. *)
Lemma lookup_triple (fb : list Z) (index : nat) (r g b : Z) :
  (S (S index) < length fb)%nat →
  let fb' := <[S (S index):=b]> (<[S index:=g]> (<[index:=r]> fb)) in
  fb' !! index = Some r ∧ fb' !! S index = Some g ∧ fb' !! S (S index) = Some b.
Proof.
  intros Hlen fb'. subst fb'. repeat split.
  - rewrite !list_lookup_insert_ne by lia. apply list_lookup_insert_eq. lia.
  - rewrite list_lookup_insert_ne by lia. apply list_lookup_insert_eq.
    rewrite length_insert. lia.
  - apply list_lookup_insert_eq. rewrite !length_insert. lia.
Qed.

Lemma frame_buffer_after_store σ wa w pb fb fb' :
  session σ wa w pb fb →
  frame_buffer (mk_world (<[pb:=BBytes fb']> (heap σ)) (next σ) (trace σ)) (Some wa)
  = Some fb'.
Proof.
  intros Hs. pose proof (session_apart _ _ _ _ _ Hs) as Hne.
  destruct Hs as [Hw Hpb _ _ _].
  unfold frame_buffer, bytes_at. cbn.
  rewrite lookup_insert_ne by done. rewrite Hw. cbn. rewrite Hpb. cbn.
  by rewrite lookup_insert_eq.
Qed.

(** The sample session is a session. *)
Lemma sample_session :
  session sample_world 1%positive
    (mk_matrix_wrapper (Some 16%positive) (Some 2%positive) 2 2 false 0)
    2%positive [200; 201; 202; 203; 204; 205; 206; 207; 208; 209; 210; 211].
Proof. split; try reflexivity. cbn. unfold INT_MAX. lia. Qed.

Lemma sample_session_image :
  session_image sample_world
    (mk_matrix_wrapper (Some 16%positive) (Some 2%positive) 2 2 false 0)
    2%positive 16%positive (mk_scene_info (Some 17%positive) 2 2 3) 17%positive
    [200; 201; 202; 203; 204; 205; 206; 207; 208; 209; 210; 211].
Proof. by split. Qed.

(** C5 (as amended): for an in-bounds position and channel values in
    0..255, SetPixel stores the triple at FrameBuffer offset
    [(y * width + x) * 3], and a read of the FrameBuffer at [(x, y)]
    returns exactly [(r, g, b)]. *)
Theorem C5_set_pixel_read_back σ c wa w pb fb x y r g b :
  MatrixController.wrapper c = Some wa →
  session σ wa w pb fb →
  0 ≤ x < width w → 0 ≤ y < height w →
  0 ≤ r < 256 → 0 ≤ g < 256 → 0 ≤ b < 256 →
  ∃ σ' fb',
    MatrixController.set_pixel c x y r g b σ = Done tt σ'
    ∧ frame_buffer σ' (Some wa) = Some fb'
    ∧ fb' !! Z.to_nat ((y * width w + x) * 3) = Some r
    ∧ fb' !! Z.to_nat ((y * width w + x) * 3 + 1) = Some g
    ∧ fb' !! Z.to_nat ((y * width w + x) * 3 + 2) = Some b
    ∧ read_pixel fb' (width w) x y = Some (r, g, b).
Proof.
  intros Hc Hs Hx Hy Hr Hg Hb.
  pose proof (index_in_frame _ _ _ _ (session_size _ _ _ _ _ Hs) Hx Hy)
    as (_ & Hi & Hi2).
  pose proof (session_length _ _ _ _ _ Hs) as Hlen.
  set (index := Z.to_nat ((y * width w + x) * 3)).
  destruct (lookup_triple fb index r g b) as (H0 & H1 & H2); [subst index; lia|].
  eexists _, _. split; [|split].
  - unfold MatrixController.set_pixel. rewrite Hc.
    by apply set_pixel_in_bounds.
  - by eapply frame_buffer_after_store.
  - unfold to_uint8. rewrite !Z.mod_small by done. fold index.
    replace (Z.to_nat ((y * width w + x) * 3 + 1)) with (S index) by (subst index; lia).
    replace (Z.to_nat ((y * width w + x) * 3 + 2)) with (S (S index)) by (subst index; lia).
    repeat split; try done.
    unfold read_pixel. fold index. by rewrite H0, H1, H2.
Qed.

Lemma C5_set_pixel_read_back_witness :
  ∃ σ' fb',
    MatrixController.set_pixel sample_controller 1 1 10 20 30 sample_world = Done tt σ'
    ∧ frame_buffer σ' (Some 1%positive) = Some fb'
    ∧ fb' !! Z.to_nat ((1 * 2 + 1) * 3) = Some 10
    ∧ fb' !! Z.to_nat ((1 * 2 + 1) * 3 + 1) = Some 20
    ∧ fb' !! Z.to_nat ((1 * 2 + 1) * 3 + 2) = Some 30
    ∧ read_pixel fb' 2 1 1 = Some (10, 20, 30).
Proof.
  apply (C5_set_pixel_read_back sample_world sample_controller 1%positive
           _ _ _ 1 1 10 20 30 eq_refl sample_session); cbn; lia.
Defined.

(** C5 as stated, for every channel value, fails: the channels are [int]s
    and the FrameBuffer holds bytes, so the red channel 300 reads back
    as 44. *)
Lemma C5_counterexample :
  ∃ σ' fb',
    MatrixController.set_pixel sample_controller 0 0 300 0 0 sample_world = Done tt σ'
    ∧ frame_buffer σ' (Some 1%positive) = Some fb'
    ∧ read_pixel fb' 2 0 0 = Some (44, 0, 0)
    ∧ read_pixel fb' 2 0 0 ≠ Some (300, 0, 0).
Proof. eexists _, _. split_and!; [vm_compute; reflexivity|reflexivity|reflexivity|done]. Qed.

(** C6: SetPixel at a position outside the frame raises nothing and
    leaves the whole store, hence every byte of the FrameBuffer, as it
    was. *)
Theorem C6_set_pixel_out_of_bounds σ c wa w x y r g b :
  MatrixController.wrapper c = Some wa →
  heap σ !! wa = Some (BWrapper w) →
  x < 0 ∨ width w ≤ x ∨ y < 0 ∨ height w ≤ y →
  MatrixController.set_pixel c x y r g b σ = Done tt σ.
Proof.
  intros Hc Hw Hxy.
  unfold MatrixController.set_pixel, matrix_wrapper_set_pixel. rewrite Hc.
  eapply bind_run; [by apply load_wrapper_run|].
  destruct (pixel_buffer w); [|done].
  by rewrite decide_False by lia.
Qed.

Lemma C6_set_pixel_out_of_bounds_witness :
  MatrixController.set_pixel sample_controller 2 0 9 9 9 sample_world
    = Done tt sample_world.
Proof.
  apply (C6_set_pixel_out_of_bounds sample_world sample_controller 1%positive
           _ 2 0 9 9 9 eq_refl (session_wrapper _ _ _ _ _ sample_session)).
  cbn. lia.
Defined.

(** C9: for an in-bounds position and any [int] channel values, the byte
    SetPixel stores for each channel is the value modulo 256. *)
Theorem C9_set_pixel_low_bits σ c wa w pb fb x y r g b :
  MatrixController.wrapper c = Some wa →
  session σ wa w pb fb →
  0 ≤ x < width w → 0 ≤ y < height w →
  ∃ σ' fb',
    MatrixController.set_pixel c x y r g b σ = Done tt σ'
    ∧ frame_buffer σ' (Some wa) = Some fb'
    ∧ fb' !! Z.to_nat ((y * width w + x) * 3) = Some (r `mod` 256)
    ∧ fb' !! Z.to_nat ((y * width w + x) * 3 + 1) = Some (g `mod` 256)
    ∧ fb' !! Z.to_nat ((y * width w + x) * 3 + 2) = Some (b `mod` 256).
Proof.
  intros Hc Hs Hx Hy.
  pose proof (index_in_frame _ _ _ _ (session_size _ _ _ _ _ Hs) Hx Hy)
    as (_ & Hi & Hi2).
  pose proof (session_length _ _ _ _ _ Hs) as Hlen.
  set (index := Z.to_nat ((y * width w + x) * 3)).
  destruct (lookup_triple fb index (to_uint8 r) (to_uint8 g) (to_uint8 b))
    as (H0 & H1 & H2); [subst index; lia|].
  eexists _, _. split; [|split].
  - unfold MatrixController.set_pixel. rewrite Hc.
    by apply set_pixel_in_bounds.
  - by eapply frame_buffer_after_store.
  - fold index.
    replace (Z.to_nat ((y * width w + x) * 3 + 1)) with (S index) by (subst index; lia).
    replace (Z.to_nat ((y * width w + x) * 3 + 2)) with (S (S index)) by (subst index; lia).
    done.
Qed.

Lemma C9_set_pixel_low_bits_witness :
  ∃ σ' fb',
    MatrixController.set_pixel sample_controller 1 0 511 (-1) 256 sample_world = Done tt σ'
    ∧ frame_buffer σ' (Some 1%positive) = Some fb'
    ∧ fb' !! Z.to_nat ((0 * 2 + 1) * 3) = Some (511 `mod` 256)
    ∧ fb' !! Z.to_nat ((0 * 2 + 1) * 3 + 1) = Some ((-1) `mod` 256)
    ∧ fb' !! Z.to_nat ((0 * 2 + 1) * 3 + 2) = Some (256 `mod` 256).
Proof.
  apply (C9_set_pixel_low_bits sample_world sample_controller 1%positive
           _ _ _ 1 0 511 (-1) 256 eq_refl sample_session); cbn; lia.
Defined.

(** C10: on a [NULL] handle every operation of the wrapper returns at
    once and leaves the store as it was; the getters return 0,
    [is_running] and [start] return false. *)
Theorem C10_null_handle (E : env) (σ : world) (x y r g b : Z) :
  matrix_wrapper_get_width NULL σ = Done 0 σ
  ∧ matrix_wrapper_get_height NULL σ = Done 0 σ
  ∧ matrix_wrapper_is_running NULL σ = Done false σ
  ∧ matrix_wrapper_set_pixel NULL x y r g b σ = Done tt σ
  ∧ matrix_wrapper_clear NULL σ = Done tt σ
  ∧ matrix_wrapper_stop E NULL σ = Done tt σ
  ∧ matrix_wrapper_destroy NULL σ = Done tt σ
  ∧ matrix_wrapper_start E NULL σ = Done false σ
  ∧ matrix_wrapper_update NULL σ = Done tt σ
  ∧ matrix_wrapper_render_forever E NULL σ = Done tt σ.
Proof. repeat split. Qed.

(** ** Clear *)

Lemma session_image_apart σ wa w pb fb sa s im img :
  session σ wa w pb fb → session_image σ w pb sa s im img →
  sa ≠ pb ∧ sa ≠ im ∧ wa ≠ im ∧ wa ≠ pb ∧ wa ≠ sa.
Proof. intros [] []. repeat split; intros ->; congruence. Qed.

(** A session stays one when its FrameBuffer is overwritten in place. *)
Lemma session_with_frame σ wa w pb fb fb' nx tr :
  session σ wa w pb fb → length fb' = length fb →
  session (mk_world (<[pb:=BBytes fb']> (heap σ)) nx tr) wa w pb fb'.
Proof.
  intros Hs Hlen. pose proof (session_apart _ _ _ _ _ Hs). destruct Hs.
  split; cbn; try done.
  - by rewrite lookup_insert_ne.
  - by rewrite lookup_insert_eq.
  - lia.
Qed.

(** What [matrix_wrapper_clear] does to a session with an image: the
    FrameBuffer becomes all zero, and so do the first
    [width * height * 3] bytes of the image. *)
Lemma clear_run σ wa w pb fb sa s im img :
  session σ wa w pb fb → session_image σ w pb sa s im img →
  matrix_wrapper_clear (Some wa) σ =
    Done tt (mk_world
               (<[im:=BBytes (replicate (length fb) 0 ++ drop (length fb) img)]>
                  (<[pb:=BBytes (replicate (length fb) 0)]> (heap σ)))
               (next σ) (trace σ)).
Proof.
  intros Hs Hi. pose proof (session_image_apart _ _ _ _ _ _ _ _ _ Hs Hi) as (? & ? & ? & ? & ?).
  pose proof Hs as [Hw Hpb Hfb Hsz Hlen]. destruct Hi as [Hsc Hsb Him Hib Hisz Hne].
  unfold matrix_wrapper_clear.
  eapply bind_run; [by apply load_wrapper_run|]. rewrite Hpb.
  eapply frame_size_run; [done|]. cbn beta.
  assert (Z.to_nat (width w * height w * 3) = length fb) as Hn by lia.
  eapply bind_run; [apply (memset0_run _ _ fb); [done|lia]|].
  rewrite Hn, drop_all, app_nil_r. rewrite Hsc.
  eapply bind_run;
    [apply (load_scene_run _ _ s); cbn; by rewrite lookup_insert_ne|].
  rewrite Him.
  erewrite (memset0_run _ _ img); [|cbn; by rewrite lookup_insert_ne|lia].
  cbn [heap next trace]. by rewrite Hn.
Qed.

(** Every pixel of an all-zero frame reads black. *)
Lemma read_pixel_zero (W H x y : Z) (n : nat) :
  Z.of_nat n = W * H * 3 → 0 ≤ W * H * 3 ≤ INT_MAX → 0 ≤ x < W → 0 ≤ y < H →
  read_pixel (replicate n 0) W x y = Some (0, 0, 0).
Proof.
  intros Hn Hsz Hx Hy.
  pose proof (index_in_frame _ _ _ _ Hsz Hx Hy) as (_ & Hi & Hi2).
  unfold read_pixel. rewrite !lookup_replicate_2 by lia. done.
Qed.

(** The same on a session without an image: only the FrameBuffer is
    there to clear. *)
Lemma clear_run_no_image σ wa w pb fb :
  session σ wa w pb fb → no_image σ w →
  matrix_wrapper_clear (Some wa) σ =
    Done tt (mk_world (<[pb:=BBytes (replicate (length fb) 0)]> (heap σ))
                      (next σ) (trace σ)).
Proof.
  intros Hs Hno. pose proof Hs as [Hw Hpb Hfb Hsz Hlen].
  assert (Z.to_nat (width w * height w * 3) = length fb) as Hn by lia.
  unfold matrix_wrapper_clear.
  eapply bind_run; [by apply load_wrapper_run|]. rewrite Hpb.
  eapply frame_size_run; [done|]. cbn beta.
  eapply bind_run; [apply (memset0_run _ _ fb); [done|lia]|].
  rewrite Hn, drop_all, app_nil_r.
  destruct Hno as [Hsc|sa s Hsc Hsb Him]; rewrite Hsc; [done|].
  assert (sa ≠ pb) by (intros ->; congruence).
  eapply bind_run;
    [apply (load_scene_run _ _ s); cbn; by rewrite lookup_insert_ne|].
  by rewrite Him.
Qed.

(** C8 (as amended): Clear, which takes no colour, fills the entire
    FrameBuffer with black, so that a read of every position returns
    (0, 0, 0); when the session has an image buffer the same call zeroes
    its first [width * height * 3] bytes; and a second Clear changes
    nothing. *)
Theorem C8_clear_fills_black σ c wa w pb fb :
  MatrixController.wrapper c = Some wa →
  session σ wa w pb fb →
  no_image σ w ∨ (∃ sa s im img, session_image σ w pb sa s im img) →
  ∃ σ',
    MatrixController.clear c σ = Done tt σ'
    ∧ frame_buffer σ' (Some wa) = Some (replicate (length fb) 0)
    ∧ (∀ x y, 0 ≤ x < width w → 0 ≤ y < height w →
         read_pixel (replicate (length fb) 0) (width w) x y = Some (0, 0, 0))
    ∧ (∀ sa s im img, session_image σ w pb sa s im img →
         image_buffer σ' (Some wa)
         = Some (replicate (length fb) 0 ++ drop (length fb) img))
    ∧ MatrixController.clear c σ' = Done tt σ'.
Proof.
  intros Hc Hs [Hno|(sa & s & im & img & Hi)].
  - pose proof (session_apart _ _ _ _ _ Hs) as Hne.
    pose proof Hs as [Hw Hpb Hfb Hsz Hlen].
    set (zs := replicate (length fb) 0).
    assert (Hzs : length zs = length fb) by apply length_replicate.
    eexists. split; [|split_and!].
    + unfold MatrixController.clear. rewrite Hc. by apply (clear_run_no_image _ _ w).
    + exact (frame_buffer_after_store _ _ _ _ _ _ Hs).
    + intros x y Hx Hy. by eapply read_pixel_zero.
    + intros sa s im img [Hsc Hsb Him _ _ _].
      destruct Hno as [Hsc'|sa' s' Hsc' Hsb' Him']; congruence.
    + unfold MatrixController.clear. rewrite Hc.
      erewrite (clear_run_no_image _ wa w pb zs).
      * cbn [heap next trace]. fold zs. by rewrite Hzs, insert_insert_eq.
      * by apply (session_with_frame _ _ _ _ fb).
      * destruct Hno as [Hsc|sa s Hsc Hsb Him]; [by left|].
        eright; [done| |done]. cbn. rewrite lookup_insert_ne; [done|].
        intros ->. congruence.
  - pose proof (session_image_apart _ _ _ _ _ _ _ _ _ Hs Hi) as (? & ? & ? & ? & ?).
    pose proof Hs as [Hw Hpb Hfb Hsz Hlen].
    pose proof Hi as [Hsc Hsb Him Hib Hisz Hne].
    set (zs := replicate (length fb) 0).
    set (img' := zs ++ drop (length fb) img).
    assert (Hzs : length zs = length fb) by apply length_replicate.
    eexists. split; [|split_and!].
    + unfold MatrixController.clear. rewrite Hc. by eapply clear_run.
    + unfold frame_buffer, bytes_at. cbn. rewrite !lookup_insert_ne by done.
      rewrite Hw. cbn. rewrite Hpb. cbn.
      rewrite lookup_insert_ne by done. by rewrite lookup_insert_eq.
    + intros x y Hx Hy. by eapply read_pixel_zero.
    + intros sa1 s1 im1 img1 [Hsc1 Hsb1 Him1 Hib1 _ _].
      assert (sa1 = sa) as -> by congruence.
      assert (s1 = s) as -> by congruence.
      assert (im1 = im) as -> by congruence.
      assert (img1 = img) as -> by congruence.
      unfold image_buffer, bytes_at. cbn. rewrite !lookup_insert_ne by done.
      rewrite Hw. cbn. rewrite Hsc. cbn. rewrite !lookup_insert_ne by done.
      rewrite Hsb. cbn. rewrite Him. cbn. by rewrite lookup_insert_eq.
    + unfold MatrixController.clear. rewrite Hc.
      erewrite (clear_run _ wa w pb zs sa s im img').
      * cbn [heap next trace]. f_equal. f_equal. rewrite Hzs. fold zs.
        assert (zs ++ drop (length fb) img' = img') as ->.
        { subst img'. rewrite <-Hzs at 1. by rewrite drop_app_length. }
        apply map_eq. intros k.
        destruct (decide (k = im)) as [->|]; [by rewrite !lookup_insert_eq|].
        rewrite !(lookup_insert_ne _ im) by done.
        destruct (decide (k = pb)) as [->|]; [by rewrite !lookup_insert_eq|].
        by rewrite !lookup_insert_ne by congruence.
      * split; cbn; try done.
        -- by rewrite !lookup_insert_ne.
        -- rewrite lookup_insert_ne by done. by rewrite lookup_insert_eq.
        -- lia.
      * split; cbn; try done.
        -- by rewrite !lookup_insert_ne.
        -- by rewrite lookup_insert_eq.
        -- subst img'. rewrite length_app, length_drop. lia.
Qed.

Lemma C8_clear_fills_black_witness :
  ∃ σ',
    MatrixController.clear sample_controller sample_world = Done tt σ'
    ∧ frame_buffer σ' (Some 1%positive) = Some (replicate 12 0)
    ∧ (∀ x y, 0 ≤ x < 2 → 0 ≤ y < 2 →
         read_pixel (replicate 12 0) 2 x y = Some (0, 0, 0))
    ∧ image_buffer σ' (Some 1%positive) = Some (replicate 12 0)
    ∧ MatrixController.clear sample_controller σ' = Done tt σ'.
Proof.
  destruct (C8_clear_fills_black sample_world sample_controller 1%positive
              _ _ _ eq_refl sample_session
              (or_intror (ex_intro _ _ (ex_intro _ _ (ex_intro _ _
                 (ex_intro _ _ sample_session_image))))))
    as (σ' & Hclear & Hfb & Hread & Himg & Hagain).
  exists σ'. split_and!; try done.
  exact (Himg _ _ _ _ sample_session_image).
Defined.

(** C8 as stated, for every colour, fails: Clear has no colour argument
    and always writes zeros, so after it the frame does not read red. *)
Lemma C8_counterexample :
  ∃ σ' fb',
    MatrixController.clear sample_controller sample_world = Done tt σ'
    ∧ frame_buffer σ' (Some 1%positive) = Some fb'
    ∧ read_pixel fb' 2 0 0 = Some (0, 0, 0)
    ∧ read_pixel fb' 2 0 0 ≠ Some (255, 0, 0).
Proof. eexists _, _. split_and!; [vm_compute; reflexivity|reflexivity|reflexivity|done]. Qed.

(** ** Start, the update loop, stop *)

Lemma spawned_snoc_spawn t tid b : spawned (t ++ [EvSpawn tid b]) = spawned t ++ [b].
Proof. unfold spawned. by rewrite omap_app. Qed.

(** [matrix_wrapper_start] on an idle wrapper with a scene, when the
    thread can be created: both the flag and the thread identifier are
    set, and one thread running [render_thread_func] is started. *)
Lemma wrapper_start_run E σ wa w sa :
  heap σ !! wa = Some (BWrapper w) → running w = false → scene w = Some sa →
  pthread_create_ok E = true →
  let tid := 1 + Z.of_nat (length (spawned (trace σ))) in
  matrix_wrapper_start E (Some wa) σ =
    Done true
      (mk_world (<[wa:=BWrapper (set_render_thread tid (set_running true w))]> (heap σ))
                (next σ)
                (trace σ ++ [EvSpawn tid (render_thread_func (Some wa))])).
Proof.
  intros Hw Hrun Hsc Hok tid. unfold matrix_wrapper_start.
  eapply bind_run; [by apply load_wrapper_run|]. rewrite Hrun, Hsc.
  eapply bind_run; [by eapply update_wrapper_run|]. rewrite Hok.
  eapply bind_run; [reflexivity|]. cbn [heap next trace].
  eapply bind_run; [eapply update_wrapper_run; cbn; apply lookup_insert_eq|].
  cbn [heap next trace]. by rewrite insert_insert_eq.
Qed.

(** [start] on a fresh session, when the thread can be created. *)
Lemma start_run E σ c wa w sa :
  fresh σ c wa w sa → pthread_create_ok E = true →
  let tid := 1 + Z.of_nat (length (spawned (trace σ))) in
  MatrixController.start E c σ =
    Done (MatrixController.mk (Some wa) (Some (tid + 1)) true)
      (mk_world (<[wa:=BWrapper (set_render_thread tid (set_running true w))]> (heap σ))
                (next σ)
                (trace σ ++ [EvSpawn tid (render_thread_func (Some wa));
                             EvSpawn (tid + 1) (update_loop (Some wa))])).
Proof.
  intros [Hc Hw Hidle Hnt Hwidle Hsc] Hok tid. unfold MatrixController.start.
  rewrite Hidle, Hc.
  eapply bind_run; [by eapply wrapper_start_run|]. cbn [negb]. rewrite Hnt.
  eapply bind_run; [reflexivity|]. cbn [heap next trace].
  rewrite spawned_snoc_spawn, length_app, <-app_assoc. cbn [length app].
  unfold mret, M_ret. subst tid.
  by replace (1 + Z.of_nat (length (spawned (trace σ)) + 1))
    with (1 + Z.of_nat (length (spawned (trace σ))) + 1) by lia.
Qed.

(** One turn of the update loop on a running session with an image: the
    FrameBuffer is copied over the start of the image, the mapper is
    called on the result, the frame counter is updated, the thread sleeps
    16 ms. *)
Lemma update_loop_step_run σ c wa w pb fb sa s im img :
  MatrixController.wrapper c = Some wa → MatrixController.running c = true →
  session σ wa w pb fb → session_image σ w pb sa s im img → running w = true →
  MatrixController.update_loop_step c σ =
    Done true
      (mk_world (<[im:=BBytes (fb ++ drop (length fb) img)]> (heap σ)) (next σ)
                (trace σ ++ [EvBcmMapper sa (Some (fb ++ drop (length fb) img));
                             EvCalculateFps; EvSleepMs 16])).
Proof.
  intros Hc Hrun Hs Hi Hwrun.
  pose proof (session_image_apart _ _ _ _ _ _ _ _ _ Hs Hi) as (? & ? & ? & ? & ?).
  pose proof Hs as [Hw Hpb Hfb Hsz Hlen]. pose proof Hi as [Hsc Hsb Him Hib Hisz Hne].
  assert (Z.to_nat (width w * height w * 3) = length fb) as Hn by lia.
  unfold MatrixController.update_loop_step. rewrite Hrun, Hc.
  eapply bind_run.
  { unfold matrix_wrapper_update.
    eapply bind_run; [by apply load_wrapper_run|]. rewrite Hwrun, Hsc, Hpb. cbn [negb].
    eapply bind_run; [by apply load_scene_run|]. rewrite Him.
    eapply bind_run.
    { eapply frame_size_run; [done|]. cbn beta.
      apply (memcpy_run _ _ _ img fb); [done|done|lia|lia]. }
    rewrite Hn, firstn_all.
    eapply bind_run.
    { unfold bcm_mapper.
      eapply bind_run;
        [apply (load_scene_run _ _ s); cbn; by rewrite lookup_insert_ne|].
      rewrite Him.
      eapply bind_run.
      { eapply bind_run; [apply load_bytes_run; cbn; apply lookup_insert_eq|].
        reflexivity. }
      reflexivity. }
    reflexivity. }
  cbn [heap next trace]. eapply bind_run; [reflexivity|].
  cbn [heap next trace]. by rewrite <-!app_assoc.
Qed.


Lemma sample_fresh :
  fresh sample_world sample_controller 1%positive
    (mk_matrix_wrapper (Some 16%positive) (Some 2%positive) 2 2 false 0) 16%positive.
Proof. by split. Qed.

Lemma sample_start :
  MatrixController.start E_ok sample_controller sample_world
  = Done started_controller started_world.
Proof. vm_compute. reflexivity. Qed.



(** C2 (as amended): on a fresh session, when the platform creates the
    thread, [start] succeeds and [is_running] becomes true; from then on,
    as long as [stop] is not called, another [start] returns without an
    error, changes nothing and starts no thread. *)
Theorem C2_start_then_start E σ c wa w sa :
  fresh σ c wa w sa → pthread_create_ok E = true →
  ∃ c' σ',
    MatrixController.start E c σ = Done c' σ'
    ∧ MatrixController.is_running c' σ' = Done true σ'
    ∧ ∀ E' σ'', MatrixController.start E' c' σ'' = Done c' σ''.
Proof.
  intros Hf Hok. eexists _, _. split; [by eapply start_run|]. split; [|done].
  unfold MatrixController.is_running, matrix_wrapper_is_running. cbn.
  eapply bind_run; [apply load_wrapper_run; cbn; apply lookup_insert_eq|]. done.
Qed.

Lemma C2_start_then_start_witness :
  ∃ c' σ',
    MatrixController.start E_ok sample_controller sample_world = Done c' σ'
    ∧ MatrixController.is_running c' σ' = Done true σ'
    ∧ ∀ E' σ'', MatrixController.start E' c' σ'' = Done c' σ''.
Proof.
  exact (C2_start_then_start E_ok sample_world sample_controller 1%positive
           _ _ sample_fresh eq_refl).
Defined.

(** C2 as stated fails: the second [start] on the started sample session
    does not throw StartError, it returns. *)
Lemma C2_counterexample :
  MatrixController.start E_ok started_controller started_world
  = Done started_controller started_world
  ∧ MatrixController.start E_ok started_controller started_world
    ≠ Raise StartError started_world.
Proof. split; [reflexivity|discriminate]. Qed.

(** *** Threads in the trace *)

Lemma spawned_app t1 t2 : spawned (t1 ++ t2) = spawned t1 ++ spawned t2.
Proof. apply omap_app. Qed.

Lemma joined_app t1 t2 : joined (t1 ++ t2) = joined t1 ++ joined t2.
Proof. apply omap_app. Qed.

Lemma mapper_calls_app t1 t2 :
  mapper_calls (t1 ++ t2) = mapper_calls t1 ++ mapper_calls t2.
Proof. apply omap_app. Qed.

Lemma renderer_calls_app t1 t2 :
  renderer_calls (t1 ++ t2) = renderer_calls t1 ++ renderer_calls t2.
Proof. apply omap_app. Qed.

(** The turns of the update loop start and join no thread and do not
    enter [render_forever]; each calls the mapper once. *)
Lemma turns_threads sa img n :
  spawned (turns sa img n) = [] ∧ joined (turns sa img n) = []
  ∧ renderer_calls (turns sa img n) = []
  ∧ mapper_calls (turns sa img n) = replicate n (sa, Some img).
Proof.
  induction n as [|n (IH1 & IH2 & IH3 & IH4)]; [done|].
  cbn [turns]. rewrite spawned_app, joined_app, renderer_calls_app, mapper_calls_app.
  rewrite IH1, IH2, IH3, IH4. done.
Qed.

(** A joinable thread stays joinable while other threads are started
    and joined. *)
Lemma joinable_app t evs tid b :
  joinable t tid = Some b → tid ∉ joined evs → joinable (t ++ evs) tid = Some b.
Proof.
  unfold joinable. intros Hj Hn. case_decide as Hin; [done|].
  rewrite decide_False by (rewrite joined_app, elem_of_app; tauto).
  unfold started in *. rewrite omap_app. by destruct (omap _ t).
Qed.

Lemma started_none t tid : (∀ b, EvSpawn tid b ∉ t) → started t tid = None.
Proof.
  intros Hnone. unfold started. destruct (omap _ t) as [|b l] eqn:Heq; [done|].
  pose proof (list_elem_of_here b l) as Hb. rewrite <-Heq in Hb.
  apply list_elem_of_omap in Hb as (e & He & Hf).
  destruct e; try done. case_decide; [|done]. simplify_eq. by destruct (Hnone b).
Qed.

Lemma joined_elem_of t tid : tid ∈ joined t ↔ EvJoin tid ∈ t.
Proof.
  unfold joined. rewrite list_elem_of_omap. split.
  - intros (e & He & Hf). destruct e; try done. by simplify_eq.
  - intros He. by exists (EvJoin tid).
Qed.

(** The thread that [matrix_wrapper_start] has just created is joinable. *)
Lemma joinable_new σ b evs :
  threads_known σ →
  let tid := 1 + Z.of_nat (length (spawned (trace σ))) in
  tid ∉ joined evs →
  joinable (trace σ ++ EvSpawn tid b :: evs) tid = Some b.
Proof.
  intros Hknown tid Hevs.
  assert (Hold : started (trace σ) tid = None ∧ tid ∉ joined (trace σ)).
  { split.
    - apply started_none. intros b' Hin. specialize (Hknown _ Hin). cbn in Hknown.
      subst tid. lia.
    - rewrite joined_elem_of. intros Hin. specialize (Hknown _ Hin). cbn in Hknown.
      subst tid. lia. }
  destruct Hold as [Hst Hnj].
  unfold joinable. rewrite joined_app, decide_False.
  - unfold started in *. rewrite omap_app.
    destruct (omap _ (trace σ)); [|done]. cbn. by rewrite decide_True.
  - rewrite elem_of_app. intros [?|?]; [done|]. by apply Hevs.
Qed.

(** *** The end of the threads *)

(** What the render thread does from its start to its end, if it ends. *)
Lemma render_thread_func_run E σ wa w sa :
  heap σ !! wa = Some (BWrapper w) → scene w = Some sa →
  run_render_thread_func E (Some wa) σ =
    let σ' := mk_world (heap σ) (next σ)
                (trace σ ++ [EvSleepUs 50000; EvRenderForever sa]) in
    if render_forever_returns E then Done tt σ' else Hang σ'.
Proof.
  intros Hw Hsc. unfold run_render_thread_func.
  eapply bind_run; [by apply load_wrapper_run|]. rewrite Hsc.
  eapply bind_run; [reflexivity|]. unfold render_forever.
  eapply bind_run; [reflexivity|]. cbn [heap next trace]. rewrite <-app_assoc.
  by destruct (render_forever_returns E).
Qed.

Lemma pthread_join_run E σ tid wa w sa :
  joinable (trace σ) tid = Some (render_thread_func (Some wa)) →
  heap σ !! wa = Some (BWrapper w) → scene w = Some sa →
  pthread_join E tid σ =
    if render_forever_returns E
    then Done tt (mk_world (heap σ) (next σ)
                    (trace σ ++ [EvSleepUs 50000; EvRenderForever sa; EvJoin tid]))
    else Hang (mk_world (heap σ) (next σ)
                 (trace σ ++ [EvSleepUs 50000; EvRenderForever sa])).
Proof.
  intros Hj Hw Hsc. unfold pthread_join. rewrite Hj, bind_unfold.
  rewrite (render_thread_func_run E σ wa w sa) by done. cbv zeta.
  destruct (render_forever_returns E); [|done].
  unfold emit. cbn [heap next trace]. by rewrite <-app_assoc.
Qed.

(** [matrix_wrapper_stop] on a live handle with a joinable render thread:
    the flag goes down and the render thread is joined, which takes as
    long as the renderer's loop. *)
Lemma wrapper_stop_run E σ wa w sa :
  heap σ !! wa = Some (BWrapper w) → scene w = Some sa → render_thread w ≠ 0 →
  joinable (trace σ) (render_thread w) = Some (render_thread_func (Some wa)) →
  matrix_wrapper_stop E (Some wa) σ =
    if render_forever_returns E
    then Done tt
           (mk_world
              (<[wa:=BWrapper (set_render_thread 0 (set_running false w))]> (heap σ))
              (next σ)
              (trace σ ++ [EvSleepUs 50000; EvRenderForever sa;
                           EvJoin (render_thread w)]))
    else Hang
           (mk_world (<[wa:=BWrapper (set_running false w)]> (heap σ)) (next σ)
              (trace σ ++ [EvSleepUs 50000; EvRenderForever sa])).
Proof.
  intros Hw Hsc Hrt Hj. unfold matrix_wrapper_stop.
  eapply bind_run; [by eapply update_wrapper_run|].
  eapply bind_run; [apply load_wrapper_run; cbn; apply lookup_insert_eq|].
  cbn [set_running render_thread]. rewrite decide_True by done.
  rewrite bind_unfold.
  rewrite (pthread_join_run E _ _ wa (set_running false w) sa);
    [|done|cbn; apply lookup_insert_eq|done].
  destruct (render_forever_returns E); [|done].
  erewrite update_wrapper_run by (cbn; apply lookup_insert_eq).
  cbn. by rewrite insert_insert_eq.
Qed.

(** The turns the update loop makes until it ends, on a running session
    with an image: every turn copies the same frame over the image and
    hands the mapper the same image. *)
Lemma update_loop_turns_run σ c wa w pb fb sa s im img n :
  MatrixController.wrapper c = Some wa → MatrixController.running c = true →
  session σ wa w pb fb → session_image σ w pb sa s im img → running w = true →
  MatrixController.update_loop_turns c n σ
  = Done tt (after_turns σ sa im (fb ++ drop (length fb) img) n).
Proof.
  intros Hc Hrun. revert σ img.
  induction n as [|n IH]; intros σ img Hs Hi Hwrun.
  - unfold after_turns. cbn. unfold mret, M_ret. by rewrite app_nil_r, world_eta.
  - pose proof (session_image_apart _ _ _ _ _ _ _ _ _ Hs Hi) as (? & ? & ? & ? & ?).
    cbn [MatrixController.update_loop_turns].
    eapply bind_run; [by eapply update_loop_step_run|].
    set (frame := fb ++ drop (length fb) img).
    rewrite (IH _ frame).
    + unfold after_turns. cbn [heap next trace turns].
      assert (fb ++ drop (length fb) frame = frame) as ->.
      { subst frame. by rewrite drop_app_length. }
      rewrite <-app_assoc. cbn [app]. f_equal. f_equal.
      destruct n; [done|]. by rewrite insert_insert_eq.
    + pose proof (image_apart _ _ _ _ _ _ _ Hi). destruct Hs.
      split; cbn; try done; rewrite lookup_insert_ne by congruence; done.
    + destruct Hi. split; cbn; try done.
      * by rewrite lookup_insert_ne by congruence.
      * apply lookup_insert_eq.
      * subst frame. rewrite length_app, length_drop. lia.
    + done.
Qed.

(** [stop] on a running controller whose session has an image and whose
    render thread is joinable: the update loop makes its last turns and
    is joined, the wrapper's flag goes down, and the render thread is
    joined, which takes as long as the renderer's loop. *)
Lemma stop_run E σ c wa w pb fb sa s im img tu :
  MatrixController.wrapper c = Some wa → MatrixController.running c = true →
  MatrixController.render_thread c = Some tu →
  session σ wa w pb fb → session_image σ w pb sa s im img → running w = true →
  render_thread w ≠ 0 → tu ≠ render_thread w →
  joinable (trace σ) (render_thread w) = Some (render_thread_func (Some wa)) →
  let σ1 := after_turns σ sa im (fb ++ drop (length fb) img)
              (update_turns E (length (trace σ))) in
  MatrixController.stop E c σ =
    if render_forever_returns E
    then Done (MatrixController.mk (Some wa) None false)
           (mk_world
              (<[wa:=BWrapper (set_render_thread 0 (set_running false w))]> (heap σ1))
              (next σ)
              (trace σ1 ++ [EvJoin tu; EvSleepUs 50000; EvRenderForever sa;
                            EvJoin (render_thread w)]))
    else Hang
           (mk_world (<[wa:=BWrapper (set_running false w)]> (heap σ1)) (next σ)
              (trace σ1 ++ [EvJoin tu; EvSleepUs 50000; EvRenderForever sa])).
Proof.
  intros Hc Hrun Ht Hs Hi Hwrun Hrt Hne Hj σ1.
  pose proof (session_image_apart _ _ _ _ _ _ _ _ _ Hs Hi) as (? & ? & ? & ? & ?).
  pose proof Hs as [Hw _ _ _ _]. pose proof Hi as [Hsc _ _ _ _ _].
  unfold MatrixController.stop. rewrite Hrun, Ht, Hc. cbn [negb].
  set (σ2 := mk_world (heap σ1) (next σ) (trace σ1 ++ [EvJoin tu])).
  assert (Hjoin : MatrixController.join E c tu σ = Done tt σ2).
  { unfold MatrixController.join.
    eapply bind_run; [by eapply update_loop_turns_run|]. reflexivity. }
  assert (Hw2 : heap σ2 !! wa = Some (BWrapper w)).
  { subst σ2 σ1. unfold after_turns. cbn.
    destruct (update_turns E _); [done|]. by rewrite lookup_insert_ne. }
  assert (Hj2 : joinable (trace σ2) (render_thread w)
                = Some (render_thread_func (Some wa))).
  { subst σ2 σ1. unfold after_turns. cbn [trace]. rewrite <-app_assoc.
    apply joinable_app; [done|]. rewrite joined_app.
    destruct (turns_threads sa (fb ++ drop (length fb) img)
                (update_turns E (length (trace σ)))) as (_ & -> & _).
    cbn. rewrite list_elem_of_singleton. congruence. }
  pose proof (wrapper_stop_run E σ2 wa w sa Hw2 Hsc Hrt Hj2) as Hstop.
  rewrite bind_unfold. rewrite bind_unfold, Hjoin. cbn [mret M_ret].
  rewrite bind_unfold, Hstop.
  destruct (render_forever_returns E); subst σ2; cbn [heap next trace];
    by rewrite <-app_assoc.
Qed.

Lemma bind_done {A B} (m : M A) (k : A → M B) σ b σ' :
  (m ≫= k) σ = Done b σ' → ∃ a σ1, m σ = Done a σ1 ∧ k a σ1 = Done b σ'.
Proof.
  rewrite bind_unfold. destruct (m σ) as [a σ1| | |]; [|done..]. by exists a, σ1.
Qed.

(** *** Teardown throws nothing *)

Lemma quiet_hang {A} : quiet (hang : M A).
Proof. by intros σ e σ'. Qed.

Lemma quiet_emit e : quiet (emit e).
Proof. by intros σ e' σ'. Qed.

Lemma quiet_load_scene a : quiet (load_scene a).
Proof.
  apply quiet_bind; [apply quiet_load|].
  intros []; first [apply quiet_ret | apply quiet_fault].
Qed.

Lemma quiet_update_wrapper a f : quiet (update_wrapper a f).
Proof. apply quiet_bind; [apply quiet_load_wrapper|]. intros w. apply quiet_store. Qed.

Lemma quiet_memcpy dst src n : quiet (memcpy dst src n).
Proof.
  repeat (apply quiet_bind; [apply quiet_load_bytes|intros ?]).
  case_decide; [apply quiet_store|apply quiet_fault].
Qed.

Lemma quiet_free p : quiet (free p).
Proof.
  destruct p as [a|]; [|apply quiet_ret].
  intros σ e σ'. cbn. by destruct (heap σ !! a).
Qed.

Ltac quiet_all :=
  repeat first
    [ apply quiet_ret | apply quiet_fault | apply quiet_hang | apply quiet_int_op
    | apply quiet_emit | apply quiet_load_wrapper | apply quiet_load_scene
    | apply quiet_load_bytes | apply quiet_update_wrapper | apply quiet_memcpy
    | apply quiet_free
    | apply quiet_bind; [|intros ?]
    | match goal with
      | |- quiet (match ?x with _ => _ end) => destruct x
      end ].

Lemma quiet_wrapper_update p : quiet (matrix_wrapper_update p).
Proof. unfold matrix_wrapper_update, bcm_mapper. quiet_all. Qed.

Lemma quiet_update_loop_turns c n : quiet (MatrixController.update_loop_turns c n).
Proof.
  induction n as [|n IH]; [apply quiet_ret|].
  cbn [MatrixController.update_loop_turns]. apply quiet_bind.
  - unfold MatrixController.update_loop_step.
    destruct (MatrixController.running c); [|apply quiet_ret].
    apply quiet_bind; [apply quiet_wrapper_update|]. intros _. quiet_all.
  - intros []; [apply IH|apply quiet_ret].
Qed.

Lemma quiet_pthread_join E tid : quiet (pthread_join E tid).
Proof.
  intros σ e σ'. unfold pthread_join.
  destruct (joinable (trace σ) tid) as [[arg|?]|]; [|done..].
  revert σ e σ'. change (quiet (run_render_thread_func E arg;; emit (EvJoin tid))).
  unfold run_render_thread_func, render_forever. quiet_all.
Qed.

Lemma quiet_wrapper_stop E p : quiet (matrix_wrapper_stop E p).
Proof.
  unfold matrix_wrapper_stop. destruct p as [wa|]; [|apply quiet_ret].
  apply quiet_bind; [apply quiet_update_wrapper|]. intros _.
  apply quiet_bind; [apply quiet_load_wrapper|]. intros w.
  case_decide; [|apply quiet_ret].
  apply quiet_bind; [apply quiet_pthread_join|]. intros _. apply quiet_update_wrapper.
Qed.

Lemma quiet_stop E c : quiet (MatrixController.stop E c).
Proof.
  unfold MatrixController.stop.
  destruct (MatrixController.running c); cbn [negb]; [|apply quiet_ret].
  apply quiet_bind.
  - destruct (MatrixController.render_thread c) as [tid|]; [|apply quiet_ret].
    apply quiet_bind; [|intros _; apply quiet_ret].
    intros σ e σ'. unfold MatrixController.join. revert e σ'.
    apply (quiet_bind (MatrixController.update_loop_turns c _)
             (λ _, emit (EvJoin tid))).
    + apply quiet_update_loop_turns.
    + intros _. apply quiet_emit.
  - intros rt. apply quiet_bind; [apply quiet_wrapper_stop|]. intros _. apply quiet_ret.
Qed.

Lemma quiet_wrapper_destroy p : quiet (matrix_wrapper_destroy p).
Proof. unfold matrix_wrapper_destroy. quiet_all. Qed.

Lemma quiet_destroy E c : quiet (MatrixController.destroy E c).
Proof.
  unfold MatrixController.destroy.
  apply quiet_bind; [apply quiet_stop|]. intros c'.
  destruct (MatrixController.wrapper c'); [apply quiet_wrapper_destroy|apply quiet_ret].
Qed.

(** C3 (as amended): teardown throws no error; [stop] on a session that
    is not running returns at once and changes nothing; after [stop] has
    returned [is_running] is false, and one more [stop] changes nothing;
    and [matrix_wrapper_destroy] on a null handle is a no-op. *)
Theorem C3_teardown E σ c :
  (MatrixController.running c = false → MatrixController.stop E c σ = Done c σ)
  ∧ (∀ c' σ',
       MatrixController.stop E c σ = Done c' σ' →
       MatrixController.is_running c' σ' = Done false σ'
       ∧ MatrixController.stop E c' σ' = Done c' σ')
  ∧ matrix_wrapper_destroy NULL σ = Done tt σ
  ∧ (∀ e σ', MatrixController.stop E c σ ≠ Raise e σ')
  ∧ (∀ e σ', MatrixController.destroy E c σ ≠ Raise e σ').
Proof.
  split_and!.
  - intros Hrun. unfold MatrixController.stop. by rewrite Hrun.
  - intros c' σ' Hstop.
    assert (MatrixController.running c' = false) as Hrun'.
    { unfold MatrixController.stop in Hstop.
      destruct (MatrixController.running c) eqn:Hrun; cbn [negb] in Hstop.
      - apply bind_done in Hstop as (rt & σ1 & _ & Hstop).
        apply bind_done in Hstop as ([] & σ2 & _ & Hstop).
        by injection Hstop as <- _.
      - by injection Hstop as <- _. }
    unfold MatrixController.is_running, MatrixController.stop. by rewrite Hrun'.
  - done.
  - apply quiet_stop.
  - apply quiet_destroy.
Qed.

Lemma C3_teardown_witness :
  MatrixController.stop E_ok started_controller started_world
  = Done stopped_controller stopped_world
  ∧ MatrixController.is_running stopped_controller stopped_world
    = Done false stopped_world
  ∧ MatrixController.stop E_ok stopped_controller stopped_world
    = Done stopped_controller stopped_world.
Proof.
  assert (MatrixController.stop E_ok started_controller started_world
          = Done stopped_controller stopped_world) as Hstop
    by (vm_compute; reflexivity).
  split; [exact Hstop|].
  exact (proj1 (proj2 (C3_teardown E_ok started_world started_controller)) _ _ Hstop).
Defined.

(** C3 as stated fails for a handle that was destroyed before: the second
    [matrix_wrapper_destroy] reads the freed wrapper, which is undefined
    behaviour, not a no-op. *)
Lemma C3_counterexample :
  matrix_wrapper_destroy (Some 1%positive) sample_world = Done tt destroyed_world
  ∧ matrix_wrapper_destroy (Some 1%positive) destroyed_world = Fault.
Proof. split; vm_compute; reflexivity. Qed.

(** ** Construction *)

Lemma sample_create :
  MatrixController.MatrixController E_ok 2 2 MatrixController.defaults empty_world
  = Done sample_controller sample_world
  ∧ live sample_world = {[1; 2; 16; 17]}%positive.
Proof. split; vm_compute; reflexivity. Qed.

(** C4, evaluated on three failing constructions of a 2 by 2 session.
    When the FrameBuffer cannot be allocated, InitError is thrown and
    nothing stays allocated.  When the external initializer returns null,
    or when the image cannot be allocated, InitError is thrown while the
    thirteen argument strings (blocks 3 to 15) are still allocated: only
    the path that succeeds frees them. *)
Theorem C4_failed_create_keeps_argument_strings :
  (∃ σ', MatrixController.MatrixController E_no_frame 2 2
           MatrixController.defaults empty_world
         = Raise InitError σ'
         ∧ live σ' = ∅)
  ∧ (∃ σ', MatrixController.MatrixController E_null_scene 2 2
             MatrixController.defaults empty_world
           = Raise InitError σ'
           ∧ live σ' = {[3; 4; 5; 6; 7; 8; 9; 10; 11; 12; 13; 14; 15]}%positive
           ∧ size (live σ') = 13%nat)
  ∧ (∃ σ', MatrixController.MatrixController E_no_image 2 2
             MatrixController.defaults empty_world
           = Raise InitError σ'
           ∧ live σ' = {[3; 4; 5; 6; 7; 8; 9; 10; 11; 12; 13; 14; 15]}%positive
           ∧ size (live σ') = 13%nat).
Proof.
  split_and!; eexists; split_and!;
    try (vm_compute; reflexivity); vm_compute; reflexivity.
Qed.

(** ** Bulk writes *)

Lemma to_int_small z : INT_MIN ≤ z ≤ INT_MAX → to_int z = z.
Proof. unfold INT_MIN, INT_MAX, to_int. intros. rewrite Z.mod_small; lia. Qed.






(** A loop whose body keeps an invariant runs to its end and keeps it. *)
Lemma for_invariant (P : Z → world → Prop) (n : nat) (i : Z) (body : Z → M unit) σ :
  P i σ →
  (∀ j σ1, i ≤ j < i + Z.of_nat n → P j σ1 →
           ∃ σ2, body j σ1 = Done tt σ2 ∧ P (j + 1) σ2) →
  ∃ σ', for_ n i body σ = Done tt σ' ∧ P (i + Z.of_nat n) σ'.
Proof.
  revert i σ. induction n as [|n IH]; intros i σ HP Hbody.
  - exists σ. split; [done|]. by rewrite Z.add_0_r.
  - destruct (Hbody i σ) as (σ1 & Hrun & HP1); [lia|done|].
    destruct (IH (i + 1) σ1 HP1) as (σ' & Hrest & HP').
    { intros j σ2 Hj. apply Hbody. lia. }
    exists σ'. split.
    + cbn [for_]. by eapply bind_run.
    + by replace (i + Z.of_nat (S n)) with (i + 1 + Z.of_nat n) by lia.
Qed.

Lemma elem_of_positions (W H x y : Z) :
  (x, y) ∈ positions W H → 0 ≤ x < W ∧ 0 ≤ y < H.
Proof.
  unfold positions. rewrite list_elem_of_bind. intros (y' & Hx & Hy).
  apply list_elem_of_bind in Hx as (x' & Hxy & Hx).
  apply list_elem_of_singleton in Hxy as [= -> ->].
  apply elem_of_seqZ in Hx, Hy. lia.
Qed.

(** Writing the next byte of [d] over a buffer that already starts with
    the first [k] bytes of [d]. *)
Lemma overwrite_next (d l : list Z) (k : nat) (v : Z) :
  length d = length l → d !! k = Some v →
  <[k:=v]> (take k d ++ drop k l) = take (S k) d ++ drop (S k) l.
Proof.
  intros Hlen Hk. pose proof (lookup_lt_Some _ _ _ Hk) as Hlt.
  destruct (lookup_lt_is_Some_2 l k) as [u Hu]; [lia|].
  rewrite insert_app_r_alt by (rewrite length_take; lia).
  rewrite length_take, Nat.min_l, Nat.sub_diag by lia.
  rewrite (drop_S l u k Hu). cbn [list_insert].
  rewrite (take_S_r d k v Hk). by rewrite <-app_assoc.
Qed.

(** In a well-formed array every in-bounds position holds a triple. *)
Lemma array_triple pixels H W x y :
  rgb_array pixels H W → 0 ≤ W * H * 3 ≤ INT_MAX → 0 ≤ x < W → 0 ≤ y < H →
  ∃ r g b,
    data pixels !! Z.to_nat ((y * W + x) * 3) = Some r
    ∧ data pixels !! S (Z.to_nat ((y * W + x) * 3)) = Some g
    ∧ data pixels !! S (S (Z.to_nat ((y * W + x) * 3))) = Some b
    ∧ to_uint8 r = r ∧ to_uint8 g = g ∧ to_uint8 b = b.
Proof.
  intros [_ _ _ Hlen Hbytes] Hsz Hx Hy.
  pose proof (index_in_frame _ _ _ _ Hsz Hx Hy) as (_ & Hi & Hi2).
  set (k := Z.to_nat ((y * W + x) * 3)).
  destruct (lookup_lt_is_Some_2 (data pixels) k) as [r Hr]; [subst k; lia|].
  destruct (lookup_lt_is_Some_2 (data pixels) (S k)) as [g Hg]; [subst k; lia|].
  destruct (lookup_lt_is_Some_2 (data pixels) (S (S k))) as [b Hb]; [subst k; lia|].
  exists r, g, b. rewrite Forall_lookup in Hbytes. unfold to_uint8.
  split_and!; try done; apply Z.mod_small; eauto.
Qed.

(** On a well-formed array the body of the loops of [set_pixels] is one
    SetPixel with the triple the array holds at the position. *)
Lemma copy_pixel_read_pixel c pixels H W x y σ :
  rgb_array pixels H W → 0 ≤ W * H * 3 ≤ INT_MAX → 0 ≤ x < W → 0 ≤ y < H →
  MatrixController.copy_pixel c (data pixels) W y x σ
  = match read_pixel (data pixels) W x y with
    | Some (r, g, b) => MatrixController.set_pixel c x y r g b σ
    | None => Fault
    end.
Proof.
  intros Ha Hsz Hx Hy.
  destruct (array_triple _ _ _ _ _ Ha Hsz Hx Hy) as (r & g & b & Hr & Hg & Hb & _).
  pose proof (index_in_frame _ _ _ _ Hsz Hx Hy) as (Hyw & Hi & Hi2).
  assert (Hint : ∀ z, 0 ≤ z ≤ (y * W + x) * 3 + 2 → INT_MIN ≤ z ≤ INT_MAX)
    by (unfold INT_MIN, INT_MAX in *; lia).
  unfold read_pixel. rewrite Hr, Hg, Hb. cbn.
  unfold MatrixController.copy_pixel.
  eapply bind_run; [apply int_op_run, Hint; lia|].
  eapply bind_run; [apply int_op_run, Hint; lia|].
  eapply bind_run; [apply int_op_run, Hint; lia|].
  eapply bind_run; [by apply read_byte_run; [lia|]|].
  eapply bind_run; [apply int_op_run, Hint; lia|].
  eapply bind_run.
  { apply (read_byte_run _ _ g); [lia|].
    by replace (Z.to_nat ((y * W + x) * 3 + 1))
      with (S (Z.to_nat ((y * W + x) * 3))) by lia. }
  eapply bind_run; [apply int_op_run, Hint; lia|].
  eapply bind_run.
  { apply (read_byte_run _ _ b); [lia|].
    by replace (Z.to_nat ((y * W + x) * 3 + 2))
      with (S (S (Z.to_nat ((y * W + x) * 3)))) by lia. }
  done.
Qed.

Lemma session_frame_buffer σ wa w pb fb :
  session σ wa w pb fb → frame_buffer σ (Some wa) = Some fb.
Proof.
  intros [Hw Hpb Hfb _ _]. unfold frame_buffer, bytes_at. cbn.
  rewrite Hw. cbn. rewrite Hpb. cbn. by rewrite Hfb.
Qed.


Lemma get_width_run σ c wa w :
  MatrixController.wrapper c = Some wa → heap σ !! wa = Some (BWrapper w) →
  MatrixController.get_width c σ = Done (width w) σ.
Proof.
  intros Hc Hw. unfold MatrixController.get_width, matrix_wrapper_get_width.
  rewrite Hc. eapply bind_run; [by apply load_wrapper_run|]. done.
Qed.

Lemma get_height_run σ c wa w :
  MatrixController.wrapper c = Some wa → heap σ !! wa = Some (BWrapper w) →
  MatrixController.get_height c σ = Done (height w) σ.
Proof.
  intros Hc Hw. unfold MatrixController.get_height, matrix_wrapper_get_height.
  rewrite Hc. eapply bind_run; [by apply load_wrapper_run|]. done.
Qed.

(** The two checks of [set_pixels] on a three-dimensional RGB array whose
    dimensions fit an [int]. *)
Lemma set_pixels_checks σ c wa w pixels h wd :
  MatrixController.wrapper c = Some wa → heap σ !! wa = Some (BWrapper w) →
  shape pixels = [h; wd; 3] → 0 ≤ h ≤ INT_MAX → 0 ≤ wd ≤ INT_MAX →
  MatrixController.set_pixels c pixels σ =
    if decide (wd = width w ∧ h = height w)
    then for_ (Z.to_nat h) 0 (λ y,
           for_ (Z.to_nat wd) 0 (λ x,
             MatrixController.copy_pixel c (data pixels) wd y x)) σ
    else Raise DimensionMismatchError σ.
Proof.
  intros Hc Hw Hshape Hh Hwd.
  unfold MatrixController.set_pixels. rewrite Hshape.
  rewrite decide_False by (intros Hne; by apply Hne). cbv zeta.
  rewrite !to_int_small by (unfold INT_MIN, INT_MAX in *; lia).
  eapply bind_run; [by eapply get_width_run|].
  destruct (decide (wd ≠ width w)) as [Hne|Heq].
  { rewrite decide_False by (intros []; done). done. }
  apply dec_stable in Heq.
  eapply bind_run; [by eapply get_height_run|].
  destruct (decide (h ≠ height w)) as [Hne|Heq'].
  { rewrite decide_False by (intros []; done). done. }
  apply dec_stable in Heq'. by rewrite decide_True.
Qed.


Lemma sample_pixels_rgb : rgb_array sample_pixels 2 2.
Proof.
  split; try done; unfold INT_MAX; try lia.
  cbn. repeat (constructor; [lia|]). constructor.
Qed.




(** * Further properties of the wrapper and of the bindings *)

(** ** More on single pixels *)

Lemma with_bytes_twice σ p bs1 bs2 :
  with_bytes (with_bytes σ p bs1) p bs2 = with_bytes σ p bs2.
Proof. unfold with_bytes. cbn. by rewrite insert_insert_eq. Qed.

Lemma with_bytes_same σ p bs :
  heap σ !! p = Some (BBytes bs) → with_bytes σ p bs = σ.
Proof. intros H. unfold with_bytes. rewrite insert_id by done. apply world_eta. Qed.

Lemma session_with_bytes σ wa w pb fb fb' :
  session σ wa w pb fb → length fb' = length fb →
  session (with_bytes σ pb fb') wa w pb fb'.
Proof. apply session_with_frame. Qed.

Lemma length_put_pixel fb i r g b : length (put_pixel fb i r g b) = length fb.
Proof. unfold put_pixel. by rewrite !length_insert. Qed.

Lemma lookup_put_pixel_other fb i r g b (j : nat) :
  j ≠ i → j ≠ S i → j ≠ S (S i) → put_pixel fb i r g b !! j = fb !! j.
Proof. intros. unfold put_pixel. by rewrite !list_lookup_insert_ne by done. Qed.

(** In-bounds pixels lie inside the frame, three bytes apart. *)
Lemma pixel_index_bound (W H x y : Z) :
  0 ≤ W * H * 3 ≤ INT_MAX → 0 ≤ x < W → 0 ≤ y < H →
  (S (S (pixel_index W x y)) < Z.to_nat (W * H * 3))%nat.
Proof.
  intros Hsz Hx Hy. destruct (index_in_frame _ _ _ _ Hsz Hx Hy) as (_ & ? & ?).
  unfold pixel_index. lia.
Qed.

Lemma pixel_index_apart (W x y x' y' : Z) :
  0 ≤ x < W → 0 ≤ x' < W → 0 ≤ y → 0 ≤ y' → (x, y) ≠ (x', y') →
  (pixel_index W x y + 3 ≤ pixel_index W x' y'
   ∨ pixel_index W x' y' + 3 ≤ pixel_index W x y)%nat.
Proof.
  intros Hx Hx' Hy Hy' Hne. unfold pixel_index.
  assert (y * W + x ≠ y' * W + x') as Hk.
  { intros Heq. apply Hne.
    assert (y = y') as -> by nia. f_equal. lia. }
  assert (0 ≤ y * W + x) by nia. assert (0 ≤ y' * W + x') by nia. lia.
Qed.

(** The state after an in-bounds [matrix_wrapper_set_pixel]. *)
Lemma set_pixel_state σ wa w pb fb x y r g b :
  session σ wa w pb fb → 0 ≤ x < width w → 0 ≤ y < height w →
  matrix_wrapper_set_pixel (Some wa) x y r g b σ
  = Done tt (with_bytes σ pb (put_pixel fb (pixel_index (width w) x y) r g b)).
Proof. apply set_pixel_in_bounds. Qed.

(** X1: an in-bounds SetPixel changes the pixel it is given and nothing
    else: every other in-bounds pixel reads as before, the FrameBuffer
    keeps its size, and no other block, nor the trace, changes. *)
Theorem set_pixel_leaves_other_pixels σ c wa w pb fb x y r g b :
  MatrixController.wrapper c = Some wa →
  session σ wa w pb fb → 0 ≤ x < width w → 0 ≤ y < height w →
  ∃ σ' fb',
    MatrixController.set_pixel c x y r g b σ = Done tt σ'
    ∧ frame_buffer σ' (Some wa) = Some fb'
    ∧ length fb' = length fb
    ∧ (∀ x' y', 0 ≤ x' < width w → 0 ≤ y' < height w → (x', y') ≠ (x, y) →
         read_pixel fb' (width w) x' y' = read_pixel fb (width w) x' y')
    ∧ (∀ a, a ≠ pb → heap σ' !! a = heap σ !! a)
    ∧ trace σ' = trace σ ∧ next σ' = next σ.
Proof.
  intros Hc Hs Hx Hy. eexists _, _. split; [|split_and!].
  - unfold MatrixController.set_pixel. rewrite Hc. by apply set_pixel_state.
  - apply session_frame_buffer with (w := w) (pb := pb).
    apply (session_with_bytes _ _ _ _ fb); [done|]. apply length_put_pixel.
  - apply length_put_pixel.
  - intros x' y' Hx' Hy' Hne.
    destruct (pixel_index_apart (width w) x' y' x y) as [Hlt|Hlt]; try done; try lia.
    + unfold read_pixel. fold (pixel_index (width w) x' y').
      by rewrite !lookup_put_pixel_other by lia.
    + unfold read_pixel. fold (pixel_index (width w) x' y').
      by rewrite !lookup_put_pixel_other by lia.
  - intros a Ha. cbn. by rewrite lookup_insert_ne.
  - done.
  - done.
Qed.

Lemma set_pixel_leaves_other_pixels_witness :
  ∃ σ' fb',
    MatrixController.set_pixel sample_controller 1 0 9 8 7 sample_world = Done tt σ'
    ∧ frame_buffer σ' (Some 1%positive) = Some fb'
    ∧ read_pixel fb' 2 0 1 = Some (206, 207, 208)
    ∧ trace σ' = [].
Proof.
  destruct (set_pixel_leaves_other_pixels sample_world sample_controller
              1%positive _ _ _ 1 0 9 8 7 eq_refl sample_session)
    as (σ' & fb' & Hrun & Hfb & _ & Hother & _ & Htr & _); [cbn; lia..|].
  exists σ', fb'. split_and!; [done|done| |done].
  rewrite Hother; [done|cbn; lia|cbn; lia|done].
Defined.

Ltac by_lookups :=
  apply list_eq; intros ?; unfold put_pixel;
  rewrite ?list_lookup_insert, ?length_insert;
  repeat case_decide; first [done | lia | exfalso; lia].

Lemma put_pixel_overwrite fb i r1 g1 b1 r2 g2 b2 :
  put_pixel (put_pixel fb i r1 g1 b1) i r2 g2 b2 = put_pixel fb i r2 g2 b2.
Proof. by_lookups. Qed.

Lemma put_pixel_commute fb i j r1 g1 b1 r2 g2 b2 :
  (i + 3 ≤ j ∨ j + 3 ≤ i)%nat →
  put_pixel (put_pixel fb i r1 g1 b1) j r2 g2 b2
  = put_pixel (put_pixel fb j r2 g2 b2) i r1 g1 b1.
Proof. intros Hij. by_lookups. Qed.

(** Outside the frame [matrix_wrapper_set_pixel] returns at once. *)
Lemma set_pixel_outside σ wa w x y r g b :
  heap σ !! wa = Some (BWrapper w) →
  ¬ (0 ≤ x ∧ x < width w ∧ 0 ≤ y ∧ y < height w) →
  matrix_wrapper_set_pixel (Some wa) x y r g b σ = Done tt σ.
Proof.
  intros Hw Hxy. unfold matrix_wrapper_set_pixel.
  eapply bind_run; [by apply load_wrapper_run|].
  destruct (pixel_buffer w); [|done]. by rewrite decide_False.
Qed.

(** X2: two SetPixel calls at the same position: the last one wins, the
    state is the one the second call alone produces. *)
Theorem set_pixel_last_write_wins σ c wa w pb fb x y r1 g1 b1 r2 g2 b2 :
  MatrixController.wrapper c = Some wa → session σ wa w pb fb →
  (MatrixController.set_pixel c x y r1 g1 b1 ;;
   MatrixController.set_pixel c x y r2 g2 b2) σ
  = MatrixController.set_pixel c x y r2 g2 b2 σ.
Proof.
  intros Hc Hs. unfold MatrixController.set_pixel. rewrite Hc.
  destruct (decide (0 ≤ x ∧ x < width w ∧ 0 ≤ y ∧ y < height w)) as [Hin|Hout].
  - eapply bind_run; [apply (set_pixel_state _ _ w pb fb); [done|lia|lia]|].
    rewrite (set_pixel_state _ _ w pb (put_pixel fb (pixel_index (width w) x y) r1 g1 b1));
      [|apply (session_with_bytes _ _ _ _ fb); [done|apply length_put_pixel]|lia|lia].
    rewrite (set_pixel_state _ _ w pb fb) by (done || lia).
    by rewrite with_bytes_twice, put_pixel_overwrite.
  - pose proof (session_wrapper _ _ _ _ _ Hs) as Hw.
    eapply bind_run; [by apply (set_pixel_outside _ _ w)|]. done.
Qed.

Lemma set_pixel_last_write_wins_witness :
  (MatrixController.set_pixel sample_controller 1 1 1 2 3 ;;
   MatrixController.set_pixel sample_controller 1 1 4 5 6) sample_world
  = MatrixController.set_pixel sample_controller 1 1 4 5 6 sample_world.
Proof.
  exact (set_pixel_last_write_wins sample_world sample_controller 1%positive
           _ _ _ 1 1 1 2 3 4 5 6 eq_refl sample_session).
Defined.

(** X3: SetPixel calls at two different positions can be made in either
    order. *)
Theorem set_pixel_commute σ c wa w pb fb x y r g b x' y' r' g' b' :
  MatrixController.wrapper c = Some wa → session σ wa w pb fb →
  (x, y) ≠ (x', y') →
  (MatrixController.set_pixel c x y r g b ;;
   MatrixController.set_pixel c x' y' r' g' b') σ
  = (MatrixController.set_pixel c x' y' r' g' b' ;;
     MatrixController.set_pixel c x y r g b) σ.
Proof.
  intros Hc Hs Hne. unfold MatrixController.set_pixel. rewrite Hc.
  pose proof (session_wrapper _ _ _ _ _ Hs) as Hw.
  assert (Hstay : ∀ fb1, length fb1 = length fb →
            heap (with_bytes σ pb fb1) !! wa = Some (BWrapper w)).
  { intros fb1 Hlen. by apply (session_wrapper _ _ _ pb fb1), (session_with_bytes _ _ _ _ fb). }
  destruct (decide (0 ≤ x ∧ x < width w ∧ 0 ≤ y ∧ y < height w)) as [Hin|Hout];
    destruct (decide (0 ≤ x' ∧ x' < width w ∧ 0 ≤ y' ∧ y' < height w)) as [Hin'|Hout'].
  - eapply bind_run; [apply (set_pixel_state _ _ w pb fb); [done|lia|lia]|].
    rewrite (set_pixel_state _ _ w pb (put_pixel fb (pixel_index (width w) x y) r g b));
      [|apply (session_with_bytes _ _ _ _ fb); [done|apply length_put_pixel]|lia|lia].
    symmetry.
    eapply bind_run; [apply (set_pixel_state _ _ w pb fb); [done|lia|lia]|].
    rewrite (set_pixel_state _ _ w pb (put_pixel fb (pixel_index (width w) x' y') r' g' b'));
      [|apply (session_with_bytes _ _ _ _ fb); [done|apply length_put_pixel]|lia|lia].
    rewrite !with_bytes_twice. do 2 f_equal.
    apply put_pixel_commute.
    destruct (pixel_index_apart (width w) x' y' x y) as [?|?]; try done; try lia.
  - eapply bind_run; [apply (set_pixel_state _ _ w pb fb); [done|lia|lia]|].
    rewrite (set_pixel_outside _ _ w) by (auto using length_put_pixel).
    symmetry. eapply bind_run; [by apply (set_pixel_outside _ _ w)|].
    by apply set_pixel_state; [|lia|lia].
  - eapply bind_run; [by apply (set_pixel_outside _ _ w)|].
    rewrite (set_pixel_state _ _ w pb fb) by (done || lia).
    symmetry. eapply bind_run; [apply (set_pixel_state _ _ w pb fb); [done|lia|lia]|].
    by rewrite (set_pixel_outside _ _ w) by (auto using length_put_pixel).
  - eapply bind_run; [by apply (set_pixel_outside _ _ w)|].
    rewrite (set_pixel_outside _ _ w) by done.
    symmetry. eapply bind_run; [by apply (set_pixel_outside _ _ w)|].
    by rewrite (set_pixel_outside _ _ w).
Qed.

Lemma set_pixel_commute_witness :
  (MatrixController.set_pixel sample_controller 0 0 1 2 3 ;;
   MatrixController.set_pixel sample_controller 1 0 4 5 6) sample_world
  = (MatrixController.set_pixel sample_controller 1 0 4 5 6 ;;
     MatrixController.set_pixel sample_controller 0 0 1 2 3) sample_world.
Proof.
  apply (set_pixel_commute sample_world sample_controller 1%positive
           _ _ _ 0 0 1 2 3 1 0 4 5 6 eq_refl sample_session).
  done.
Defined.

(** ** Clear after drawing *)

Lemma session_image_with_bytes σ wa w pb fb fb' sa s im img :
  session σ wa w pb fb → session_image σ w pb sa s im img →
  session_image (with_bytes σ pb fb') w pb sa s im img.
Proof.
  intros Hs Hi.
  pose proof (session_image_apart _ _ _ _ _ _ _ _ _ Hs Hi) as (? & ? & ? & ? & ?).
  destruct Hi. split; cbn; try done; by rewrite lookup_insert_ne.
Qed.

Lemma no_image_with_bytes σ wa w pb fb fb' :
  session σ wa w pb fb → no_image σ w → no_image (with_bytes σ pb fb') w.
Proof.
  intros Hs [Hsc|sa s Hsc Hsb Him]; [by left|].
  eright; [done| |done]. cbn. rewrite lookup_insert_ne; [done|].
  intros ->. destruct Hs. congruence.
Qed.

(** [matrix_wrapper_clear] does not look at the bytes of the
    FrameBuffer. *)
Lemma clear_with_bytes σ wa w pb fb fb' :
  session σ wa w pb fb →
  no_image σ w ∨ (∃ sa s im img, session_image σ w pb sa s im img) →
  length fb' = length fb →
  matrix_wrapper_clear (Some wa) (with_bytes σ pb fb')
  = matrix_wrapper_clear (Some wa) σ.
Proof.
  intros Hs Himg Hlen.
  pose proof (session_with_bytes _ _ _ _ _ fb' Hs Hlen) as Hs'.
  destruct Himg as [Hno|(sa & s & im & img & Hi)].
  - rewrite (clear_run_no_image _ _ w pb fb') by eauto using no_image_with_bytes.
    rewrite (clear_run_no_image _ _ w pb fb) by done.
    cbn. by rewrite insert_insert_eq, Hlen.
  - rewrite (clear_run _ _ w pb fb' sa s im img)
      by eauto using session_image_with_bytes.
    rewrite (clear_run _ _ w pb fb sa s im img) by done.
    cbn. by rewrite insert_insert_eq, Hlen.
Qed.

(** X4: Clear forgets what was drawn: a SetPixel followed by Clear ends
    in the state Clear alone ends in. *)
Theorem clear_erases_set_pixel σ c wa w pb fb x y r g b :
  MatrixController.wrapper c = Some wa → session σ wa w pb fb →
  no_image σ w ∨ (∃ sa s im img, session_image σ w pb sa s im img) →
  (MatrixController.set_pixel c x y r g b ;; MatrixController.clear c) σ
  = MatrixController.clear c σ.
Proof.
  intros Hc Hs Himg. unfold MatrixController.set_pixel, MatrixController.clear.
  rewrite Hc.
  destruct (decide (0 ≤ x ∧ x < width w ∧ 0 ≤ y ∧ y < height w)) as [Hin|Hout].
  - eapply bind_run; [apply (set_pixel_state _ _ w pb fb); [done|lia|lia]|].
    apply (clear_with_bytes _ _ w pb fb); [done|done|apply length_put_pixel].
  - eapply bind_run; [|done].
    apply (set_pixel_outside _ _ w); [by destruct Hs|done].
Qed.

Lemma clear_erases_set_pixel_witness :
  (MatrixController.set_pixel sample_controller 1 1 9 9 9 ;;
   MatrixController.clear sample_controller) sample_world
  = MatrixController.clear sample_controller sample_world.
Proof.
  exact (clear_erases_set_pixel sample_world sample_controller 1%positive
           _ _ _ 1 1 9 9 9 eq_refl sample_session
           (or_intror (ex_intro _ _ (ex_intro _ _ (ex_intro _ _
              (ex_intro _ _ sample_session_image)))))).
Defined.

(** ** More on bulk writes *)

(** One pass of the inner loop body of [set_pixels], as a state. *)
Lemma copy_pixel_state σ c wa w pb fb pixels x y :
  MatrixController.wrapper c = Some wa → session σ wa w pb fb →
  rgb_array pixels (height w) (width w) →
  0 ≤ x < width w → 0 ≤ y < height w →
  let k := pixel_index (width w) x y in
  MatrixController.copy_pixel c (data pixels) (width w) y x
    (with_bytes σ pb (take k (data pixels) ++ drop k fb))
  = Done tt (with_bytes σ pb (take (S (S (S k))) (data pixels) ++ drop (S (S (S k))) fb)).
Proof.
  intros Hc Hs Ha Hx Hy k.
  pose proof (session_size _ _ _ _ _ Hs) as Hsz.
  assert (Hlen : length fb = length (data pixels)).
  { destruct Hs, Ha. lia. }
  destruct (array_triple _ _ _ _ _ Ha Hsz Hx Hy)
    as (r & g & b & Hr & Hg & Hb & Hr8 & Hg8 & Hb8).
  fold (pixel_index (width w) x y) in Hr, Hg, Hb. fold k in Hr, Hg, Hb.
  rewrite (copy_pixel_read_pixel _ _ _ _ _ _ _ Ha Hsz Hx Hy).
  unfold read_pixel. fold (pixel_index (width w) x y). fold k.
  rewrite Hr, Hg, Hb. cbn.
  unfold MatrixController.set_pixel. rewrite Hc.
  rewrite (set_pixel_state _ _ w pb (take k (data pixels) ++ drop k fb)); [|
    apply (session_with_bytes _ _ _ _ fb); [done|];
    rewrite !length_app, !length_take, !length_drop; lia |done|done].
  rewrite with_bytes_twice. fold k. unfold put_pixel.
  rewrite Hr8, Hg8, Hb8.
  by rewrite (overwrite_next _ _ k r), (overwrite_next _ _ (S k) g),
    (overwrite_next _ _ (S (S k)) b) by done.
Qed.

(** The state after [set_pixels] with an array of the session's
    dimensions. *)
Lemma set_pixels_state σ c wa w pb fb pixels :
  MatrixController.wrapper c = Some wa → session σ wa w pb fb →
  rgb_array pixels (height w) (width w) →
  MatrixController.set_pixels c pixels σ
  = Done tt (with_bytes σ pb (data pixels)).
Proof.
  intros Hc Hs Ha. pose proof Ha as [Hshape Hh Hwd Halen Hbytes].
  pose proof Hs as [Hw Hpb Hfb Hsz Hlen].
  rewrite (set_pixels_checks σ c wa w pixels (height w) (width w)) by done.
  rewrite decide_True by done.
  set (copied := λ (k : Z) σ',
         σ' = with_bytes σ pb (take (Z.to_nat k) (data pixels) ++ drop (Z.to_nat k) fb)).
  destruct (for_invariant (λ y, copied (y * width w * 3)) (Z.to_nat (height w)) 0
              (λ y, for_ (Z.to_nat (width w)) 0
                      (λ x, MatrixController.copy_pixel c (data pixels) (width w) y x))
              σ) as (σ' & Hrun & Hend).
  { unfold copied. cbn. by rewrite with_bytes_same. }
  { intros y σ1 Hy Hrow.
    destruct (for_invariant (λ x, copied ((y * width w + x) * 3))
                (Z.to_nat (width w)) 0
                (λ x, MatrixController.copy_pixel c (data pixels) (width w) y x) σ1)
      as (σ2 & Hrun2 & Hend2).
    - unfold copied in *. by rewrite Z.add_0_r.
    - intros x σ2 Hx Hcell. unfold copied in *. subst σ2.
      eexists. split.
      + apply (copy_pixel_state σ c wa w pb fb pixels x y); [done|done|done|lia|lia].
      + unfold pixel_index.
        by replace (Z.to_nat ((y * width w + (x + 1)) * 3))
          with (S (S (S (Z.to_nat ((y * width w + x) * 3))))) by nia.
    - exists σ2. split; [done|]. unfold copied in *.
      by replace ((y + 1) * width w * 3)
        with ((y * width w + (0 + Z.of_nat (Z.to_nat (width w)))) * 3) by lia. }
  rewrite Hrun. unfold copied in Hend. rewrite Hend. do 2 f_equal.
  rewrite take_ge, drop_ge by lia. by rewrite app_nil_r.
Qed.

(** X5: SetPixels with an array of the session's dimensions touches the
    FrameBuffer only: afterwards the FrameBuffer holds the array, and
    every other block (the image buffer, the wrapper, the scene), the
    trace and the allocation counter are as before. *)
Theorem set_pixels_replaces_frame σ c wa w pb fb pixels :
  MatrixController.wrapper c = Some wa → session σ wa w pb fb →
  rgb_array pixels (height w) (width w) →
  ∃ σ',
    MatrixController.set_pixels c pixels σ = Done tt σ'
    ∧ frame_buffer σ' (Some wa) = Some (data pixels)
    ∧ (∀ a, a ≠ pb → heap σ' !! a = heap σ !! a)
    ∧ trace σ' = trace σ ∧ next σ' = next σ.
Proof.
  intros Hc Hs Ha. eexists. split; [by eapply set_pixels_state|].
  split_and!; try done.
  - apply (session_frame_buffer _ _ w pb), (session_with_bytes _ _ _ _ fb); [done|].
    destruct Hs, Ha. lia.
  - intros a Hne. cbn. by rewrite lookup_insert_ne.
Qed.

Lemma set_pixels_replaces_frame_witness :
  ∃ σ',
    MatrixController.set_pixels sample_controller sample_pixels sample_world
    = Done tt σ'
    ∧ frame_buffer σ' (Some 1%positive) = Some [1; 2; 3; 4; 5; 6; 7; 8; 9; 10; 11; 12]
    ∧ heap σ' !! 17%positive = heap sample_world !! 17%positive
    ∧ trace σ' = [].
Proof.
  destruct (set_pixels_replaces_frame sample_world sample_controller 1%positive
              _ _ _ sample_pixels eq_refl sample_session sample_pixels_rgb)
    as (σ' & Hrun & Hfb & Hother & Htr & _).
  exists σ'. split_and!; [done|done| |done].
  by apply Hother.
Defined.

Lemma second_pixels_rgb : rgb_array second_pixels 2 2.
Proof.
  split; try done; unfold INT_MAX; try lia.
  cbn. repeat (constructor; [lia|]). constructor.
Qed.

(** X6: of two frames pushed one after the other only the last one
    counts. *)
Theorem set_pixels_last_frame_wins σ c wa w pb fb pixels1 pixels2 :
  MatrixController.wrapper c = Some wa → session σ wa w pb fb →
  rgb_array pixels1 (height w) (width w) →
  rgb_array pixels2 (height w) (width w) →
  (MatrixController.set_pixels c pixels1 ;;
   MatrixController.set_pixels c pixels2) σ
  = MatrixController.set_pixels c pixels2 σ.
Proof.
  intros Hc Hs Ha1 Ha2.
  assert (Hlen : length (data pixels1) = length fb).
  { destruct Hs, Ha1. lia. }
  eapply bind_run; [by apply (set_pixels_state _ _ wa w pb fb)|].
  rewrite (set_pixels_state _ _ wa w pb (data pixels1));
    [|done|by apply (session_with_bytes _ _ _ _ fb)|done].
  rewrite (set_pixels_state _ _ wa w pb fb) by done.
  by rewrite with_bytes_twice.
Qed.

Lemma set_pixels_last_frame_wins_witness :
  (MatrixController.set_pixels sample_controller sample_pixels ;;
   MatrixController.set_pixels sample_controller second_pixels) sample_world
  = MatrixController.set_pixels sample_controller second_pixels sample_world.
Proof.
  exact (set_pixels_last_frame_wins sample_world sample_controller 1%positive
           _ _ _ sample_pixels second_pixels eq_refl sample_session
           sample_pixels_rgb second_pixels_rgb).
Defined.

Lemma started_session :
  session started_world 1%positive
    (mk_matrix_wrapper (Some 16%positive) (Some 2%positive) 2 2 true 1)
    2%positive [200; 201; 202; 203; 204; 205; 206; 207; 208; 209; 210; 211].
Proof. split; try reflexivity. cbn. unfold INT_MAX. lia. Qed.

Lemma started_session_image :
  session_image started_world
    (mk_matrix_wrapper (Some 16%positive) (Some 2%positive) 2 2 true 1)
    2%positive 16%positive (mk_scene_info (Some 17%positive) 2 2 3) 17%positive
    [200; 201; 202; 203; 204; 205; 206; 207; 208; 209; 210; 211].
Proof. by split. Qed.

Lemma image_buffer_after_store σ wa w pb fb sa s im img bs nx tr :
  session σ wa w pb fb → session_image σ w pb sa s im img →
  image_buffer (mk_world (<[im:=BBytes bs]> (heap σ)) nx tr) (Some wa) = Some bs.
Proof.
  intros Hs Hi.
  pose proof (session_image_apart _ _ _ _ _ _ _ _ _ Hs Hi) as (? & ? & ? & ? & ?).
  destruct Hs as [Hw _ _ _ _], Hi as [Hsc Hsb Him _ _ _].
  unfold image_buffer, bytes_at. cbn. rewrite lookup_insert_ne by done.
  rewrite Hw. cbn. rewrite Hsc. cbn. rewrite lookup_insert_ne by done.
  rewrite Hsb. cbn. rewrite Him. cbn. by rewrite lookup_insert_eq.
Qed.

(** X7: a frame pushed with SetPixels is the frame the renderer is
    handed at the next turn of the update loop: the mapper is called on
    an image that starts with the bytes of the array. *)
Theorem set_pixels_reaches_mapper σ c wa w pb fb sa s im img pixels :
  MatrixController.wrapper c = Some wa → MatrixController.running c = true →
  session σ wa w pb fb → session_image σ w pb sa s im img → running w = true →
  rgb_array pixels (height w) (width w) →
  ∃ σ',
    (MatrixController.set_pixels c pixels ;;
     MatrixController.update_loop_step c) σ = Done true σ'
    ∧ image_buffer σ' (Some wa)
      = Some (data pixels ++ drop (length (data pixels)) img)
    ∧ trace σ'
      = trace σ ++ [EvBcmMapper sa
                      (Some (data pixels ++ drop (length (data pixels)) img));
                    EvCalculateFps; EvSleepMs 16].
Proof.
  intros Hc Hrun Hs Hi Hwrun Ha.
  assert (Hlen : length (data pixels) = length fb).
  { destruct Hs, Ha. lia. }
  pose proof (session_with_bytes _ _ _ _ _ (data pixels) Hs Hlen) as Hs'.
  pose proof (session_image_with_bytes _ _ _ _ _ (data pixels) _ _ _ _ Hs Hi) as Hi'.
  pose proof (session_image_apart _ _ _ _ _ _ _ _ _ Hs' Hi') as (? & ? & ? & ? & ?).
  eexists. split; [|split].
  - eapply bind_run; [by apply (set_pixels_state _ _ wa w pb fb)|].
    by apply (update_loop_step_run _ _ wa w pb (data pixels) sa s im img).
  - by apply (image_buffer_after_store _ _ w pb (data pixels) sa s im img).
  - done.
Qed.

Lemma set_pixels_reaches_mapper_witness :
  ∃ σ',
    (MatrixController.set_pixels started_controller sample_pixels ;;
     MatrixController.update_loop_step started_controller) started_world
    = Done true σ'
    ∧ image_buffer σ' (Some 1%positive)
      = Some [1; 2; 3; 4; 5; 6; 7; 8; 9; 10; 11; 12].
Proof.
  destruct (set_pixels_reaches_mapper started_world started_controller 1%positive
              _ _ _ _ _ _ _ sample_pixels eq_refl eq_refl
              started_session started_session_image eq_refl sample_pixels_rgb)
    as (σ' & Hrun & Himg & _).
  exists σ'. split; [exact Hrun|exact Himg].
Defined.

(** The getters read and change nothing. *)
Lemma get_width_reads c σ :
  match MatrixController.get_width c σ with
  | Done _ σ' => σ' = σ
  | Raise _ _ | Hang _ => False
  | Fault => True
  end.
Proof.
  unfold MatrixController.get_width, matrix_wrapper_get_width.
  destruct (MatrixController.wrapper c) as [wa|]; [|done].
  unfold load_wrapper, load. rewrite !bind_unfold.
  by destruct (heap σ !! wa) as [[]|].
Qed.

Lemma get_height_reads c σ :
  match MatrixController.get_height c σ with
  | Done _ σ' => σ' = σ
  | Raise _ _ | Hang _ => False
  | Fault => True
  end.
Proof.
  unfold MatrixController.get_height, matrix_wrapper_get_height.
  destruct (MatrixController.wrapper c) as [wa|]; [|done].
  unfold load_wrapper, load. rewrite !bind_unfold.
  by destruct (heap σ !! wa) as [[]|].
Qed.

(** X8: SetPixels throws before it writes.  Whatever the array and the
    state, when SetPixels ends with an exception the store is exactly as
    it was, and the exception is one of the two shape errors: once the
    copy has begun nothing is thrown any more. *)
Theorem set_pixels_throws_before_writing c pixels σ e σ' :
  MatrixController.set_pixels c pixels σ = Raise e σ' →
  σ' = σ ∧ (e = ShapeError ∨ e = DimensionMismatchError).
Proof.
  unfold MatrixController.set_pixels.
  destruct (shape pixels) as [|s0 [|s1 [|s2 [|]]]];
    try (intros [= <- <-]; by auto).
  case_decide; [intros [= <- <-]; by auto|]. cbv zeta.
  rewrite bind_unfold. pose proof (get_width_reads c σ) as Hgw.
  destruct (MatrixController.get_width c σ) as [gw σ1|?| |?]; [subst σ1|done|done|done].
  case_decide; [intros [= <- <-]; by auto|].
  rewrite bind_unfold. pose proof (get_height_reads c σ) as Hgh.
  destruct (MatrixController.get_height c σ) as [gh σ1|?| |?]; [subst σ1|done|done|done].
  case_decide; [intros [= <- <-]; by auto|].
  intros Hloop. exfalso. revert Hloop.
  apply quiet_for. intros y. apply quiet_for. intros x. apply quiet_copy_pixel.
Qed.

Lemma set_pixels_throws_before_writing_witness :
  sample_world = sample_world
  ∧ (DimensionMismatchError = ShapeError
     ∨ DimensionMismatchError = DimensionMismatchError).
Proof.
  apply (set_pixels_throws_before_writing sample_controller short_pixels
           sample_world DimensionMismatchError sample_world).
  vm_compute. reflexivity.
Defined.

(** ** More on start and stop *)

(** [matrix_wrapper_start] declines, and leaves the store alone, when the
    wrapper is running already or has no scene. *)
Lemma wrapper_start_declines E σ wa w :
  heap σ !! wa = Some (BWrapper w) → running w = true ∨ scene w = None →
  matrix_wrapper_start E (Some wa) σ = Done false σ.
Proof.
  intros Hw Hwhy. unfold matrix_wrapper_start.
  eapply bind_run; [by apply load_wrapper_run|].
  destruct (running w) eqn:Hrun; [done|].
  destruct (scene w) as [sa|] eqn:Hsc; [|done]. by destruct Hwhy.
Qed.

(** When [pthread_create] fails the flag is taken down again, but the
    thread identifier is what the failed call has left in it. *)
Lemma wrapper_start_fails E σ wa w :
  heap σ !! wa = Some (BWrapper w) → running w = false → is_Some (scene w) →
  pthread_create_ok E = false →
  matrix_wrapper_start E (Some wa) σ =
    Done false
      (mk_world
         (<[wa:=BWrapper (set_render_thread
                            (pthread_create_leaves E (render_thread w)) w)]> (heap σ))
         (next σ) (trace σ)).
Proof.
  intros Hw Hrun [sa Hsc] Hok. unfold matrix_wrapper_start.
  eapply bind_run; [by apply load_wrapper_run|]. rewrite Hrun, Hsc, Hok.
  eapply bind_run; [by eapply update_wrapper_run|].
  eapply bind_run; [eapply update_wrapper_run; cbn; apply lookup_insert_eq|].
  eapply bind_run; [eapply update_wrapper_run; cbn; apply lookup_insert_eq|].
  cbn. rewrite !insert_insert_eq. unfold mret, M_ret. do 3 f_equal.
  unfold set_render_thread. cbn. by rewrite Hrun.
Qed.

(** X9: [matrix_wrapper_start] on a live handle always returns; it
    returns true exactly when the wrapper was idle, has a scene, and the
    thread could be created, and then exactly one thread, running
    [render_thread_func], has been started and the wrapper is marked
    running.  When it declines without calling [pthread_create] the store
    is exactly as before.  When [pthread_create] fails, the run flag is
    down again, but the thread identifier of the wrapper is whatever the
    failed call left in it; nothing else has changed. *)
Theorem wrapper_start_outcome E σ wa w :
  heap σ !! wa = Some (BWrapper w) →
  ∃ ok σ',
    matrix_wrapper_start E (Some wa) σ = Done ok σ'
    ∧ (ok = true ↔
       running w = false ∧ is_Some (scene w) ∧ pthread_create_ok E = true)
    ∧ (running w = true ∨ scene w = None → σ' = σ)
    ∧ (running w = false → is_Some (scene w) → pthread_create_ok E = false →
       σ' = mk_world
              (<[wa:=BWrapper (set_render_thread
                                 (pthread_create_leaves E (render_thread w)) w)]>
                 (heap σ))
              (next σ) (trace σ))
    ∧ (ok = true →
       spawned (trace σ') = spawned (trace σ) ++ [render_thread_func (Some wa)]
       ∧ ∃ w', heap σ' !! wa = Some (BWrapper w')
               ∧ running w' = true ∧ render_thread w' ≠ 0).
Proof.
  intros Hw.
  destruct (running w) eqn:Hrun;
    [|destruct (scene w) as [sa|] eqn:Hsc;
      [destruct (pthread_create_ok E) eqn:Hok|]].
  - exists false, σ. split; [apply (wrapper_start_declines _ _ _ w); auto|].
    split_and!; [|done|done|done]. split; [done|]. by intros (? & _).
  - eexists true, _. split; [by eapply wrapper_start_run|].
    split_and!; [|by intros [|]|done|].
    { split; [|done]. intros _. by split_and!. }
    intros _. cbn. split; [apply spawned_snoc_spawn|].
    eexists. split; [apply lookup_insert_eq|]. cbn. split; [done|lia].
  - eexists false, _. split; [by apply wrapper_start_fails|].
    split_and!; [|by intros [|]|done|done]. split; [done|]. by intros (_ & _ & ?).
  - exists false, σ. split; [apply (wrapper_start_declines _ _ _ w); auto|].
    split_and!; [|done|by intros _ []|done]. split; [done|]. by intros (_ & [? ?] & _).
Qed.

Lemma wrapper_start_outcome_witness :
  ∃ σ',
    matrix_wrapper_start E_no_threads (Some 1%positive) sample_world = Done false σ'
    ∧ heap σ' !! 1%positive
      = Some (BWrapper (mk_matrix_wrapper (Some 16%positive) (Some 2%positive)
                          2 2 false (-1)))
    ∧ trace σ' = [].
Proof.
  destruct (wrapper_start_outcome E_no_threads sample_world 1%positive
              (mk_matrix_wrapper (Some 16%positive) (Some 2%positive) 2 2 false 0)
              eq_refl) as (ok & σ' & Hrun & Hiff & _ & Hfail & _).
  destruct ok; [by destruct (proj1 Hiff eq_refl) as (_ & _ & ?)|].
  exists σ'. split; [exact Hrun|].
  rewrite (Hfail eq_refl (ex_intro _ _ eq_refl) eq_refl). split; reflexivity.
Defined.

(** X10: when the wrapper refuses to start, [start] throws StartError
    and no thread has been started: the trace and the allocation counter
    are as before, and so is every block but the wrapper.  The wrapper,
    too, is as before when it was running already or has no scene; when
    [pthread_create] failed, its thread identifier is whatever the failed
    call left in it. *)
Theorem start_failure_starts_nothing E σ c wa w :
  MatrixController.wrapper c = Some wa → MatrixController.running c = false →
  heap σ !! wa = Some (BWrapper w) →
  running w = true ∨ scene w = None ∨ pthread_create_ok E = false →
  ∃ σ',
    MatrixController.start E c σ = Raise StartError σ'
    ∧ trace σ' = trace σ ∧ next σ' = next σ
    ∧ (∀ a, a ≠ wa → heap σ' !! a = heap σ !! a)
    ∧ (running w = true ∨ scene w = None → σ' = σ)
    ∧ (running w = false → is_Some (scene w) →
       heap σ' !! wa
       = Some (BWrapper (set_render_thread
                           (pthread_create_leaves E (render_thread w)) w))).
Proof.
  intros Hc Hrun Hw Hwhy. unfold MatrixController.start. rewrite Hrun, Hc.
  destruct (decide (running w = true ∨ scene w = None)) as [Hdecl|Hcall].
  - exists σ.
    split; [eapply bind_run; [by apply (wrapper_start_declines _ _ _ w)|done]|].
    split_and!; try done.
    intros Hidle [sa Hsc]. destruct Hdecl; congruence.
  - assert (running w = false) as Hidle by (destruct (running w); tauto).
    assert (is_Some (scene w)) as Hsc by (destruct (scene w); [by eexists|tauto]).
    assert (pthread_create_ok E = false) as Hok by tauto.
    eexists. split; [eapply bind_run; [by apply wrapper_start_fails|done]|].
    cbn [heap next trace]. split_and!; try done.
    + intros a Ha. by rewrite lookup_insert_ne.
    + intros _ _. apply lookup_insert_eq.
Qed.

Lemma start_failure_starts_nothing_witness :
  ∃ σ',
    MatrixController.start E_no_threads sample_controller sample_world
    = Raise StartError σ'
    ∧ trace σ' = trace sample_world
    ∧ heap σ' !! 1%positive
      = Some (BWrapper (mk_matrix_wrapper (Some 16%positive) (Some 2%positive)
                          2 2 false (-1))).
Proof.
  destruct (start_failure_starts_nothing E_no_threads sample_world sample_controller
              1%positive
              (mk_matrix_wrapper (Some 16%positive) (Some 2%positive) 2 2 false 0)
              eq_refl eq_refl eq_refl (or_intror (or_intror eq_refl)))
    as (σ' & Hrun & Htr & _ & _ & _ & Hw).
  exists σ'. split_and!; [exact Hrun|exact Htr|].
  exact (Hw eq_refl (ex_intro _ _ eq_refl)).
Defined.

(** A session stays one when the run flag and the thread identifier of
    its wrapper change, and while the update loop turns. *)
Lemma session_flags σ wa w pb fb w' nx tr :
  session σ wa w pb fb →
  pixel_buffer w' = pixel_buffer w → width w' = width w → height w' = height w →
  session (mk_world (<[wa:=BWrapper w']> (heap σ)) nx tr) wa w' pb fb.
Proof.
  intros Hs Hpb Hwd Hht. pose proof (session_apart _ _ _ _ _ Hs). destruct Hs.
  split; cbn; rewrite ?Hpb, ?Hwd, ?Hht; try done.
  - apply lookup_insert_eq.
  - by rewrite lookup_insert_ne.
Qed.

Lemma session_image_flags σ wa w pb fb sa s im img w' nx tr :
  session σ wa w pb fb → session_image σ w pb sa s im img →
  scene w' = scene w → width w' = width w → height w' = height w →
  session_image (mk_world (<[wa:=BWrapper w']> (heap σ)) nx tr) w' pb sa s im img.
Proof.
  intros Hs Hi Hsc Hwd Hht.
  pose proof (session_image_apart _ _ _ _ _ _ _ _ _ Hs Hi) as (? & ? & ? & ? & ?).
  destruct Hi. split; cbn; rewrite ?Hsc, ?Hwd, ?Hht; try done;
    by rewrite lookup_insert_ne.
Qed.

Lemma session_image_buffer σ wa w pb fb sa s im img :
  session σ wa w pb fb → session_image σ w pb sa s im img →
  image_buffer σ (Some wa) = Some img.
Proof.
  intros [Hw _ _ _ _] [Hsc Hsb Him Hib _ _]. unfold image_buffer, bytes_at. cbn.
  rewrite Hw. cbn. rewrite Hsc. cbn. rewrite Hsb. cbn. rewrite Him. cbn.
  by rewrite Hib.
Qed.

Lemma after_turns_session σ wa w pb fb sa s im img n :
  session σ wa w pb fb → session_image σ w pb sa s im img →
  let frame := fb ++ drop (length fb) img in
  let σ1 := after_turns σ sa im frame n in
  session σ1 wa w pb fb
  ∧ session_image σ1 w pb sa s im (match n with O => img | S _ => frame end)
  ∧ live σ1 = live σ
  ∧ ∀ a, a ≠ im → heap σ1 !! a = heap σ !! a.
Proof.
  intros Hs Hi frame σ1.
  pose proof (session_image_apart _ _ _ _ _ _ _ _ _ Hs Hi) as (? & ? & ? & ? & ?).
  pose proof (image_apart _ _ _ _ _ _ _ Hi).
  subst σ1. unfold after_turns. destruct n as [|n].
  - split_and!; [by destruct Hs|by destruct Hi|done|done].
  - split_and!.
    + destruct Hs. split; cbn; try done; rewrite lookup_insert_ne by congruence; done.
    + destruct Hi. split; cbn; try done.
      * by rewrite lookup_insert_ne by congruence.
      * apply lookup_insert_eq.
      * subst frame. rewrite length_app, length_drop. lia.
    + unfold live. cbn. rewrite dom_insert_L.
      destruct Hi as [_ _ _ Hib _ _]. apply elem_of_dom_2 in Hib.
      apply set_eq. intros a. rewrite elem_of_union, elem_of_singleton.
      split; [by intros [->|?]|auto].
    + intros a Ha. cbn. by rewrite lookup_insert_ne.
Qed.

(** X11: [start] followed by [stop] on a fresh session with an image.
    Two threads are started, the render thread and the update loop.
    [stop] waits for the update loop first, which makes its last turns,
    each copying the FrameBuffer over the image and handing the image to
    the mapper, and then for the render thread, which has entered the
    renderer's loop once.  When that loop ends, [stop] returns with both
    threads joined in this order; the FrameBuffer is as before, the image
    holds the frame if the update loop made a turn, no other block but
    the wrapper has changed, and the session is fresh again and can be
    started once more.  When the renderer's loop never ends, [stop] never
    returns: the update loop has been joined, the render thread has not. *)
Theorem start_stop_round_trip E σ c wa w pb fb sa s im img :
  fresh σ c wa w sa → session σ wa w pb fb → session_image σ w pb sa s im img →
  threads_known σ → pthread_create_ok E = true →
  let n := update_turns E (length (trace σ) + 2)%nat in
  let frame := fb ++ drop (length fb) img in
  let t1 := 1 + Z.of_nat (length (spawned (trace σ))) in
  let t2 := t1 + 1 in
  let run := c1 ← MatrixController.start E c; MatrixController.stop E c1 in
  (render_forever_returns E = true →
   ∃ c2 σ2,
     run σ = Done c2 σ2
     ∧ spawned (trace σ2)
       = spawned (trace σ) ++ [render_thread_func (Some wa); update_loop (Some wa)]
     ∧ joined (trace σ2) = joined (trace σ) ++ [t2; t1]
     ∧ mapper_calls (trace σ2)
       = mapper_calls (trace σ) ++ replicate n (sa, Some frame)
     ∧ renderer_calls (trace σ2) = renderer_calls (trace σ) ++ [sa]
     ∧ frame_buffer σ2 (Some wa) = Some fb
     ∧ image_buffer σ2 (Some wa) = Some (match n with O => img | S _ => frame end)
     ∧ (∀ a, a ≠ wa → a ≠ im → heap σ2 !! a = heap σ !! a)
     ∧ fresh σ2 c2 wa (set_render_thread 0 w) sa
     ∧ ∃ c3 σ3, MatrixController.start E c2 σ2 = Done c3 σ3
                ∧ MatrixController.running c3 = true)
  ∧ (render_forever_returns E = false →
     ∃ σ2,
       run σ = Hang σ2
       ∧ joined (trace σ2) = joined (trace σ) ++ [t2]
       ∧ renderer_calls (trace σ2) = renderer_calls (trace σ) ++ [sa]).
Proof.
  intros Hf Hs Hi Hknown Hok n frame t1 t2 run.
  pose proof Hf as [Hc Hw Hidle Hnt Hwidle Hsc].
  pose proof (session_image_apart _ _ _ _ _ _ _ _ _ Hs Hi) as (? & ? & ? & ? & ?).
  set (w1 := set_render_thread t1 (set_running true w)).
  set (c1 := MatrixController.mk (Some wa) (Some t2) true).
  set (σ1 := mk_world (<[wa:=BWrapper w1]> (heap σ)) (next σ)
               (trace σ ++ [EvSpawn t1 (render_thread_func (Some wa));
                            EvSpawn t2 (update_loop (Some wa))])).
  assert (Hstart : MatrixController.start E c σ = Done c1 σ1)
    by apply (start_run E σ c wa w sa Hf Hok).
  assert (Hs1 : session σ1 wa w1 pb fb) by (by apply (session_flags _ _ w)).
  assert (Hi1 : session_image σ1 w1 pb sa s im img)
    by (by apply (session_image_flags _ _ w _ fb)).
  assert (Hj1 : joinable (trace σ1) (render_thread w1)
                = Some (render_thread_func (Some wa))).
  { apply (joinable_new σ); [done|]. cbn. apply not_elem_of_nil. }
  assert (Hlen : length (trace σ1) = (length (trace σ) + 2)%nat)
    by (subst σ1; cbn; by rewrite length_app).
  pose proof (stop_run E σ1 c1 wa w1 pb fb sa s im img t2
                eq_refl eq_refl eq_refl Hs1 Hi1 eq_refl) as Hstop.
  cbv zeta in Hstop. rewrite Hlen in Hstop. fold n frame in Hstop.
  specialize (Hstop ltac:(subst w1 t1; cbn; lia) ltac:(subst w1 t2; cbn; lia) Hj1).
  destruct (after_turns_session σ1 wa w1 pb fb sa s im img n Hs1 Hi1)
    as (Hs2 & Hi2 & _ & Hsame).
  fold frame in Hs2, Hi2, Hsame.
  destruct (turns_threads sa frame n) as (Hsp & Hjn & Hrc & Hmc).
  set (σe := after_turns σ1 sa im frame n) in *.
  assert (Htr : trace σe
                = trace σ ++ [EvSpawn t1 (render_thread_func (Some wa));
                              EvSpawn t2 (update_loop (Some wa))]
                  ++ turns sa frame n)
    by (subst σe σ1; unfold after_turns; cbn; by rewrite <-app_assoc).
  split.
  - intros Hret. rewrite Hret in Hstop.
    set (w2 := set_render_thread 0 (set_running false w1)) in *.
    assert (w2 = set_render_thread 0 w) as Hw2.
    { subst w2 w1. unfold set_render_thread, set_running. cbn. by rewrite Hwidle. }
    eexists _, _. split; [subst run; by eapply bind_run|].
    cbn [trace heap next]. rewrite Htr.
    rewrite !spawned_app, !joined_app, !mapper_calls_app, !renderer_calls_app.
    rewrite Hsp, Hjn, Hrc, Hmc.
    assert (Hfresh2 : ∀ nx tr,
      fresh (mk_world (<[wa:=BWrapper w2]> (heap σe)) nx tr)
        (MatrixController.mk (Some wa) None false) wa (set_render_thread 0 w) sa).
    { intros nx tr. split; cbn; try done. by rewrite lookup_insert_eq, Hw2. }
    split_and!.
    + cbn. by rewrite !app_nil_r.
    + cbn. by rewrite !app_nil_r.
    + cbn. by rewrite !app_nil_r.
    + cbn. by rewrite !app_nil_r.
    + apply (session_frame_buffer _ _ w2 pb fb).
      by apply (session_flags _ _ w1).
    + apply (session_image_buffer _ wa w2 pb fb sa s im).
      * by apply (session_flags _ _ w1).
      * by apply (session_image_flags _ _ w1 _ fb).
    + intros a Ha Him. cbn. rewrite lookup_insert_ne by done.
      rewrite Hsame by done. subst σ1. cbn. by rewrite lookup_insert_ne.
    + apply Hfresh2.
    + eexists _, _.
      split; [by eapply (start_run _ _ _ wa (set_render_thread 0 w) sa)|reflexivity].
  - intros Hret. rewrite Hret in Hstop. eexists.
    split; [subst run; by eapply bind_run|].
    cbn [trace heap next]. rewrite Htr.
    rewrite !joined_app, !renderer_calls_app. rewrite Hjn, Hrc.
    split; cbn; by rewrite !app_nil_r.
Qed.

Lemma painted_fresh :
  fresh painted_world sample_controller 1%positive
    (mk_matrix_wrapper (Some 16%positive) (Some 2%positive) 2 2 false 0) 16%positive.
Proof. by split. Qed.

Lemma painted_session :
  session painted_world 1%positive
    (mk_matrix_wrapper (Some 16%positive) (Some 2%positive) 2 2 false 0)
    2%positive [1; 2; 3; 4; 5; 6; 7; 8; 9; 10; 11; 12].
Proof. apply (session_with_bytes _ _ _ _ _ _ sample_session). reflexivity. Qed.

Lemma painted_session_image :
  session_image painted_world
    (mk_matrix_wrapper (Some 16%positive) (Some 2%positive) 2 2 false 0)
    2%positive 16%positive (mk_scene_info (Some 17%positive) 2 2 3) 17%positive
    [200; 201; 202; 203; 204; 205; 206; 207; 208; 209; 210; 211].
Proof.
  exact (session_image_with_bytes _ _ _ _ _ _ _ _ _ _
           sample_session sample_session_image).
Qed.

Lemma painted_threads_known : threads_known painted_world.
Proof. intros e He. by apply elem_of_nil in He. Qed.

Lemma start_stop_round_trip_witness :
  ∃ c2 σ2,
    (c1 ← MatrixController.start E_ok sample_controller;
     MatrixController.stop E_ok c1) painted_world = Done c2 σ2
    ∧ joined (trace σ2) = [2; 1]
    ∧ mapper_calls (trace σ2)
      = [(16%positive, Some [1; 2; 3; 4; 5; 6; 7; 8; 9; 10; 11; 12]);
         (16%positive, Some [1; 2; 3; 4; 5; 6; 7; 8; 9; 10; 11; 12])]
    ∧ frame_buffer σ2 (Some 1%positive)
      = Some [1; 2; 3; 4; 5; 6; 7; 8; 9; 10; 11; 12]
    ∧ image_buffer σ2 (Some 1%positive)
      = Some [1; 2; 3; 4; 5; 6; 7; 8; 9; 10; 11; 12].
Proof.
  destruct (proj1 (start_stop_round_trip E_ok painted_world sample_controller
                     1%positive _ _ _ _ _ _ _
                     painted_fresh painted_session painted_session_image
                     painted_threads_known eq_refl) eq_refl)
    as (c2 & σ2 & Hrun & _ & Hj & Hm & _ & Hfb & Him & _).
  exists c2, σ2.
  split_and!; [exact Hrun|exact Hj|exact Hm|exact Hfb|exact Him].
Defined.

(** ** Destruction *)

Ltac by_membership :=
  apply set_eq; intros ?;
  rewrite ?elem_of_difference, ?elem_of_union, ?elem_of_singleton,
    ?elem_of_difference, ?elem_of_union, ?elem_of_singleton;
  intuition congruence.

(** [matrix_wrapper_destroy] on a session with a scene: three calls of
    [free]. *)
Lemma wrapper_destroy_run σ wa w pb fb sa s im img :
  session σ wa w pb fb → session_image σ w pb sa s im img →
  matrix_wrapper_destroy (Some wa) σ =
    Done tt (mk_world (delete wa (delete pb (delete sa (heap σ)))) (next σ) (trace σ)).
Proof.
  intros Hs Hi.
  pose proof (session_image_apart _ _ _ _ _ _ _ _ _ Hs Hi) as (? & ? & ? & ? & ?).
  destruct Hs as [Hw Hpb Hfb _ _], Hi as [Hsc Hsb _ _ _ _].
  unfold matrix_wrapper_destroy.
  eapply bind_run; [by apply load_wrapper_run|]. rewrite Hsc, Hpb.
  eapply bind_run; [unfold free; by rewrite Hsb|].
  eapply bind_run; [unfold free; cbn; by rewrite lookup_delete_ne, Hfb|].
  unfold free. cbn. by rewrite !lookup_delete_ne, Hw by done.
Qed.

(** X12: [matrix_wrapper_destroy] on a live session releases exactly
    three blocks, the wrapper, its FrameBuffer and the scene.  The image
    buffer of the scene is not among them: it is still allocated
    afterwards.  Nothing is joined or called. *)
Theorem destroy_releases_three_blocks σ wa w pb fb sa s im img :
  session σ wa w pb fb → session_image σ w pb sa s im img →
  ∃ σ',
    matrix_wrapper_destroy (Some wa) σ = Done tt σ'
    ∧ live σ' = live σ ∖ {[wa; pb; sa]}
    ∧ heap σ' !! im = Some (BBytes img)
    ∧ trace σ' = trace σ.
Proof.
  intros Hs Hi.
  pose proof (session_image_apart _ _ _ _ _ _ _ _ _ Hs Hi) as (? & ? & ? & ? & ?).
  eexists. split; [by eapply wrapper_destroy_run|]. split_and!; [| |done].
  - unfold live. cbn. rewrite !dom_delete_L. by_membership.
  - destruct Hi. cbn. by rewrite !lookup_delete_ne by congruence.
Qed.

Lemma destroy_releases_three_blocks_witness :
  ∃ σ',
    matrix_wrapper_destroy (Some 1%positive) sample_world = Done tt σ'
    ∧ live σ' = live sample_world ∖ {[1; 2; 16]}%positive
    ∧ heap σ' !! 17%positive
      = Some (BBytes [200; 201; 202; 203; 204; 205; 206; 207; 208; 209; 210; 211]).
Proof.
  destruct (destroy_releases_three_blocks sample_world 1%positive _ _ _ _ _ _ _
              sample_session sample_session_image) as (σ' & H1 & H2 & H3 & _).
  by exists σ'.
Defined.

(** X13: the destructor of a controller.  When the controller is not
    running it releases the wrapper, its FrameBuffer and the scene, and
    nothing else happens.  When it is running it stops first: it waits
    for the update loop, which makes its last turns, and then for the
    render thread.  If the renderer's loop ends, both threads have been
    joined in this order when the three blocks are released; the image
    buffer, which holds the frame if the update loop made a turn, stays
    allocated, and no thread has been started.  If the renderer's loop
    never ends, the destructor never returns and releases nothing. *)
Theorem destructor_joins_then_frees E σ c wa w pb fb sa s im img :
  MatrixController.wrapper c = Some wa →
  session σ wa w pb fb → session_image σ w pb sa s im img →
  (MatrixController.running c = false →
   ∃ σ',
     MatrixController.destroy E c σ = Done tt σ'
     ∧ live σ' = live σ ∖ {[wa; pb; sa]}
     ∧ heap σ' !! im = Some (BBytes img)
     ∧ trace σ' = trace σ)
  ∧ (∀ tu,
       MatrixController.running c = true →
       MatrixController.render_thread c = Some tu →
       running w = true → render_thread w ≠ 0 → tu ≠ render_thread w →
       joinable (trace σ) (render_thread w) = Some (render_thread_func (Some wa)) →
       let n := update_turns E (length (trace σ)) in
       let frame := fb ++ drop (length fb) img in
       if render_forever_returns E
       then ∃ σ',
              MatrixController.destroy E c σ = Done tt σ'
              ∧ live σ' = live σ ∖ {[wa; pb; sa]}
              ∧ heap σ' !! im
                = Some (BBytes (match n with O => img | S _ => frame end))
              ∧ joined (trace σ') = joined (trace σ) ++ [tu; render_thread w]
              ∧ spawned (trace σ') = spawned (trace σ)
       else ∃ σ',
              MatrixController.destroy E c σ = Hang σ'
              ∧ live σ' = live σ
              ∧ joined (trace σ') = joined (trace σ) ++ [tu]
              ∧ spawned (trace σ') = spawned (trace σ)).
Proof.
  intros Hc Hs Hi.
  pose proof (session_image_apart _ _ _ _ _ _ _ _ _ Hs Hi) as (? & ? & ? & ? & ?).
  pose proof Hs as [Hw Hpb Hfb Hsz Hlen].
  pose proof Hi as [Hsc Hsb Him Hib Hisz Hne].
  split.
  - intros Hrun. eexists. split.
    + unfold MatrixController.destroy. eapply bind_run.
      { unfold MatrixController.stop. by rewrite Hrun. }
      rewrite Hc. by eapply wrapper_destroy_run.
    + cbn. split_and!; [| |done].
      * unfold live. cbn. rewrite !dom_delete_L. by_membership.
      * by rewrite !lookup_delete_ne by congruence.
  - intros tu Hrun Htu Hwrun Hrt Hne' Hj n frame.
    pose proof (stop_run E σ c wa w pb fb sa s im img tu
                  Hc Hrun Htu Hs Hi Hwrun Hrt Hne' Hj) as Hstop.
    cbv zeta in Hstop. fold n frame in Hstop.
    destruct (after_turns_session σ wa w pb fb sa s im img n Hs Hi)
      as (Hs1 & Hi1 & Hlive1 & Hsame).
    fold frame in Hs1, Hi1, Hlive1, Hsame.
    destruct (turns_threads sa frame n) as (Hsp & Hjn & _ & _).
    assert (Hw1 : heap (after_turns σ sa im frame n) !! wa = Some (BWrapper w))
      by (by destruct Hs1).
    destruct (render_forever_returns E).
    + set (w2 := set_render_thread 0 (set_running false w)) in Hstop.
      eexists. split.
      * unfold MatrixController.destroy. eapply bind_run; [exact Hstop|].
        cbn [MatrixController.wrapper].
        apply (wrapper_destroy_run _ wa w2 pb fb sa s im
                 (match n with O => img | S _ => frame end)).
        -- by apply (session_flags _ _ w).
        -- by apply (session_image_flags _ _ w _ fb).
      * cbn [heap next trace]. split_and!.
        -- unfold live in *. cbn [heap]. rewrite !dom_delete_L, dom_insert_L, Hlive1.
           apply elem_of_dom_2 in Hw. by_membership.
        -- rewrite !lookup_delete_ne, lookup_insert_ne by congruence.
           by destruct Hi1.
        -- unfold after_turns. cbn [trace]. rewrite !joined_app, Hjn. cbn.
           by rewrite app_nil_r.
        -- unfold after_turns. cbn [trace]. rewrite !spawned_app, Hsp. cbn.
           by rewrite !app_nil_r.
    + eexists. split.
      * unfold MatrixController.destroy. rewrite bind_unfold, Hstop. reflexivity.
      * cbn [heap next trace]. split_and!.
        -- unfold live in *. cbn [heap]. rewrite dom_insert_L, Hlive1.
           apply elem_of_dom_2 in Hw.
           apply set_eq. intros a. rewrite elem_of_union, elem_of_singleton.
           split; [by intros [->|?]|auto].
        -- unfold after_turns. cbn [trace]. rewrite !joined_app, Hjn. cbn.
           by rewrite app_nil_r.
        -- unfold after_turns. cbn [trace]. rewrite !spawned_app, Hsp. cbn.
           by rewrite !app_nil_r.
Qed.

Lemma painted_started_session :
  session painted_started_world 1%positive
    (mk_matrix_wrapper (Some 16%positive) (Some 2%positive) 2 2 true 1)
    2%positive [1; 2; 3; 4; 5; 6; 7; 8; 9; 10; 11; 12].
Proof. apply (session_with_bytes _ _ _ _ _ _ started_session). reflexivity. Qed.

Lemma painted_started_session_image :
  session_image painted_started_world
    (mk_matrix_wrapper (Some 16%positive) (Some 2%positive) 2 2 true 1)
    2%positive 16%positive (mk_scene_info (Some 17%positive) 2 2 3) 17%positive
    [200; 201; 202; 203; 204; 205; 206; 207; 208; 209; 210; 211].
Proof.
  exact (session_image_with_bytes _ _ _ _ _ _ _ _ _ _
           started_session started_session_image).
Qed.

Lemma destructor_joins_then_frees_witness :
  (∃ σ',
     MatrixController.destroy E_ok started_controller painted_started_world
     = Done tt σ'
     ∧ live σ' = live painted_started_world ∖ {[1; 2; 16]}%positive
     ∧ heap σ' !! 17%positive = Some (BBytes [1; 2; 3; 4; 5; 6; 7; 8; 9; 10; 11; 12])
     ∧ joined (trace σ') = [2; 1])
  ∧ (∃ σ',
       MatrixController.destroy E_endless started_controller painted_started_world
       = Hang σ'
       ∧ live σ' = live painted_started_world
       ∧ joined (trace σ') = [2]).
Proof.
  split.
  - destruct (proj2 (destructor_joins_then_frees E_ok painted_started_world
                       started_controller 1%positive _ _ _ _ _ _ _ eq_refl
                       painted_started_session painted_started_session_image)
                2 eq_refl eq_refl eq_refl ltac:(done) ltac:(done) eq_refl)
      as (σ' & Hrun & Hlive & Him & Hj & _).
    exists σ'. split_and!; [exact Hrun|exact Hlive|exact Him|exact Hj].
  - destruct (proj2 (destructor_joins_then_frees E_endless painted_started_world
                       started_controller 1%positive _ _ _ _ _ _ _ eq_refl
                       painted_started_session painted_started_session_image)
                2 eq_refl eq_refl eq_refl ltac:(done) ltac:(done) eq_refl)
      as (σ' & Hrun & Hlive & Hj & _).
    exists σ'. split_and!; [exact Hrun|exact Hlive|exact Hj].
Defined.

(** ** Construction *)

Lemma malloc_run E n init σ :
  0 ≤ n → malloc_ok E (next σ) = true →
  malloc E n init σ
  = Done (Some (next σ))
      (mk_world (<[next σ:=init (next σ)]> (heap σ)) (Pos.succ (next σ)) (trace σ)).
Proof.
  intros Hn Hok. unfold malloc. cbv zeta.
  by rewrite bool_decide_eq_true_2, Hok.
Qed.

Lemma malloc_fails E n init σ :
  n < 0 ∨ malloc_ok E (next σ) = false →
  malloc E n init σ
  = Done NULL (mk_world (heap σ) (Pos.succ (next σ)) (trace σ)).
Proof.
  intros Hwhy. unfold malloc. cbv zeta.
  destruct Hwhy as [Hn|Hok].
  - by rewrite bool_decide_eq_false_2 by lia.
  - rewrite Hok. by destruct (bool_decide _).
Qed.

Lemma elem_of_addr_seq a b n :
  a ∈ addr_seq b n ↔ (b ≤ a)%positive ∧ (Pos.to_nat a < Pos.to_nat b + n)%nat.
Proof.
  revert b. induction n as [|n IH]; intros b; cbn [addr_seq].
  - rewrite elem_of_nil. lia.
  - rewrite elem_of_cons, IH. lia.
Qed.

Lemma NoDup_addr_seq b n : NoDup (addr_seq b n).
Proof.
  revert b. induction n as [|n IH]; intros b; cbn [addr_seq]; [constructor|].
  apply NoDup_cons. split; [|apply IH]. rewrite elem_of_addr_seq. lia.
Qed.

Lemma length_addr_seq b n : length (addr_seq b n) = n.
Proof. revert b. induction n as [|n IH]; intros b; cbn; by rewrite ?IH. Qed.

Lemma with_buffers_cons E b addrs h :
  with_buffers E (b :: addrs) h = with_buffers E addrs (<[b:=fresh_bytes E 32 b]> h).
Proof. done. Qed.

Lemma without_cons b addrs h : without (b :: addrs) h = without addrs (delete b h).
Proof. done. Qed.

Lemma lookup_with_buffers_notin E addrs h a :
  a ∉ addrs → with_buffers E addrs h !! a = h !! a.
Proof.
  revert h. induction addrs as [|b addrs IH]; intros h Ha; [done|].
  apply not_elem_of_cons in Ha as [Hne Ha]. rewrite with_buffers_cons, IH by done.
  by rewrite lookup_insert_ne.
Qed.

Lemma lookup_with_buffers_in E addrs h a :
  a ∈ addrs → with_buffers E addrs h !! a = Some (fresh_bytes E 32 a).
Proof.
  revert h. induction addrs as [|b addrs IH]; intros h Ha; [by apply elem_of_nil in Ha|].
  rewrite with_buffers_cons.
  destruct (decide (a ∈ addrs)) as [Hin|Hout]; [by apply IH|].
  apply elem_of_cons in Ha as [->|Ha]; [|done].
  rewrite lookup_with_buffers_notin by done. apply lookup_insert_eq.
Qed.

Lemma lookup_without_notin addrs h a :
  a ∉ addrs → without addrs h !! a = h !! a.
Proof.
  revert h. induction addrs as [|b addrs IH]; intros h Ha; [done|].
  apply not_elem_of_cons in Ha as [Hne Ha]. rewrite without_cons, IH by done.
  by rewrite lookup_delete_ne.
Qed.

Lemma lookup_without_in addrs h a : a ∈ addrs → without addrs h !! a = None.
Proof.
  revert h. induction addrs as [|b addrs IH]; intros h Ha; [by apply elem_of_nil in Ha|].
  rewrite without_cons.
  destruct (decide (a ∈ addrs)) as [Hin|Hout]; [by apply IH|].
  apply elem_of_cons in Ha as [->|Ha]; [|done].
  rewrite lookup_without_notin by done. apply lookup_delete_eq.
Qed.

(** Thirteen calls of [malloc(32)] that succeed. *)
Lemma collect_malloc_run E (l : list Z) σ :
  (∀ a, a ∈ addr_seq (next σ) (length l) → malloc_ok E a = true) →
  collect (λ _, malloc E 32 (fresh_bytes E 32)) l σ
  = Done (Some <$> addr_seq (next σ) (length l))
      (mk_world (with_buffers E (addr_seq (next σ) (length l)) (heap σ))
                (Nat.iter (length l) Pos.succ (next σ)) (trace σ)).
Proof.
  revert σ. induction l as [|z l IH]; intros σ Hok.
  - cbn. unfold mret, M_ret. by rewrite world_eta.
  - cbn [collect length addr_seq] in *.
    eapply bind_run; [apply malloc_run; [done|apply Hok; by left]|].
    eapply bind_run; [apply IH; intros a Ha; apply Hok; by right|].
    cbn [next heap trace]. by rewrite Nat.iter_succ_r.
Qed.

(** The texts printed into fresh buffers of 32 bytes. *)
Lemma with_texts_cons E a addrs t texts h :
  with_texts E (a :: addrs) (t :: texts) h
  = with_texts E addrs texts (<[a:=BBytes (printed 32 t (fresh_list E 32 a))]> h).
Proof. done. Qed.

Lemma lookup_with_texts_notin E addrs texts h a :
  a ∉ addrs → with_texts E addrs texts h !! a = h !! a.
Proof.
  revert texts h. induction addrs as [|b addrs IH]; intros texts h Ha; [done|].
  destruct texts as [|t texts]; [done|].
  apply not_elem_of_cons in Ha as [Hne Ha]. rewrite with_texts_cons, IH by done.
  by rewrite lookup_insert_ne.
Qed.

Lemma lookup_with_texts_in E addrs texts h k a t :
  NoDup addrs → addrs !! k = Some a → texts !! k = Some t →
  with_texts E addrs texts h !! a
  = Some (BBytes (printed 32 t (fresh_list E 32 a))).
Proof.
  revert texts h k. induction addrs as [|b addrs IH]; intros texts h k Hnd Ha Ht;
    [done|].
  destruct texts as [|t0 texts]; [done|].
  apply NoDup_cons in Hnd as [Hb Hnd]. rewrite with_texts_cons.
  destruct k as [|k]; cbn in Ha, Ht.
  - simplify_eq. rewrite lookup_with_texts_notin by done. apply lookup_insert_eq.
  - by apply (IH _ _ k).
Qed.

Lemma dom_with_texts E addrs texts h :
  (length addrs ≤ length texts)%nat →
  dom (with_texts E addrs texts h) = list_to_set addrs ∪ dom h.
Proof.
  revert texts h. induction addrs as [|b addrs IH]; intros texts h Hlen.
  - cbn. apply set_eq. intros a. rewrite elem_of_union, elem_of_empty. tauto.
  - destruct texts as [|t texts]; [cbn in Hlen; lia|].
    rewrite with_texts_cons, IH, dom_insert_L by (cbn in Hlen; lia). cbn.
    apply set_eq. intros a. rewrite !elem_of_union. tauto.
Qed.

(** Printing over the fresh buffers leaves the same store as printing
    into them where they are allocated. *)
Lemma with_texts_over_buffers E addrs texts h :
  NoDup addrs → (length addrs ≤ length texts)%nat →
  with_texts E addrs texts (with_buffers E addrs h) = with_texts E addrs texts h.
Proof.
  intros Hnd Hlen. apply map_eq. intros a.
  destruct (decide (a ∈ addrs)) as [Hin|Hout].
  - apply list_elem_of_lookup in Hin as [k Hk].
    destruct (lookup_lt_is_Some_2 texts k) as [t Ht].
    { apply lookup_lt_Some in Hk. lia. }
    by rewrite !(lookup_with_texts_in E addrs texts _ k a t).
  - by rewrite !lookup_with_texts_notin, lookup_with_buffers_notin.
Qed.

Lemma length_printed size text bs :
  (size ≤ length bs)%nat → length (printed size text bs) = length bs.
Proof.
  intros Hsize. destruct size as [|n]; [done|]. cbn [printed].
  rewrite !length_app, length_drop, length_take. cbn. lia.
Qed.

Lemma length_fresh_list E n a : 0 ≤ n → length (fresh_list E n a) = Z.to_nat n.
Proof. intros Hn. unfold fresh_list. by rewrite length_fmap, length_seq. Qed.

(** Formatting into thirteen fresh buffers. *)
Lemma each_snprintf_run E addrs texts σ :
  NoDup addrs →
  (∀ a, a ∈ addrs → heap σ !! a = Some (fresh_bytes E 32 a)) →
  each (λ '(p, text), snprintf p 32 text) (zip (Some <$> addrs) texts) σ
  = Done tt (mk_world (with_texts E addrs texts (heap σ)) (next σ) (trace σ)).
Proof.
  revert texts σ. induction addrs as [|a addrs IH]; intros texts σ Hnd Hall.
  - cbn. unfold mret, M_ret. by rewrite world_eta.
  - destruct texts as [|t texts].
    { cbn. unfold mret, M_ret. by rewrite world_eta. }
    apply NoDup_cons in Hnd as [Ha Hnd].
    cbn [fmap list_fmap zip zip_with each]. rewrite with_texts_cons.
    eapply bind_run.
    + unfold snprintf.
      eapply bind_run; [apply (load_bytes_run _ _ (fresh_list E 32 a)), Hall; by left|].
      rewrite decide_True
        by (rewrite length_printed; [done|by rewrite length_fresh_list]).
      eapply store_run. apply Hall. by left.
    + rewrite IH; [done|done|]. intros b Hb. cbn.
      rewrite lookup_insert_ne by (intros ->; done). apply Hall. by right.
Qed.

(** Freeing buffers that are all there, each once. *)
Lemma each_free_run addrs σ :
  NoDup addrs → (∀ a, a ∈ addrs → is_Some (heap σ !! a)) →
  each free (Some <$> addrs) σ
  = Done tt (mk_world (without addrs (heap σ)) (next σ) (trace σ)).
Proof.
  revert σ. induction addrs as [|a addrs IH]; intros σ Hnd Hall.
  - cbn. unfold mret, M_ret. by rewrite world_eta.
  - apply NoDup_cons in Hnd as [Hnotin Hnd].
    cbn [fmap list_fmap each]. destruct (Hall a) as [b Hb]; [by left|].
    eapply bind_run; [unfold free; by rewrite Hb|].
    rewrite IH; [done|done|]. intros c Hc. cbn.
    rewrite lookup_delete_ne by (intros ->; done). apply Hall. by right.
Qed.

(** The loop over [args] frees the thirteen buffers in the order of
    their slots. *)
Lemma free_args_each (ps : list ptr) σ :
  length ps = 13%nat →
  free_args (zip arg_slots ps) σ = each free ps σ.
Proof.
  intros Hlen.
  do 14 (destruct ps as [|? ps]; try discriminate Hlen).
  unfold free_args. cbn -[free]. rewrite !bind_unfold.
  repeat (destruct (free _ _) as [[] ?| | |?]; [|done..]). done.
Qed.

Lemma fresh_bytes_length E n a :
  0 ≤ n → ∃ bs, fresh_bytes E n a = BBytes bs ∧ Z.of_nat (length bs) = n.
Proof.
  intros Hn. eexists. split; [done|]. rewrite length_fmap, length_seq. lia.
Qed.

Lemma world_ext σ1 σ2 :
  heap σ1 = heap σ2 → next σ1 = next σ2 → trace σ1 = trace σ2 → σ1 = σ2.
Proof. destruct σ1, σ2. cbn. by intros -> -> ->. Qed.

Lemma lookup_with_texts_is_Some E addrs texts h a :
  (length addrs ≤ length texts)%nat → a ∈ addrs →
  is_Some (with_texts E addrs texts h !! a).
Proof.
  intros Hlen Ha. apply elem_of_dom. rewrite dom_with_texts by done.
  apply elem_of_union_l. by apply elem_of_list_to_set.
Qed.

(** X14: when the wrapper block cannot be allocated, or the FrameBuffer
    cannot (its allocation fails, or [width * height * 3] is negative),
    [matrix_wrapper_create] returns [NULL] with the heap exactly as
    before, and the constructor throws InitError. *)
Theorem create_early_failure_frees_all E W H o σ :
  heap_below σ → INT_MIN ≤ W * H ≤ INT_MAX → INT_MIN ≤ W * H * 3 ≤ INT_MAX →
  malloc_ok E (next σ) = false
  ∨ W * H * 3 < 0 ∨ malloc_ok E (Pos.succ (next σ)) = false →
  ∃ σ',
    matrix_wrapper_create E W H o σ = Done NULL σ'
    ∧ heap σ' = heap σ ∧ trace σ' = trace σ
    ∧ MatrixController.MatrixController E W H o σ = Raise InitError σ'.
Proof.
  intros Hbelow Hwh Hn Hwhy.
  assert (Hfree : heap σ !! next σ = None) by (apply Hbelow; lia).
  assert (Hrun : ∃ σ', (∀ o', matrix_wrapper_create E W H o' σ = Done NULL σ')
                       ∧ heap σ' = heap σ ∧ trace σ' = trace σ).
  { unfold matrix_wrapper_create. destruct (malloc_ok E (next σ)) eqn:Hok0.
    - destruct Hwhy as [?|Hwhy]; [done|]. eexists. split.
      + intros o'.
        eapply bind_run; [apply malloc_run; [done|done]|].
        eapply bind_run; [by apply int_op_run|].
        eapply bind_run; [by apply int_op_run|].
        eapply bind_run; [by apply malloc_fails|].
        eapply bind_run; [eapply update_wrapper_run; cbn; apply lookup_insert_eq|].
        eapply bind_run; [unfold free; cbn; by rewrite lookup_insert_eq|].
        reflexivity.
      + cbn. by rewrite insert_insert_eq, delete_insert_id.
    - eexists. split.
      + intros o'. eapply bind_run; [apply malloc_fails; by right|]. reflexivity.
      + done. }
  destruct Hrun as (σ' & Hrun & Hheap & Htr). exists σ'. split_and!; try done.
  unfold MatrixController.MatrixController. cbv zeta. by eapply bind_run.
Qed.

Lemma empty_world_below : heap_below empty_world.
Proof. intros a _. apply lookup_empty. Qed.

Lemma create_early_failure_frees_all_witness :
  ∃ σ',
    matrix_wrapper_create E_ok 2 (-2) MatrixController.defaults empty_world
    = Done NULL σ'
    ∧ heap σ' = ∅ ∧ trace σ' = []
    ∧ MatrixController.MatrixController E_ok 2 (-2) MatrixController.defaults
        empty_world
      = Raise InitError σ'.
Proof.
  apply (create_early_failure_frees_all E_ok 2 (-2) MatrixController.defaults
           empty_world empty_world_below);
    unfold INT_MIN, INT_MAX; lia.
Defined.

(** The first steps of a construction in which every allocation
    succeeds: the wrapper, the FrameBuffer, the thirteen argument
    strings, and the formatting of the arguments into them. *)
Ltac create_prefix ok :=
  unfold matrix_wrapper_create;
  eapply bind_run; [apply malloc_run; [done|ok]|];
  eapply bind_run; [apply int_op_run; unfold INT_MIN, INT_MAX in *; lia|];
  eapply bind_run; [apply int_op_run; unfold INT_MIN, INT_MAX in *; lia|];
  eapply bind_run; [apply malloc_run; [lia|ok]|];
  cbn [next heap trace];
  eapply bind_run;
    [eapply update_wrapper_run; cbn;
     rewrite lookup_insert_ne by lia; apply lookup_insert_eq|];
  eapply bind_run; [eapply update_wrapper_run; cbn; apply lookup_insert_eq|];
  cbn [next heap trace scene pixel_buffer set_pixel_buffer uninit_wrapper];
  rewrite !insert_insert_eq;
  eapply bind_run; [apply collect_malloc_run; intros ? ?; ok|];
  cbn [next heap trace];
  eapply bind_run;
    [apply each_snprintf_run;
     [apply NoDup_addr_seq
     |intros ? ?; cbn [heap]; by apply lookup_with_buffers_in]|];
  cbn [next heap trace];
  rewrite with_texts_over_buffers
    by first [apply NoDup_addr_seq | rewrite length_addr_seq; cbn; lia].

(** After a construction that failed behind the formatting of the
    arguments, with the wrapper and the FrameBuffer released: the
    thirteen argument strings are still allocated, and each holds the
    text that was printed into it. *)
Lemma create_null_scene_run E W H o σ :
  heap_below σ → (∀ a, malloc_ok E a = true) → default_scene E = None →
  0 ≤ W * H * 3 ≤ INT_MAX →
  let args := addr_seq (Pos.succ (Pos.succ (next σ))) 13 in
  ∃ σ',
    matrix_wrapper_create E W H o σ = Done NULL σ'
    ∧ live σ' = live σ ∪ list_to_set args
    ∧ (∀ k a t, args !! k = Some a → arg_texts W H o !! k = Some t →
                heap σ' !! a = Some (BBytes (printed 32 t (fresh_list E 32 a))))
    ∧ (∀ a, a ∉ args → heap σ' !! a = heap σ !! a)
    ∧ trace σ' = trace σ.
Proof.
  intros Hbelow Hok Hnull Hsz args. subst args.
  set (a0 := next σ). set (args := addr_seq (Pos.succ (Pos.succ a0)) 13).
  assert (Ha0 : a0 ∉ args) by (subst args; rewrite elem_of_addr_seq; lia).
  assert (Ha1 : Pos.succ a0 ∉ args) by (subst args; rewrite elem_of_addr_seq; lia).
  assert (Hfree0 : heap σ !! a0 = None) by (apply Hbelow; lia).
  assert (Hfree1 : heap σ !! Pos.succ a0 = None) by (apply Hbelow; subst a0; lia).
  assert (Hn0 : a0 ∉ dom (heap σ)) by (by apply not_elem_of_dom).
  assert (Hn1 : Pos.succ a0 ∉ dom (heap σ)) by (by apply not_elem_of_dom).
  eexists. split; [|split_and!].
  - create_prefix ltac:(apply Hok).
    change (length arg_slots) with 13%nat. fold a0. fold args.
    eapply bind_run; [unfold call_default_scene; by rewrite Hnull|].
    eapply bind_run;
      [eapply update_wrapper_run; cbn [heap];
       rewrite lookup_with_texts_notin by done; apply lookup_insert_eq|].
    eapply bind_run; [apply load_wrapper_run; cbn [heap]; apply lookup_insert_eq|].
    cbn [pixel_buffer set_scene].
    eapply bind_run.
    { unfold free. cbn [heap next trace].
      rewrite lookup_insert_ne by lia.
      rewrite lookup_with_texts_notin by done.
      rewrite lookup_insert_ne by lia. by rewrite lookup_insert_eq. }
    eapply bind_run.
    { unfold free. cbn [heap next trace]. rewrite lookup_delete_ne by lia.
      by rewrite lookup_insert_eq. }
    reflexivity.
  - unfold live. cbn [heap].
    rewrite !dom_delete_L, dom_insert_L, dom_with_texts, !dom_insert_L
      by (subst args; rewrite length_addr_seq; cbn; lia).
    apply set_eq. intros a.
    rewrite ?elem_of_difference, ?elem_of_union, ?elem_of_singleton,
      ?elem_of_list_to_set.
    split.
    + intros [[[?|[?|[?|[?|?]]]] ?] ?]; subst; tauto.
    + intros [?|?]; (split; [split|]; [tauto | |]); intros ->; done.
  - intros k a t Hk Ht. cbn [heap].
    assert (a ∈ args) as Ha by (by eapply list_elem_of_lookup_2).
    assert (a ≠ a0 ∧ a ≠ Pos.succ a0) as [? ?] by (split; intros ->; done).
    rewrite !lookup_delete_ne, lookup_insert_ne by done.
    apply (lookup_with_texts_in _ _ _ _ k); [apply NoDup_addr_seq|done|done].
  - intros a Ha. cbn [heap].
    destruct (decide (a = a0)) as [->|]; [by rewrite lookup_delete_eq|].
    rewrite lookup_delete_ne by done.
    destruct (decide (a = Pos.succ a0)) as [->|]; [by rewrite lookup_delete_eq|].
    rewrite lookup_delete_ne, lookup_insert_ne by done.
    rewrite lookup_with_texts_notin by done.
    by rewrite !lookup_insert_ne by done.
  - done.
Qed.

(** X15: when every allocation succeeds and the external initializer
    returns null, [matrix_wrapper_create] returns [NULL] and the
    constructor throws InitError, with the wrapper and the FrameBuffer
    released.  The thirteen argument strings, and only they, have been
    added to the live blocks; each still holds the text that was printed
    into it, a NUL behind the text and, behind the NUL, the bytes the
    block had when it was allocated.  No other block has changed. *)
Theorem create_null_scene_keeps_strings E W H o σ :
  heap_below σ → (∀ a, malloc_ok E a = true) → default_scene E = None →
  0 ≤ W * H * 3 ≤ INT_MAX →
  let args := addr_seq (Pos.succ (Pos.succ (next σ))) 13 in
  (∃ σ',
     matrix_wrapper_create E W H o σ = Done NULL σ'
     ∧ live σ' = live σ ∪ list_to_set args
     ∧ (∀ k a t, args !! k = Some a → arg_texts W H o !! k = Some t →
                 heap σ' !! a = Some (BBytes (printed 32 t (fresh_list E 32 a))))
     ∧ (∀ a, a ∉ args → heap σ' !! a = heap σ !! a))
  ∧ (∃ σ',
       MatrixController.MatrixController E W H o σ = Raise InitError σ'
       ∧ live σ' = live σ ∪ list_to_set args
       ∧ (∀ a, a ∉ args → heap σ' !! a = heap σ !! a)).
Proof.
  intros Hbelow Hok Hnull Hsz args. split.
  - destruct (create_null_scene_run E W H o σ Hbelow Hok Hnull Hsz)
      as (σ' & Hrun & Hlive & Htexts & Hrest & _).
    by exists σ'.
  - unfold MatrixController.MatrixController. cbv zeta.
    match goal with
    | |- ∃ _, (matrix_wrapper_create _ _ _ ?o' ≫= _) _ = _ ∧ _ =>
        destruct (create_null_scene_run E W H o' σ Hbelow Hok Hnull Hsz)
          as (σ' & Hrun & Hlive & _ & Hrest & _)
    end.
    exists σ'. split_and!; [by eapply bind_run|done|done].
Qed.

Lemma create_null_scene_keeps_strings_witness :
  ∃ σ' bs,
    matrix_wrapper_create E_null_scene 2 2 MatrixController.defaults empty_world
    = Done NULL σ'
    ∧ live σ' = list_to_set (addr_seq 3%positive 13)
    ∧ heap σ' !! 3%positive = Some (BBytes bs)
    ∧ take 2 bs = chars "2" ++ [0]
    ∧ drop 2 bs = drop 2 (fresh_list E_null_scene 32 3%positive).
Proof.
  destruct (proj1 (create_null_scene_keeps_strings E_null_scene 2 2
                     MatrixController.defaults empty_world
                     empty_world_below (λ _, eq_refl) eq_refl
                     ltac:(unfold INT_MAX; lia)))
    as (σ' & Hrun & Hlive & Htexts & _).
  exists σ', (printed 32 (fmt_d 2) (fresh_list E_null_scene 32 3%positive)).
  split_and!; [exact Hrun| |exact (Htexts 0%nat _ _ eq_refl eq_refl)| |].
  - rewrite Hlive. vm_compute. reflexivity.
  - vm_compute. reflexivity.
  - vm_compute. reflexivity.
Defined.

(** X16: when every allocation succeeds and the external initializer
    returns a scene without an image, [matrix_wrapper_create] returns a
    handle to an idle wrapper of the requested dimensions, with a
    FrameBuffer of [width * height * 3] bytes and a scene whose image it
    has allocated with scene width * scene height * stride bytes.  The
    argument strings have been freed: exactly four blocks (wrapper,
    FrameBuffer, scene, image) have been added to the live ones.  The
    constructor returns a controller that is not running. *)
Theorem create_success E W H o σ i :
  heap_below σ → (∀ a, malloc_ok E a = true) →
  default_scene E = Some i → init_image i = None →
  0 ≤ W * H * 3 ≤ INT_MAX →
  INT_MIN ≤ init_width i * init_height i ≤ INT_MAX →
  0 ≤ init_width i * init_height i * init_stride i ≤ INT_MAX →
  let wa := next σ in
  let pb := (next σ + 1)%positive in
  let sa := (next σ + 15)%positive in
  let im := (next σ + 16)%positive in
  let w := mk_matrix_wrapper (Some sa) (Some pb) W H false 0 in
  let s := mk_scene_info (Some im) (init_width i) (init_height i) (init_stride i) in
  let c := MatrixController.mk (Some wa) None false in
  ∃ σ' fb img,
    matrix_wrapper_create E W H o σ = Done (Some wa) σ'
    ∧ MatrixController.MatrixController E W H o σ = Done c σ'
    ∧ session σ' wa w pb fb ∧ fresh σ' c wa w sa
    ∧ heap σ' !! sa = Some (BScene s) ∧ heap σ' !! im = Some (BBytes img)
    ∧ Z.of_nat (length img) = init_width i * init_height i * init_stride i
    ∧ live σ' = live σ ∪ {[wa; pb; sa; im]}
    ∧ heap_below σ' ∧ trace σ' = trace σ.
Proof.
  intros Hbelow Hok Hscene Hnoimg Hsz Hsz1 Hsz2 wa pb sa im w s c.
  subst w s c wa pb sa im.
  set (a0 := next σ). set (args := addr_seq (Pos.succ (Pos.succ a0)) 13).
  set (a15 := Nat.iter 13 Pos.succ (Pos.succ (Pos.succ a0))).
  replace (a0 + 1)%positive with (Pos.succ a0) by lia.
  replace (a0 + 15)%positive with a15 by (subst a15; cbn; lia).
  replace (a0 + 16)%positive with (Pos.succ a15) by (subst a15; cbn; lia).
  set (w := mk_matrix_wrapper (Some a15) (Some (Pos.succ a0)) W H false 0).
  set (s := mk_scene_info (Some (Pos.succ a15)) (init_width i) (init_height i)
              (init_stride i)).
  assert (Hargs : ∀ a, a ∈ args ↔ (Pos.succ a0 < a < a15)%positive).
  { intros a. subst args a15. rewrite elem_of_addr_seq. cbn. lia. }
  assert (H15 : (Pos.succ a0 < a15)%positive) by (subst a15; cbn; lia).
  assert (Hnotin : ∀ a, ¬ (Pos.succ a0 < a < a15)%positive → a ∉ args)
    by (intros a ?; by rewrite Hargs).
  destruct (fresh_bytes_length E (W * H * 3) (Pos.succ a0)) as (fb & Hfb & Hfblen);
    [lia|].
  destruct (fresh_bytes_length E (init_width i * init_height i * init_stride i)
              (Pos.succ a15)) as (img & Himg & Himglen); [lia|].
  assert (Hrun : ∀ o', ∃ σ', matrix_wrapper_create E W H o' σ = Done (Some a0) σ'
    ∧ next σ' = Pos.succ (Pos.succ a15) ∧ trace σ' = trace σ
    ∧ ∀ a, heap σ' !! a =
        if decide (Pos.succ a0 < a < a15)%positive then None
        else if decide (a = a15) then Some (BScene s)
        else if decide (a = Pos.succ a15) then Some (BBytes img)
        else if decide (a = a0) then Some (BWrapper w)
        else if decide (a = Pos.succ a0) then Some (BBytes fb)
        else heap σ !! a).
  { intros o'. eexists. split; [|split_and!].
    - create_prefix ltac:(apply Hok).
      change (length arg_slots) with 13%nat. fold a0. fold args. fold a15.
      eapply bind_run.
      { unfold call_default_scene. rewrite Hscene, Hnoimg.
        eapply bind_run; [reflexivity|]. eapply bind_run; reflexivity. }
      cbn [heap next trace].
      eapply bind_run.
      { eapply update_wrapper_run. cbn [heap].
        rewrite lookup_insert_ne by lia.
        rewrite lookup_with_texts_notin by (apply Hnotin; lia).
        apply lookup_insert_eq. }
      cbn [heap next trace set_scene scene pixel_buffer width height running
           render_thread].
      eapply bind_run.
      { apply load_scene_run. cbn [heap].
        rewrite lookup_insert_ne by lia. apply lookup_insert_eq. }
      cbn [image scene_width scene_height stride].
      eapply bind_run.
      { eapply bind_run; [by apply int_op_run|].
        eapply bind_run; [apply int_op_run; unfold INT_MIN, INT_MAX in *; lia|].
        eapply bind_run; [apply malloc_run; [lia|apply Hok]|].
        cbn [heap next trace].
        eapply bind_run.
        { eapply store_run. cbn [heap].
          rewrite !lookup_insert_ne by lia. apply lookup_insert_eq. }
        reflexivity. }
      cbn [heap next trace].
      eapply bind_run.
      { rewrite free_args_each by (rewrite length_fmap; apply length_addr_seq).
        apply each_free_run; [apply NoDup_addr_seq|].
        intros a Ha. apply Hargs in Ha. cbn [heap].
        rewrite !lookup_insert_ne by lia.
        apply lookup_with_texts_is_Some;
          [subst args; rewrite length_addr_seq; cbn; lia|apply Hargs; lia]. }
      reflexivity.
    - done.
    - done.
    - intros a. cbn [heap]. rewrite Hfb, Himg.
      destruct (decide (Pos.succ a0 < a < a15)%positive) as [Hin|Hout].
      { by rewrite lookup_without_in by (by apply Hargs). }
      rewrite lookup_without_notin by (by apply Hnotin).
      repeat case_decide; subst;
        rewrite ?lookup_insert_eq; try done;
        rewrite ?lookup_insert_ne by lia; rewrite ?lookup_insert_eq; try done;
        rewrite ?lookup_with_texts_notin by (by apply Hnotin);
        rewrite ?lookup_insert_ne by lia; rewrite ?lookup_insert_eq; try done;
        rewrite ?lookup_insert_ne by lia; by rewrite ?lookup_insert_eq. }
  destruct (Hrun o) as (σ' & Hrun1 & Hnext & Htrace & Hlook).
  assert (Hw0 : heap σ' !! a0 = Some (BWrapper w)).
  { rewrite Hlook. repeat case_decide; try lia. done. }
  assert (Hfb0 : heap σ' !! Pos.succ a0 = Some (BBytes fb)).
  { rewrite Hlook. repeat case_decide; try lia. done. }
  exists σ', fb, img. split_and!; try done.
  - unfold MatrixController.MatrixController. cbv zeta.
    match goal with
    | |- (matrix_wrapper_create _ _ _ ?o' ≫= _) _ = _ =>
        destruct (Hrun o') as (σ'' & Hrun2 & Hnext2 & Htrace2 & Hlook2)
    end.
    assert (σ'' = σ') as ->.
    { apply world_ext; [|congruence..]. apply map_eq. intros a.
      by rewrite Hlook, Hlook2. }
    by eapply bind_run.
  - rewrite Hlook. repeat case_decide; try lia. done.
  - rewrite Hlook. repeat case_decide; try lia. done.
  - apply set_eq. intros a. unfold live.
    rewrite elem_of_union, !elem_of_dom, !elem_of_union, !elem_of_singleton.
    rewrite Hlook. destruct (decide (Pos.succ a0 < a < a15)%positive) as [Hin|Hout].
    + assert (heap σ !! a = None) as -> by (apply Hbelow; subst a0; lia).
      split; [by intros [? ?]|]. intros [[? ?]|?]; [done|lia].
    + repeat case_decide; subst.
      * split; [tauto|]. by eexists.
      * split; [tauto|]. by eexists.
      * split; [tauto|]. by eexists.
      * split; [tauto|]. by eexists.
      * split; [tauto|]. intros [?|?]; [done|lia].
  - intros a Ha. rewrite Hnext in Ha. rewrite Hlook.
    repeat case_decide; try lia. apply Hbelow. subst a0. lia.
Qed.

Lemma create_success_witness :
  ∃ σ' fb img,
    MatrixController.MatrixController E_ok 2 2 MatrixController.defaults empty_world
    = Done (MatrixController.mk (Some 1%positive) None false) σ'
    ∧ session σ' 1%positive
        (mk_matrix_wrapper (Some 16%positive) (Some 2%positive) 2 2 false 0)
        2%positive fb
    ∧ heap σ' !! 17%positive = Some (BBytes img)
    ∧ Z.of_nat (length img) = 12
    ∧ live σ' = {[1; 2; 16; 17]}%positive.
Proof.
  destruct (create_success E_ok 2 2 MatrixController.defaults empty_world
              (mk_scene_init 2 2 3 None)
              empty_world_below (λ _, eq_refl) eq_refl eq_refl)
    as (σ' & fb & img & _ & Hctor & Hs & _ & _ & Himg & Hlen & Hlive & _);
    [unfold INT_MIN, INT_MAX; cbn; lia..|].
  exists σ', fb, img.
  split_and!; [exact Hctor|exact Hs|exact Himg|exact Hlen|].
  rewrite Hlive. vm_compute. reflexivity.
Defined.

(** After a construction in which the image could not be allocated. *)
Lemma create_image_failure_run E W H o σ i :
  heap_below σ →
  (∀ a, a ≠ (next σ + 16)%positive → malloc_ok E a = true) →
  default_scene E = Some i → init_image i = None →
  0 ≤ W * H * 3 ≤ INT_MAX →
  INT_MIN ≤ init_width i * init_height i ≤ INT_MAX →
  INT_MIN ≤ init_width i * init_height i * init_stride i ≤ INT_MAX →
  init_width i * init_height i * init_stride i < 0
  ∨ malloc_ok E (next σ + 16)%positive = false →
  ∃ σ',
    matrix_wrapper_create E W H o σ = Done NULL σ'
    ∧ live σ' = live σ ∪ list_to_set (addr_seq (next σ + 2)%positive 13).
Proof.
  intros Hbelow Hok Hscene Hnoimg Hsz Hsz1 Hsz2 Hwhy.
  set (a0 := next σ) in *. set (args := addr_seq (Pos.succ (Pos.succ a0)) 13).
  set (a15 := Nat.iter 13 Pos.succ (Pos.succ (Pos.succ a0))).
  replace (a0 + 2)%positive with (Pos.succ (Pos.succ a0)) by lia. fold args.
  assert (H16 : (a0 + 16)%positive = Pos.succ a15) by (subst a15; cbn; lia).
  rewrite H16 in *. clear H16.
  assert (Hargs : ∀ a, a ∈ args ↔ (Pos.succ a0 < a < a15)%positive).
  { intros a. subst args a15. rewrite elem_of_addr_seq. cbn. lia. }
  assert (H15 : (Pos.succ a0 < a15)%positive) by (subst a15; cbn; lia).
  assert (Hnotin : ∀ a, ¬ (Pos.succ a0 < a < a15)%positive → a ∉ args)
    by (intros a ?; by rewrite Hargs).
  assert (Hn0 : a0 ∉ dom (heap σ)) by (apply not_elem_of_dom, Hbelow; lia).
  assert (Hn1 : Pos.succ a0 ∉ dom (heap σ)) by (apply not_elem_of_dom, Hbelow; lia).
  assert (Hn15 : a15 ∉ dom (heap σ)) by (apply not_elem_of_dom, Hbelow; lia).
  eexists. split.
  - create_prefix ltac:(apply Hok; subst a15 a0; cbn;
      first [ lia
            | match goal with
              | Ha : _ ∈ addr_seq _ _ |- _ =>
                  apply elem_of_addr_seq in Ha; cbn in Ha; lia
              end ]).
    change (length arg_slots) with 13%nat. fold a0. fold args. fold a15.
    eapply bind_run.
    { unfold call_default_scene. rewrite Hscene, Hnoimg.
      eapply bind_run; [reflexivity|]. eapply bind_run; reflexivity. }
    cbn [heap next trace].
    eapply bind_run.
    { eapply update_wrapper_run. cbn [heap].
      rewrite lookup_insert_ne by lia.
      rewrite lookup_with_texts_notin by (apply Hnotin; lia).
      apply lookup_insert_eq. }
    cbn [heap next trace set_scene scene pixel_buffer width height running
         render_thread].
    eapply bind_run.
    { apply load_scene_run. cbn [heap].
      rewrite lookup_insert_ne by lia. apply lookup_insert_eq. }
    cbn [image scene_width scene_height stride].
    eapply bind_run.
    { eapply bind_run; [by apply int_op_run|].
      eapply bind_run; [by apply int_op_run|].
      eapply bind_run; [by apply malloc_fails|].
      cbn [heap next trace].
      eapply bind_run.
      { eapply store_run. cbn [heap].
        rewrite !lookup_insert_ne by lia. apply lookup_insert_eq. }
      cbn [heap next trace].
      eapply bind_run.
      { apply load_wrapper_run. cbn [heap].
        rewrite lookup_insert_ne by lia. apply lookup_insert_eq. }
      cbn [scene pixel_buffer set_scene].
      eapply bind_run.
      { unfold free. cbn [heap next trace].
        rewrite !lookup_insert_ne by lia.
        rewrite lookup_with_texts_notin by (apply Hnotin; lia).
        rewrite lookup_insert_ne by lia. by rewrite lookup_insert_eq. }
      eapply bind_run.
      { unfold free. cbn [heap next trace].
        rewrite lookup_delete_ne by lia. by rewrite lookup_insert_eq. }
      eapply bind_run.
      { unfold free. cbn [heap next trace].
        rewrite !lookup_delete_ne by lia. rewrite lookup_insert_ne by lia.
        by rewrite lookup_insert_eq. }
      reflexivity. }
    reflexivity.
  - unfold live. cbn [heap].
    rewrite !dom_delete_L, !dom_insert_L, dom_with_texts, !dom_insert_L
      by (subst args; rewrite length_addr_seq; cbn; lia).
    assert (Hi0 : a0 ∉ args) by (apply Hnotin; lia).
    assert (Hi1 : Pos.succ a0 ∉ args) by (apply Hnotin; lia).
    assert (Hi15 : a15 ∉ args) by (apply Hnotin; lia).
    apply set_eq. intros a.
    rewrite ?elem_of_difference, ?elem_of_union, ?elem_of_singleton,
      ?elem_of_list_to_set.
    clear -Hn0 Hn1 Hn15 Hi0 Hi1 Hi15.
    destruct (decide (a = a0)) as [->|]; [tauto|].
    destruct (decide (a = Pos.succ a0)) as [->|]; [tauto|].
    destruct (decide (a = a15)) as [->|]; tauto.
Qed.

(** X19: when the image of the scene cannot be allocated (the allocation
    fails, or scene width * height * stride is negative) while every
    other allocation succeeds, [matrix_wrapper_create] returns [NULL] and
    the constructor throws InitError, with the wrapper, the FrameBuffer
    and the scene released; the thirteen argument strings, and only
    they, have been added to the live blocks. *)
Theorem create_image_failure_keeps_strings E W H o σ i :
  heap_below σ →
  (∀ a, a ≠ (next σ + 16)%positive → malloc_ok E a = true) →
  default_scene E = Some i → init_image i = None →
  0 ≤ W * H * 3 ≤ INT_MAX →
  INT_MIN ≤ init_width i * init_height i ≤ INT_MAX →
  INT_MIN ≤ init_width i * init_height i * init_stride i ≤ INT_MAX →
  init_width i * init_height i * init_stride i < 0
  ∨ malloc_ok E (next σ + 16)%positive = false →
  (∃ σ',
     matrix_wrapper_create E W H o σ = Done NULL σ'
     ∧ live σ' = live σ ∪ list_to_set (addr_seq (next σ + 2)%positive 13))
  ∧ (∃ σ',
       MatrixController.MatrixController E W H o σ = Raise InitError σ'
       ∧ live σ' = live σ ∪ list_to_set (addr_seq (next σ + 2)%positive 13)).
Proof.
  intros Hbelow Hok Hscene Hnoimg Hsz Hsz1 Hsz2 Hwhy. split.
  - by apply (create_image_failure_run E W H o σ i).
  - unfold MatrixController.MatrixController. cbv zeta.
    match goal with
    | |- ∃ _, (matrix_wrapper_create _ _ _ ?o' ≫= _) _ = _ ∧ _ =>
        destruct (create_image_failure_run E W H o' σ i) as (σ' & Hrun & Hlive);
          try done
    end.
    exists σ'. split; [by eapply bind_run|done].
Qed.

Lemma create_image_failure_keeps_strings_witness :
  (∃ σ',
     matrix_wrapper_create E_no_image 2 2 MatrixController.defaults empty_world
     = Done NULL σ'
     ∧ live σ' = live empty_world ∪ list_to_set (addr_seq 3%positive 13))
  ∧ (∃ σ',
       MatrixController.MatrixController E_no_image 2 2 MatrixController.defaults
         empty_world
       = Raise InitError σ'
       ∧ live σ' = live empty_world ∪ list_to_set (addr_seq 3%positive 13)).
Proof.
  apply (create_image_failure_keeps_strings E_no_image 2 2 MatrixController.defaults
           empty_world (mk_scene_init 2 2 3 None) empty_world_below);
    try done; try (unfold INT_MIN, INT_MAX; cbn; lia).
  - intros a Ha. cbn. by rewrite bool_decide_eq_false_2.
  - by right.
Defined.

(** ** What the operations keep *)

(** A successful [load_bytes] has found bytes and changed nothing. *)
Lemma load_bytes_inv p σ :
  match load_bytes p σ with
  | Done bs σ' => σ' = σ ∧ heap σ !! p = Some (BBytes bs)
  | Raise _ _ | Hang _ => False
  | Fault => True
  end.
Proof.
  unfold load_bytes, load. rewrite bind_unfold.
  by destruct (heap σ !! p) as [[]|].
Qed.

Lemma load_wrapper_inv a σ :
  match load_wrapper a σ with
  | Done w σ' => σ' = σ ∧ heap σ !! a = Some (BWrapper w)
  | Raise _ _ | Hang _ => False
  | Fault => True
  end.
Proof.
  unfold load_wrapper, load. rewrite bind_unfold.
  by destruct (heap σ !! a) as [[]|].
Qed.

Section Keeping.

Context {P : world → Prop}.

Lemma keeps_ret {A} (a : A) : keeps P (mret a : M A).
Proof. by intros σ HP. Qed.

Lemma keeps_fault {A} : keeps P (fault : M A).
Proof. by intros σ HP. Qed.

Lemma keeps_throw {A} e : keeps P (throw e : M A).
Proof. by intros σ HP. Qed.

Lemma keeps_hang {A} : keeps P (hang : M A).
Proof. by intros σ HP. Qed.

Lemma keeps_bind {A B} (m : M A) (k : A → M B) :
  keeps P m → (∀ a, keeps P (k a)) → keeps P (m ≫= k).
Proof.
  intros Hm Hk σ HP. rewrite bind_unfold. specialize (Hm σ HP).
  destruct (m σ) as [a σ1|e σ1| |σ1]; [|done..]. by apply Hk.
Qed.

Lemma keeps_load a : keeps P (load a).
Proof. intros σ HP. unfold load. by destruct (heap σ !! a). Qed.

Lemma keeps_load_wrapper a : keeps P (load_wrapper a).
Proof.
  apply keeps_bind; [apply keeps_load|].
  intros []; first [apply keeps_ret | apply keeps_fault].
Qed.

Lemma keeps_load_scene a : keeps P (load_scene a).
Proof.
  apply keeps_bind; [apply keeps_load|].
  intros []; first [apply keeps_ret | apply keeps_fault].
Qed.

Lemma keeps_load_bytes a : keeps P (load_bytes a).
Proof.
  apply keeps_bind; [apply keeps_load|].
  intros []; first [apply keeps_ret | apply keeps_fault].
Qed.

Lemma keeps_int_op z : keeps P (int_op z).
Proof. intros σ HP. unfold int_op. by case_decide. Qed.

Lemma keeps_read_byte bs i : keeps P (read_byte bs i).
Proof.
  intros σ HP. unfold read_byte. case_decide; [|done].
  by destruct (bs !! Z.to_nat i).
Qed.

Lemma keeps_for n i body : (∀ j, keeps P (body j)) → keeps P (for_ n i body).
Proof.
  intros Hbody. revert i. induction n as [|n IH]; intros i; [apply keeps_ret|].
  cbn [for_]. apply keeps_bind; [apply Hbody|]. intros _. apply IH.
Qed.

Section Bytes.

(** [P] does not mind the contents of byte blocks, only their sizes. *)
Hypothesis P_bytes : ∀ σ p bs bs',
  P σ → heap σ !! p = Some (BBytes bs) → length bs' = length bs →
  P (mk_world (<[p:=BBytes bs']> (heap σ)) (next σ) (trace σ)).

Lemma keeps_write_byte p i v : keeps P (write_byte p i v).
Proof.
  intros σ HP. unfold write_byte. rewrite bind_unfold.
  pose proof (load_bytes_inv p σ) as Hp.
  destruct (load_bytes p σ) as [bs σ1| | |?]; [destruct Hp as [-> Hp]|done..].
  case_decide; [|done]. rewrite (store_run _ _ _ _ Hp).
  eapply P_bytes; [done|done|]. apply length_insert.
Qed.

Lemma keeps_memset0 p n : keeps P (memset0 p n).
Proof.
  intros σ HP. unfold memset0. rewrite bind_unfold.
  pose proof (load_bytes_inv p σ) as Hp.
  destruct (load_bytes p σ) as [bs σ1| | |?]; [destruct Hp as [-> Hp]|done..].
  case_decide; [|done]. rewrite (store_run _ _ _ _ Hp).
  eapply P_bytes; [done|done|].
  rewrite length_app, length_replicate, length_drop. lia.
Qed.

Lemma keeps_memcpy dst src n : keeps P (memcpy dst src n).
Proof.
  intros σ HP. unfold memcpy. rewrite bind_unfold.
  pose proof (load_bytes_inv src σ) as Hs.
  destruct (load_bytes src σ) as [sb σ1| | |?]; [destruct Hs as [-> Hs]|done..].
  rewrite bind_unfold. pose proof (load_bytes_inv dst σ) as Hd.
  destruct (load_bytes dst σ) as [db σ1| | |?]; [destruct Hd as [-> Hd]|done..].
  case_decide; [|done]. rewrite (store_run _ _ _ _ Hd).
  eapply P_bytes; [done|done|].
  rewrite length_app, length_take, length_drop. lia.
Qed.

Ltac keeps_bytes :=
  repeat first
    [ apply keeps_ret | apply keeps_fault | apply keeps_throw
    | apply keeps_int_op | apply keeps_read_byte
    | apply keeps_load_wrapper | apply keeps_load_scene | apply keeps_load_bytes
    | apply keeps_write_byte | apply keeps_memset0 | apply keeps_memcpy
    | apply keeps_bind; [|intros ?]
    | match goal with
      | |- keeps _ (match ?x with _ => _ end) => destruct x
      end ].

Lemma keeps_wrapper_set_pixel p x y r g b :
  keeps P (matrix_wrapper_set_pixel p x y r g b).
Proof. unfold matrix_wrapper_set_pixel. keeps_bytes. Qed.

Lemma keeps_wrapper_clear p : keeps P (matrix_wrapper_clear p).
Proof. unfold matrix_wrapper_clear. keeps_bytes. Qed.

Lemma keeps_wrapper_get_width p : keeps P (matrix_wrapper_get_width p).
Proof. unfold matrix_wrapper_get_width. keeps_bytes. Qed.

Lemma keeps_wrapper_get_height p : keeps P (matrix_wrapper_get_height p).
Proof. unfold matrix_wrapper_get_height. keeps_bytes. Qed.

Lemma keeps_wrapper_is_running p : keeps P (matrix_wrapper_is_running p).
Proof. unfold matrix_wrapper_is_running. keeps_bytes. Qed.

Lemma keeps_set_pixels c pixels : keeps P (MatrixController.set_pixels c pixels).
Proof.
  unfold MatrixController.set_pixels.
  destruct (shape pixels) as [|s0 [|s1 [|s2 [|]]]]; try apply keeps_throw.
  case_decide; [apply keeps_throw|]. cbv zeta.
  apply keeps_bind; [apply keeps_wrapper_get_width|]. intros gw.
  case_decide; [apply keeps_throw|].
  apply keeps_bind; [apply keeps_wrapper_get_height|]. intros gh.
  case_decide; [apply keeps_throw|].
  apply keeps_for. intros y. apply keeps_for. intros x.
  unfold MatrixController.copy_pixel, MatrixController.set_pixel.
  repeat (apply keeps_bind; [first [apply keeps_int_op|apply keeps_read_byte]|intros ?]).
  apply keeps_wrapper_set_pixel.
Qed.

Section Flags.

(** [P] does not mind the trace, nor the run flag and the thread
    identifier of a wrapper. *)
Hypothesis P_trace : ∀ σ tr, P σ → P (mk_world (heap σ) (next σ) tr).

Hypothesis P_wrapper : ∀ σ a w w',
  P σ → heap σ !! a = Some (BWrapper w) →
  scene w' = scene w → pixel_buffer w' = pixel_buffer w →
  width w' = width w → height w' = height w →
  P (mk_world (<[a:=BWrapper w']> (heap σ)) (next σ) (trace σ)).

Lemma keeps_emit e : keeps P (emit e).
Proof. intros σ HP. by apply P_trace. Qed.

Lemma keeps_spawn b : keeps P (spawn b).
Proof. intros σ HP. by apply P_trace. Qed.

Lemma keeps_update_wrapper a f :
  (∀ w, scene (f w) = scene w ∧ pixel_buffer (f w) = pixel_buffer w
        ∧ width (f w) = width w ∧ height (f w) = height w) →
  keeps P (update_wrapper a f).
Proof.
  intros Hf σ HP. unfold update_wrapper. rewrite bind_unfold.
  pose proof (load_wrapper_inv a σ) as Ha.
  destruct (load_wrapper a σ) as [w σ1| | |?]; [destruct Ha as [-> Ha]|done..].
  rewrite (store_run _ _ _ _ Ha).
  destruct (Hf w) as (? & ? & ? & ?). by eapply P_wrapper.
Qed.

Ltac keeps_all :=
  repeat first
    [ apply keeps_ret | apply keeps_fault | apply keeps_throw | apply keeps_hang
    | apply keeps_int_op | apply keeps_read_byte
    | apply keeps_load_wrapper | apply keeps_load_scene | apply keeps_load_bytes
    | apply keeps_write_byte | apply keeps_memset0 | apply keeps_memcpy
    | apply keeps_emit | apply keeps_spawn
    | apply keeps_update_wrapper; [by intros []]
    | apply keeps_bind; [|intros ?]
    | match goal with
      | |- keeps _ (match ?x with _ => _ end) => destruct x
      end ].

Lemma keeps_wrapper_start E p : keeps P (matrix_wrapper_start E p).
Proof. unfold matrix_wrapper_start. keeps_all. Qed.

Lemma keeps_wrapper_update p : keeps P (matrix_wrapper_update p).
Proof. unfold matrix_wrapper_update, bcm_mapper. keeps_all. Qed.

Lemma keeps_wrapper_render_forever E p :
  keeps P (matrix_wrapper_render_forever E p).
Proof. unfold matrix_wrapper_render_forever, render_forever. keeps_all. Qed.

Lemma keeps_render_thread_func E p : keeps P (run_render_thread_func E p).
Proof. unfold run_render_thread_func, render_forever. keeps_all. Qed.

Lemma keeps_pthread_join E tid : keeps P (pthread_join E tid).
Proof.
  intros σ HP. unfold pthread_join.
  destruct (joinable (trace σ) tid) as [[arg|?]|]; [|done..].
  revert σ HP. change (keeps P (run_render_thread_func E arg;; emit (EvJoin tid))).
  apply keeps_bind; [apply keeps_render_thread_func|]. intros _. apply keeps_emit.
Qed.

Lemma keeps_wrapper_stop E p : keeps P (matrix_wrapper_stop E p).
Proof.
  unfold matrix_wrapper_stop. destruct p as [wa|]; [|apply keeps_ret].
  apply keeps_bind; [apply keeps_update_wrapper; by intros []|]. intros _.
  apply keeps_bind; [apply keeps_load_wrapper|]. intros w.
  case_decide; [|apply keeps_ret].
  apply keeps_bind; [apply keeps_pthread_join|]. intros _.
  apply keeps_update_wrapper. by intros [].
Qed.

Lemma keeps_start E c : keeps P (MatrixController.start E c).
Proof.
  unfold MatrixController.start. destruct (MatrixController.running c); [apply keeps_ret|].
  apply keeps_bind; [apply keeps_wrapper_start|]. intros ok. keeps_all.
Qed.

Lemma keeps_update_loop_step c : keeps P (MatrixController.update_loop_step c).
Proof.
  unfold MatrixController.update_loop_step.
  destruct (MatrixController.running c); [|apply keeps_ret].
  apply keeps_bind; [apply keeps_wrapper_update|]. intros _. keeps_all.
Qed.

Lemma keeps_update_loop_turns c n :
  keeps P (MatrixController.update_loop_turns c n).
Proof.
  induction n as [|n IH]; [apply keeps_ret|].
  cbn [MatrixController.update_loop_turns].
  apply keeps_bind; [apply keeps_update_loop_step|].
  intros []; [apply IH|apply keeps_ret].
Qed.

Lemma keeps_join E c tid : keeps P (MatrixController.join E c tid).
Proof.
  intros σ HP. unfold MatrixController.join. revert HP.
  apply (keeps_bind (MatrixController.update_loop_turns c _) (λ _, emit (EvJoin tid))).
  - apply keeps_update_loop_turns.
  - intros _. apply keeps_emit.
Qed.

Lemma keeps_stop E c : keeps P (MatrixController.stop E c).
Proof.
  unfold MatrixController.stop.
  destruct (MatrixController.running c); cbn [negb]; [|apply keeps_ret].
  apply keeps_bind.
  - destruct (MatrixController.render_thread c) as [tid|]; [|apply keeps_ret].
    apply keeps_bind; [apply keeps_join|]. intros _. apply keeps_ret.
  - intros rt. apply keeps_bind; [apply keeps_wrapper_stop|]. intros _.
    apply keeps_ret.
Qed.

End Flags.

End Bytes.

End Keeping.

(** *** The session stays well-formed *)

Lemma well_formed_bytes wa pb W H σ p bs bs' :
  well_formed wa pb W H σ → heap σ !! p = Some (BBytes bs) →
  length bs' = length bs →
  well_formed wa pb W H (mk_world (<[p:=BBytes bs']> (heap σ)) (next σ) (trace σ)).
Proof.
  intros (w & fb & Hs & HW & HH) Hp Hlen.
  destruct (decide (p = pb)) as [->|Hne].
  - exists w, bs'. split; [|done].
    assert (fb = bs) as -> by (destruct Hs; congruence).
    by apply (session_with_frame _ _ _ _ bs).
  - exists w, fb. split; [|done]. destruct Hs as [Hw Hpb Hfb Hsz Hfblen].
    split; cbn; try done; rewrite lookup_insert_ne; try done.
    intros ->. congruence.
Qed.

Lemma well_formed_trace wa pb W H σ tr :
  well_formed wa pb W H σ → well_formed wa pb W H (mk_world (heap σ) (next σ) tr).
Proof. intros (w & fb & [] & HW & HH). exists w, fb. by split. Qed.

Lemma well_formed_wrapper wa pb W H σ a w w' :
  well_formed wa pb W H σ → heap σ !! a = Some (BWrapper w) →
  scene w' = scene w → pixel_buffer w' = pixel_buffer w →
  width w' = width w → height w' = height w →
  well_formed wa pb W H (mk_world (<[a:=BWrapper w']> (heap σ)) (next σ) (trace σ)).
Proof.
  intros (w0 & fb & Hs & HW & HH) Ha Hsc Hpb Hwd Hht.
  destruct Hs as [Hw0 Hpb0 Hfb Hsz Hlen].
  assert (a ≠ pb) by (intros ->; congruence).
  destruct (decide (a = wa)) as [->|Hne].
  - assert (w0 = w) as -> by congruence.
    exists w', fb. split; [|by rewrite Hwd, Hht].
    split; cbn; rewrite ?Hpb, ?Hwd, ?Hht; try done.
    + apply lookup_insert_eq.
    + by rewrite lookup_insert_ne.
  - exists w0, fb. split; [|done].
    split; cbn; try done; by rewrite lookup_insert_ne.
Qed.

(** X17: no operation after construction, on this or on any other
    controller, resizes or moves a session: if the handle holds a session
    of given dimensions whose FrameBuffer has [width * height * 3] bytes,
    it still does after SetPixel, Clear, SetPixels, start, stop and a turn
    of the update loop, whether they return or throw, and also where
    [stop] waits when it never returns. *)
Theorem operations_keep_session wa pb W H E c :
  (∀ x y r g b,
     keeps (well_formed wa pb W H) (MatrixController.set_pixel c x y r g b))
  ∧ keeps (well_formed wa pb W H) (MatrixController.clear c)
  ∧ (∀ pixels, keeps (well_formed wa pb W H) (MatrixController.set_pixels c pixels))
  ∧ keeps (well_formed wa pb W H) (MatrixController.start E c)
  ∧ keeps (well_formed wa pb W H) (MatrixController.stop E c)
  ∧ keeps (well_formed wa pb W H) (MatrixController.update_loop_step c).
Proof.
  pose proof (well_formed_bytes wa pb W H) as Hb.
  pose proof (well_formed_trace wa pb W H) as Ht.
  pose proof (well_formed_wrapper wa pb W H) as Hw.
  split_and!.
  - intros x y r g b. by apply keeps_wrapper_set_pixel.
  - by apply keeps_wrapper_clear.
  - intros pixels. by apply keeps_set_pixels.
  - by apply keeps_start.
  - by apply keeps_stop.
  - by apply keeps_update_loop_step.
Qed.

Lemma sample_well_formed : well_formed 1%positive 2%positive 2 2 sample_world.
Proof. eexists _, _. split; [apply sample_session|done]. Qed.

Lemma operations_keep_session_witness :
  well_formed 1%positive 2%positive 2 2 started_world.
Proof.
  destruct (operations_keep_session 1%positive 2%positive 2 2 E_ok sample_controller)
    as (_ & _ & _ & Hstart & _).
  specialize (Hstart sample_world sample_well_formed).
  rewrite sample_start in Hstart. exact Hstart.
Defined.

(** *** Drawing touches bytes only *)

Lemma same_but_bytes_refl σ : same_but_bytes σ σ.
Proof.
  split_and!; try done. intros a. by destruct (heap σ !! a) as [[]|].
Qed.

Lemma same_but_bytes_step σ0 σ p bs bs' :
  same_but_bytes σ0 σ → heap σ !! p = Some (BBytes bs) →
  length bs' = length bs →
  same_but_bytes σ0 (mk_world (<[p:=BBytes bs']> (heap σ)) (next σ) (trace σ)).
Proof.
  intros (Htr & Hnx & Hblocks) Hp Hlen. split_and!; try done.
  intros a. cbn. destruct (decide (a = p)) as [->|Hne].
  - rewrite lookup_insert_eq. specialize (Hblocks p). rewrite Hp in Hblocks.
    destruct (heap σ0 !! p) as [[| |bs0]|]; try done. congruence.
  - rewrite lookup_insert_ne by done. apply Hblocks.
Qed.

(** X18: SetPixel, Clear and SetPixels, on any controller and in any
    state, change nothing but the contents of byte buffers: when they
    return, the trace (no renderer call, no thread) and the allocation
    counter are the same, the same blocks are allocated, every wrapper
    and scene is unchanged, and every byte buffer has the size it had. *)
Theorem drawing_touches_bytes_only c σ :
  (∀ x y r g b σ',
     MatrixController.set_pixel c x y r g b σ = Done tt σ' → same_but_bytes σ σ')
  ∧ (∀ σ', MatrixController.clear c σ = Done tt σ' → same_but_bytes σ σ')
  ∧ (∀ pixels σ',
       MatrixController.set_pixels c pixels σ = Done tt σ' → same_but_bytes σ σ').
Proof.
  pose proof (same_but_bytes_step σ) as Hb.
  pose proof (same_but_bytes_refl σ) as H0.
  split_and!.
  - intros x y r g b σ' Hrun.
    pose proof (keeps_wrapper_set_pixel Hb (MatrixController.wrapper c) x y r g b σ H0)
      as Hk.
    unfold MatrixController.set_pixel in Hrun. by rewrite Hrun in Hk.
  - intros σ' Hrun.
    pose proof (keeps_wrapper_clear Hb (MatrixController.wrapper c) σ H0) as Hk.
    unfold MatrixController.clear in Hrun. by rewrite Hrun in Hk.
  - intros pixels σ' Hrun.
    pose proof (keeps_set_pixels Hb c pixels σ H0) as Hk. by rewrite Hrun in Hk.
Qed.

Lemma drawing_touches_bytes_only_witness :
  same_but_bytes sample_world
    (with_bytes sample_world 2%positive [1; 2; 3; 4; 5; 6; 7; 8; 9; 10; 11; 12]).
Proof.
  destruct (drawing_touches_bytes_only sample_controller sample_world)
    as (_ & _ & Hpixels).
  apply (Hpixels sample_pixels).
  apply (set_pixels_state sample_world sample_controller 1%positive _ _ _
           sample_pixels eq_refl sample_session sample_pixels_rgb).
Defined.

(** ** The shape as [set_pixels] reads it *)

Lemma to_int_add_multiple z k :
  INT_MIN ≤ z ≤ INT_MAX → to_int (z + k * 4294967296) = z.
Proof.
  unfold INT_MIN, INT_MAX, to_int. intros Hz.
  replace (z + k * 4294967296 + 2147483648)
    with (z + 2147483648 + k * 4294967296) by lia.
  rewrite Z.mod_add by done. rewrite Z.mod_small; lia.
Qed.

(** X20: [set_pixels] reads the height and the width of the array into
    [int] variables, so it sees them modulo 2^32: an array whose declared
    height or width differs from [h], [wd] by a multiple of 2^32 is
    treated exactly as an array declaring [h] and [wd]; in particular it
    passes the dimension check of an [h] by [wd] session. *)
Theorem set_pixels_narrows_shape c pixels h wd k1 k2 σ :
  INT_MIN ≤ h ≤ INT_MAX → INT_MIN ≤ wd ≤ INT_MAX →
  shape pixels = [h + k1 * 4294967296; wd + k2 * 4294967296; 3] →
  MatrixController.set_pixels c pixels σ
  = MatrixController.set_pixels c (mk_py_array [h; wd; 3] (data pixels)) σ.
Proof.
  intros Hh Hwd Hshape. unfold MatrixController.set_pixels.
  rewrite Hshape. cbn [shape data]. cbv zeta.
  by rewrite !to_int_add_multiple, !to_int_small by done.
Qed.

Lemma set_pixels_narrows_shape_witness :
  MatrixController.set_pixels sample_controller tall_pixels sample_world
  = Done tt (with_bytes sample_world 2%positive
               [1; 2; 3; 4; 5; 6; 7; 8; 9; 10; 11; 12]).
Proof.
  rewrite (set_pixels_narrows_shape sample_controller tall_pixels 2 2 1 0 sample_world);
    [|unfold INT_MIN, INT_MAX; lia..|reflexivity].
  apply (set_pixels_state sample_world sample_controller 1%positive _ _ _
           sample_pixels eq_refl sample_session sample_pixels_rgb).
Defined.
